(** * PlagiarismControl: the detection engine of [plagiarism-detector.js]

  A shallow embedding of the classes [CodeNormalizer], [NotebookParser] and
  [PlagiarismDetector], of the helpers of [utils.js] that read a student off
  a file name, and of the file and analysis routes of the server, together
  with their properties.

  Conventions of the embedding.
  - A JavaScript string is a list of code units; the model keeps the code
    units U+0000..U+00FF, one [ascii] each.
  - A JavaScript number is a rational ([Q]); comparisons are [Qle_bool] and
    friends, [Math.round] is [Qfloor (x + 1/2)]. The scoring is embedded
    twice: with exact arithmetic, for the properties that do not depend on
    the rounding of doubles, and in binary64 ([Binary64],
    [StringSimilarity64], [PlagiarismDetector64]), every operation rounded
    to the nearest double, for the value of the score itself.
  - A parsed notebook is a JSON value ([Json]); an exception is [None].
  - An insertion-ordered [Map] that is iterated is an association list; a
    [Map] that is only looked up is a [gmap]; a [Set] is a duplicate-free
    list in insertion order.
  - Asynchronous code is run to completion, one request at a time; the file
    system and the database are explicit arguments. *)

From Stdlib Require Import List Ascii String ZArith QArith Qround Qabs Qpower.
From Stdlib Require Import Lia Lqa Bool.
From Stdlib Require Import Permutation Sorted.
From stdpp Require Import base decidable countable gmap gmultiset strings list pretty.
Import ListNotations.

Local Open Scope list_scope.
Local Open Scope nat_scope.

(** ** Strings *)

Module JsString.

Abbreviation t := (list ascii).

Definition str (s : string) : t := list_ascii_of_string s.

Definition codeOf (c : ascii) : nat := nat_of_ascii c.

Definition between (lo hi : nat) (c : ascii) : bool :=
  (lo <=? codeOf c) && (codeOf c <=? hi).

(** LineTerminator of the language: LF and CR (U+2028 and U+2029 are outside
    the modelled range). *)
Definition isLineTerminator (c : ascii) : bool :=
  (codeOf c =? 10) || (codeOf c =? 13).

(** The class [\s], which is also what [String.prototype.trim] removes:
    TAB, LF, VT, FF, CR, SP and NBSP. *)
Definition isSpace (c : ascii) : bool :=
  between 9 13 c || (codeOf c =? 32) || (codeOf c =? 160).

Definition isUpper (c : ascii) : bool := between 65 90 c.
Definition isLower (c : ascii) : bool := between 97 122 c.
Definition isDigit (c : ascii) : bool := between 48 57 c.

(** [a-zA-Z_] *)
Definition isIdentStart (c : ascii) : bool :=
  isUpper c || isLower c || (codeOf c =? 95).

(** The class [\w], [a-zA-Z0-9_]. *)
Definition isWordChar (c : ascii) : bool := isIdentStart c || isDigit c.

Definition eqb (a b : t) : bool := bool_decide (a = b).

(** [s.split(sep)] for a one-character separator: never empty. *)
Fixpoint split (sep : ascii) (s : t) : list t :=
  match s with
  | [] => [[]]
  | c :: r =>
      if Ascii.eqb c sep then [] :: split sep r
      else match split sep r with
           | [] => [[c]]
           | l :: ls => (c :: l) :: ls
           end
  end.

(** [lines.join(sep)] *)
Fixpoint join (sep : ascii) (ls : list t) : t :=
  match ls with
  | [] => []
  | [l] => l
  | l :: ls' => l ++ sep :: join sep ls'
  end.

(** [xs.join('\n\n')], [xs.join('')] *)
Fixpoint joinWith (sep : t) (ls : list t) : t :=
  match ls with
  | [] => []
  | [l] => l
  | l :: ls' => l ++ sep ++ joinWith sep ls'
  end.

Fixpoint trimStart (s : t) : t :=
  match s with
  | [] => []
  | c :: r => if isSpace c then trimStart r else s
  end.

Definition trimEnd (s : t) : t := rev (trimStart (rev s)).

Definition trim (s : t) : t := trimEnd (trimStart s).

(** Truthiness of a string: the empty string is the only falsy one. *)
Definition truthy (s : t) : bool :=
  match s with [] => false | _ => true end.

(** [toLowerCase] on the modelled range: A-Z, and the Latin-1 capitals
    U+00C0..U+00DE without the multiplication sign U+00D7. *)
Definition lowerChar (c : ascii) : ascii :=
  if isUpper c || (between 192 222 c && negb (codeOf c =? 215))
  then ascii_of_nat (codeOf c + 32) else c.

Definition toLowerCase (s : t) : t := map lowerChar s.

(** A text cut at the word boundaries [\b]: the maximal runs of [\w]
    characters, and the characters between them. *)
Inductive piece : Type :=
| Word (w : t)
| Sep (c : ascii).

Fixpoint lex (s : t) : list piece :=
  match s with
  | [] => []
  | c :: r =>
      if isWordChar c then
        match lex r with
        | Word w :: ps => Word (c :: w) :: ps
        | ps => Word [c] :: ps
        end
      else Sep c :: lex r
  end.

Definition unpiece (p : piece) : t :=
  match p with Word w => w | Sep c => [c] end.

Definition unlex (ps : list piece) : t := flat_map unpiece ps.

Definition words (ps : list piece) : list t :=
  flat_map (fun p => match p with Word w => [w] | Sep _ => [] end) ps.

End JsString.

Import JsString.

(** ** CodeNormalizer *)

Module CodeNormalizer.

(** [code.replace(/#.*$/gm, '')]: [.] stops at a line terminator and [$]
    (with the [m] flag) holds in front of one, so every [#] goes with the
    rest of its line. [inComment] says that a [#] was seen on this line. *)
Fixpoint stripLineComments (inComment : bool) (s : JsString.t) : JsString.t :=
  match s with
  | [] => []
  | c :: r =>
      if isLineTerminator c then c :: stripLineComments false r
      else if inComment then stripLineComments true r
      else if Ascii.eqb c "#" then stripLineComments true r
      else c :: stripLineComments false r
  end.

(** Does the delimiter [ddd] occur in [s]? *)
Fixpoint hasDelim (d : ascii) (s : JsString.t) : bool :=
  match s with
  | c1 :: r =>
      match r with
      | c2 :: c3 :: _ =>
          (Ascii.eqb c1 d && Ascii.eqb c2 d && Ascii.eqb c3 d) || hasDelim d r
      | _ => false
      end
  | [] => false
  end.

(** [code.replace(/ddd[\s\S]*?ddd/g, '')]: the leftmost opening delimiter
    that has a closing one behind it starts a match, the lazy body ends at
    the first closing delimiter, and the scan goes on after it. [inside]
    says that the scan is in the body of a match. *)
Fixpoint stripBlocks (d : ascii) (inside : bool) (s : JsString.t) : JsString.t :=
  match s with
  | [] => []
  | c1 :: r =>
      let step := if inside then stripBlocks d true r
                  else c1 :: stripBlocks d false r in
      match r with
      | c2 :: c3 :: r3 =>
          if Ascii.eqb c1 d && Ascii.eqb c2 d && Ascii.eqb c3 d then
            if inside then stripBlocks d false r3
            else if hasDelim d r3 then stripBlocks d true r3
            else step
          else step
      | _ => step
      end
  end.

Definition removeComments (code : JsString.t) : JsString.t :=
  let code := stripLineComments false code in
  let code := stripBlocks "034" false code in
  let code := stripBlocks "039" false code in
  code.

Definition normalizeWhitespace (code : JsString.t) : JsString.t :=
  let lines := split "010" code in
  let normalizedLines :=
    flat_map (fun line =>
                let stripped := trim line in
                if truthy stripped then [stripped] else []) lines in
  join "010" normalizedLines.

Definition keywords : list JsString.t :=
  map str
    ["def"; "class"; "import"; "from"; "if"; "else"; "elif"; "for"; "while";
     "return"; "try"; "except"; "finally"; "with"; "as"; "break"; "continue";
     "pass"; "raise"; "assert"; "yield"; "lambda"; "True"; "False"; "None";
     "and"; "or"; "not"; "in"; "is"; "print"; "range"; "len"; "str"; "int";
     "float"; "list"; "dict"; "set"; "tuple"; "open"; "file"]%string.

Definition isKeyword (w : JsString.t) : bool := bool_decide (w ∈ keywords).

(** [code.match(/\b[a-zA-Z_][a-zA-Z0-9_]*\b/g) || []]: the maximal word
    runs that start with a letter or an underscore. *)
Definition matchTokens (code : JsString.t) : list JsString.t :=
  List.filter (fun w => match w with c :: _ => isIdentStart c | [] => false end)
              (words (lex code)).

(** [`var${varCounter}`] *)
Definition varName (n : nat) : JsString.t := str "var" ++ str (pretty n).

(** The [Map] [varMapping], in insertion order. *)
Definition mapping := list (JsString.t * JsString.t).

Definition mappingHas (m : mapping) (k : JsString.t) : bool :=
  bool_decide (k ∈ map fst m).

(** The first loop: [varCounter] is the size of the mapping. *)
Fixpoint buildMapping (tokens : list JsString.t) (varMapping : mapping)
         (varCounter : nat) : mapping :=
  match tokens with
  | [] => varMapping
  | token :: rest =>
      if negb (isKeyword token) && negb (mappingHas varMapping token)
      then buildMapping rest (varMapping ++ [(token, varName varCounter)])
                        (S varCounter)
      else buildMapping rest varMapping varCounter
  end.

(** [s.replace(new RegExp(`\\b${original}\\b`, 'g'), normalized)] for an
    identifier [original]: the word runs equal to it are replaced. *)
Definition replaceWord (original normalized : JsString.t) (s : JsString.t)
  : JsString.t :=
  unlex (map (fun p => match p with
                       | Word w => if eqb w original then Word normalized else p
                       | Sep _ => p
                       end) (lex s)).

(** The second loop, over the entries of the mapping in insertion order. *)
Fixpoint applyMapping (varMapping : mapping) (normalizedCode : JsString.t)
  : JsString.t :=
  match varMapping with
  | [] => normalizedCode
  | (original, normalized) :: rest =>
      applyMapping rest (replaceWord original normalized normalizedCode)
  end.

Definition normalizeVariableNames (code : JsString.t) : JsString.t :=
  let tokens := matchTokens code in
  let varMapping := buildMapping tokens [] 0 in
  applyMapping varMapping code.

Definition normalizeCode (code : JsString.t) (normalizeVars : bool) : JsString.t :=
  let code := removeComments code in
  let code := normalizeWhitespace code in
  if normalizeVars then normalizeVariableNames code else code.

End CodeNormalizer.

(** ** JSON documents *)

(** A value as [JSON.parse] returns it. A number is given by the string
  [String(n)] yields for it, which is ["0"] for zero; an object by its
  members in the order of the text, a later member of a name replacing an
  earlier one of that name. *)
Module Json.

#[warnings="-register-all"] Inductive t : Type :=
| Null
| Bool (b : bool)
| Number (text : JsString.t)
| String (s : JsString.t)
| Array (items : list t)
| Object (members : list (JsString.t * t)).

(** A value of the language: [None] is [undefined]. *)
Abbreviation value := (option t).

(** The truthiness of a value. *)
Definition toBoolean (v : value) : bool :=
  match v with
  | None => false
  | Some Null => false
  | Some (Bool b) => b
  | Some (Number text) => negb (eqb text (str "0"))
  | Some (String s) => truthy s
  | Some (Array _) => true
  | Some (Object _) => true
  end.

(** The member of the name [key], the last one of that name. *)
Fixpoint member (key : JsString.t) (members : list (JsString.t * t)) : value :=
  match members with
  | [] => None
  | (k, v) :: rest =>
      match member key rest with
      | Some later => Some later
      | None => if eqb k key then Some v else None
      end
  end.

(** [v[key]] for a name that no prototype defines, as are the three names
    the parser reads: [None] when the read throws, which it does on [null]. *)
Definition get (v : t) (key : JsString.t) : option value :=
  match v with
  | Null => None
  | Object members => Some (member key members)
  | _ => Some None
  end.

(** [String(v)]; an array is the [join(',')] of its elements, where [null]
    gives the empty string. *)
Fixpoint toString (v : t) : JsString.t :=
  match v with
  | Null => str "null"
  | Bool b => if b then str "true" else str "false"
  | Number text => text
  | String s => s
  | Array items =>
      joinWith (str ",")
               (map (fun item => match item with
                                 | Null => []
                                 | _ => toString item
                                 end) items)
  | Object _ => str "[object Object]"
  end.

(** The string of an element in [join]. *)
Definition element (item : t) : JsString.t :=
  match item with
  | Null => []
  | _ => toString item
  end.

(** [items.join(sep)] *)
Definition join (sep : JsString.t) (items : list t) : JsString.t :=
  joinWith sep (map element items).

End Json.

(** ** NotebookParser *)

Module NotebookParser.

(** [fs.readFile] followed by [JSON.parse]: [None] when either throws. *)
Definition fileSystem : Type := JsString.t -> option Json.t.

(** The values [for (const cell of cells)] visits: the elements of an array,
    the characters of a string; [None] when [cells] cannot be iterated. *)
Definition iterate (cells : Json.t) : option (list Json.t) :=
  match cells with
  | Json.Array items => Some items
  | Json.String s => Some (map (fun c => Json.String [c]) s)
  | _ => None
  end.

(** [cell_type === 'code'] *)
Definition isCode (cell_type : Json.value) : bool :=
  match cell_type with
  | Some (Json.String s) => eqb s (str "code")
  | _ => false
  end.

(** The body of the loop: [codeCells] after [cell]; [None] when reading
    [cell.cell_type] throws. *)
Definition visit (codeCells : list Json.t) (cell : Json.t) : option (list Json.t) :=
  match Json.get cell (str "cell_type") with
  | None => None
  | Some cell_type =>
      if isCode cell_type then
        match Json.get cell (str "source") with
        | None => None
        | Some source =>
            if Json.toBoolean source then
              match source with
              | Some (Json.Array items) =>
                  Some (codeCells ++ [Json.String (Json.join [] items)])
              | Some other => Some (codeCells ++ [other])
              | None => Some codeCells
              end
            else Some codeCells
        end
      else Some codeCells
  end.

Fixpoint loop (cells : list Json.t) (codeCells : list Json.t)
  : option (list Json.t) :=
  match cells with
  | [] => Some codeCells
  | cell :: rest =>
      match visit codeCells cell with
      | Some codeCells => loop rest codeCells
      | None => None
      end
  end.

(** The body of [try]: [None] when it throws. *)
Definition tryExtract (notebook : Json.t) : option JsString.t :=
  match Json.get notebook (str "cells") with
  | None => None
  | Some cells =>
      let separator := [ascii_of_nat 10; ascii_of_nat 10] in
      if Json.toBoolean cells then
        match cells with
        | Some cells =>
            match iterate cells with
            | Some items =>
                match loop items [] with
                | Some codeCells => Some (Json.join separator codeCells)
                | None => None
                end
            | None => None
            end
        | None => Some (Json.join separator [])
        end
      else Some (Json.join separator [])
  end.

Definition extractCodeFromNotebook (fs : fileSystem) (filePath : JsString.t)
  : JsString.t :=
  match fs filePath with
  | Some notebook => default [] (tryExtract notebook)
  | None => []
  end.

End NotebookParser.

(** ** The libraries the detector calls *)

(** [crypto.createHash('md5').update(s).digest('hex')]: MD5 (RFC 1321) of the
  UTF-8 encoding of the string, in lower-case hexadecimal. *)
Module Md5.

Local Open Scope Z_scope.

Definition utf8 (s : JsString.t) : list Z :=
  flat_map (fun c =>
              let n := Z.of_nat (codeOf c) in
              if n <? 128 then [n]
              else [Z.lor 192 (Z.shiftr n 6); Z.lor 128 (Z.land n 63)]) s.

Definition wrap32 (x : Z) : Z := x mod 2 ^ 32.

Definition rotl32 (x c : Z) : Z :=
  wrap32 (Z.lor (Z.shiftl x c) (Z.shiftr x (32 - c))).

Definition not32 (x : Z) : Z := Z.lxor x 0xffffffff.

Definition K : list Z :=
  [0xd76aa478; 0xe8c7b756; 0x242070db; 0xc1bdceee; 0xf57c0faf; 0x4787c62a; 0xa8304613; 0xfd469501;
   0x698098d8; 0x8b44f7af; 0xffff5bb1; 0x895cd7be; 0x6b901122; 0xfd987193; 0xa679438e; 0x49b40821;
   0xf61e2562; 0xc040b340; 0x265e5a51; 0xe9b6c7aa; 0xd62f105d; 0x02441453; 0xd8a1e681; 0xe7d3fbc8;
   0x21e1cde6; 0xc33707d6; 0xf4d50d87; 0x455a14ed; 0xa9e3e905; 0xfcefa3f8; 0x676f02d9; 0x8d2a4c8a;
   0xfffa3942; 0x8771f681; 0x6d9d6122; 0xfde5380c; 0xa4beea44; 0x4bdecfa9; 0xf6bb4b60; 0xbebfbc70;
   0x289b7ec6; 0xeaa127fa; 0xd4ef3085; 0x04881d05; 0xd9d4d039; 0xe6db99e5; 0x1fa27cf8; 0xc4ac5665;
   0xf4292244; 0x432aff97; 0xab9423a7; 0xfc93a039; 0x655b59c3; 0x8f0ccc92; 0xffeff47d; 0x85845dd1;
   0x6fa87e4f; 0xfe2ce6e0; 0xa3014314; 0x4e0811a1; 0xf7537e82; 0xbd3af235; 0x2ad7d2bb; 0xeb86d391].

Definition shifts : list Z :=
  [7; 12; 17; 22; 7; 12; 17; 22; 7; 12; 17; 22; 7; 12; 17; 22;
   5;  9; 14; 20; 5;  9; 14; 20; 5;  9; 14; 20; 5;  9; 14; 20;
   4; 11; 16; 23; 4; 11; 16; 23; 4; 11; 16; 23; 4; 11; 16; 23;
   6; 10; 15; 21; 6; 10; 15; 21; 6; 10; 15; 21; 6; 10; 15; 21].

(** The [n] low bytes of [x], the lowest first. *)
Definition leBytes (n : nat) (x : Z) : list Z :=
  map (fun i => Z.land (Z.shiftr x (8 * Z.of_nat i)) 255) (seq 0 n).

(** The message, the bit 1, zeros up to 56 modulo 64, and the bit length
    in 8 little-endian bytes. *)
Definition pad (msg : list Z) : list Z :=
  let len := Z.of_nat (length msg) in
  let zeros := Z.to_nat ((55 - len) mod 64) in
  msg ++ [128] ++ repeat 0 zeros ++ leBytes 8 ((8 * len) mod 2 ^ 64).

Fixpoint leWords (fuel : nat) (bs : list Z) : list Z :=
  match fuel, bs with
  | S f, b0 :: b1 :: b2 :: b3 :: r =>
      (b0 + Z.shiftl b1 8 + Z.shiftl b2 16 + Z.shiftl b3 24) :: leWords f r
  | _, _ => []
  end.

Definition state : Type := Z * Z * Z * Z.

Definition round (M : list Z) (st : state) (i : nat) : state :=
  let '(a, b, c, d) := st in
  let '(f, g) :=
    if (i <? 16)%nat then (Z.lor (Z.land b c) (Z.land (not32 b) d), i)
    else if (i <? 32)%nat then
           (Z.lor (Z.land d b) (Z.land (not32 d) c), ((5 * i + 1) mod 16)%nat)
    else if (i <? 48)%nat then (Z.lxor (Z.lxor b c) d, ((3 * i + 5) mod 16)%nat)
    else (Z.lxor c (Z.lor b (not32 d)), ((7 * i) mod 16)%nat) in
  let f := wrap32 (f + a + nth i K 0 + nth g M 0) in
  (d, wrap32 (b + rotl32 f (nth i shifts 0)), b, c).

Definition block (st : state) (M : list Z) : state :=
  let '(a0, b0, c0, d0) := st in
  let '(a, b, c, d) := fold_left (round M) (seq 0 64) st in
  (wrap32 (a0 + a), wrap32 (b0 + b), wrap32 (c0 + c), wrap32 (d0 + d)).

Fixpoint blocks (fuel : nat) (ws : list Z) (st : state) : state :=
  match fuel, ws with
  | S f, _ :: _ => blocks f (skipn 16 ws) (block st (firstn 16 ws))
  | _, _ => st
  end.

Definition hexDigit (n : Z) : ascii :=
  ascii_of_nat (Z.to_nat (if n <? 10 then 48 + n else 87 + n)).

Definition hexByte (b : Z) : JsString.t := [hexDigit (b / 16); hexDigit (b mod 16)].

Definition md5hex (s : JsString.t) : JsString.t :=
  let bs := pad (utf8 s) in
  let ws := leWords (length bs) bs in
  let '(a, b, c, d) :=
    blocks (length ws) ws (0x67452301, 0xefcdab89, 0x98badcfe, 0x10325476) in
  flat_map hexByte (leBytes 4 a ++ leBytes 4 b ++ leBytes 4 c ++ leBytes 4 d).

End Md5.

(** The package [string-similarity]: [compareTwoStrings], the Dice
  coefficient of the bigrams of the two strings without their white space. *)
Module StringSimilarity.

(** [s.substring(i, i + 2)] for [i] from [0] to [s.length - 2]. *)
Fixpoint bigrams (s : JsString.t) : list JsString.t :=
  match s with
  | a :: r => match r with
              | b :: _ => [a; b] :: bigrams r
              | [] => []
              end
  | [] => []
  end.

(** [firstBigrams.has(bigram) ? firstBigrams.get(bigram) : 0] *)
Definition countOf (m : gmap JsString.t nat) (bigram : JsString.t) : nat :=
  match m !! bigram with Some n => n | None => 0 end.

Fixpoint fillBigrams (bs : list JsString.t) (firstBigrams : gmap JsString.t nat)
  : gmap JsString.t nat :=
  match bs with
  | [] => firstBigrams
  | bigram :: r =>
      let count := match firstBigrams !! bigram with
                   | Some n => n + 1
                   | None => 1
                   end in
      fillBigrams r (<[bigram := count]> firstBigrams)
  end.

Fixpoint intersect (bs : list JsString.t) (firstBigrams : gmap JsString.t nat)
         (intersectionSize : nat) : nat :=
  match bs with
  | [] => intersectionSize
  | bigram :: r =>
      let count := countOf firstBigrams bigram in
      if 0 <? count
      then intersect r (<[bigram := count - 1]> firstBigrams) (S intersectionSize)
      else intersect r firstBigrams intersectionSize
  end.

Definition compareTwoStrings (first second : JsString.t) : Q :=
  let first := List.filter (fun c => negb (isSpace c)) first in
  let second := List.filter (fun c => negb (isSpace c)) second in
  if eqb first second then 1%Q
  else if (length first <? 2) || (length second <? 2) then 0%Q
  else
    let firstBigrams := fillBigrams (bigrams first) ∅ in
    let intersectionSize := intersect (bigrams second) firstBigrams 0 in
    (inject_Z (2 * Z.of_nat intersectionSize)
     / inject_Z (Z.of_nat (length first + length second - 2)))%Q.

End StringSimilarity.

(** The package [natural]: [new WordTokenizer().tokenize(s)] splits at the
  runs of characters outside [A-Za-z0-9_] (and the Cyrillic letters, which
  are outside the modelled range) and drops the empty pieces. *)
Module WordTokenizer.

Definition tokenize (s : JsString.t) : list JsString.t := words (lex s).

End WordTokenizer.

(** ** Numbers and sets of the language *)

Module Js.

Local Open Scope Q_scope.

Definition gtb (x y : Q) : bool := negb (Qle_bool x y).
Definition geb (x y : Q) : bool := Qle_bool y x.

Definition ofNat (n : nat) : Q := inject_Z (Z.of_nat n).

(** [Math.round]: the nearest integer, halves upwards. *)
Definition round (x : Q) : Q := inject_Z (Qfloor (x + (1 # 2))).

(** [Math.min] *)
Definition min (x y : Q) : Q := if Qle_bool x y then x else y.

(** [new Set(xs)]: the distinct elements in the order of their first
    occurrence. *)
Definition setHas (s : list JsString.t) (x : JsString.t) : bool :=
  bool_decide (x ∈ s).

Definition setAdd (s : list JsString.t) (x : JsString.t) : list JsString.t :=
  if setHas s x then s else s ++ [x].

Definition newSet (xs : list JsString.t) : list JsString.t :=
  fold_left setAdd xs [].

(** [Array.prototype.sort(compare)]: a stable sort; an element goes in
    front of the first element it does not have to follow. *)
Fixpoint insertSorted {A} (compare : A -> A -> Q) (x : A) (l : list A) : list A :=
  match l with
  | [] => [x]
  | y :: l' =>
      if Qle_bool (compare x y) 0 then x :: l
      else y :: insertSorted compare x l'
  end.

Definition sort {A} (compare : A -> A -> Q) (l : list A) : list A :=
  fold_right (insertSorted compare) [] l.

End Js.

(** ** PlagiarismDetector *)

Module LineMatch.
Record t : Type := mk
  { lineA : nat; lineB : nat; code : JsString.t; similarity : Q }.
End LineMatch.

Module FileData.
Record t : Type := mk
  { file_id : JsString.t;
    student_name : JsString.t;
    student_id : JsString.t;
    file_path : JsString.t;
    upload_order : option Z }.
End FileData.

Module ProcessedFile.
Record t : Type := mk
  { student_name : JsString.t;
    student_id : JsString.t;
    file_id : JsString.t;
    raw_code : JsString.t;
    normalized_code : JsString.t;
    upload_order : Z;
    code_hash : JsString.t }.
End ProcessedFile.

Module Result.
Record t : Type := mk
  { studentA : JsString.t;
    studentA_id : JsString.t;
    fileA_id : JsString.t;
    studentB : JsString.t;
    studentB_id : JsString.t;
    fileB_id : JsString.t;
    similarity : Q;
    matching_lines : list LineMatch.t;
    total_matches : nat }.
End Result.

Module PlagiarismDetector.

Import StringSimilarity.
Local Open Scope Q_scope.

(** The fields the constructor sets ([codeHashes] is never read). *)
Record t : Type := mk { threshold : Q; normalizeVars : bool }.

(** [new PlagiarismDetector(threshold = 0.5, normalizeVars = true)] *)
Definition new (threshold : option Q) (normalizeVars : option bool) : t :=
  {| threshold := default 0.5%Q threshold;
     normalizeVars := default true normalizeVars |}.

Definition calculateCodeHash (code : JsString.t) : JsString.t := Md5.md5hex code.

(** [code.split('\n').filter(line => line.trim())] *)
Definition nonBlankLines (code : JsString.t) : list JsString.t :=
  List.filter (fun line => truthy (trim line)) (split "010" code).

(** The inner loop of the line count, which stops at the first hit. *)
Fixpoint lineHasMatch (line1 : JsString.t) (lines2 : list JsString.t) : bool :=
  match lines2 with
  | [] => false
  | line2 :: rest =>
      if Js.gtb (compareTwoStrings line1 line2) 0.8 then true
      else lineHasMatch line1 rest
  end.

Fixpoint countMatchingLines (lines1 lines2 : list JsString.t) (matchingLines : nat)
  : nat :=
  match lines1 with
  | [] => matchingLines
  | line1 :: rest =>
      countMatchingLines rest lines2
        (if lineHasMatch line1 lines2 then S matchingLines else matchingLines)
  end.

Definition calculateSimilarity (code1 code2 : JsString.t) : Q :=
  if negb (truthy code1) || negb (truthy code2) then 0
  else
    let stringSim := compareTwoStrings code1 code2 in
    let tokens1 := WordTokenizer.tokenize (toLowerCase code1) in
    let tokens2 := WordTokenizer.tokenize (toLowerCase code2) in
    let set1 := Js.newSet tokens1 in
    let set2 := Js.newSet tokens2 in
    let intersection := Js.newSet (List.filter (Js.setHas set2) set1) in
    let union := Js.newSet (set1 ++ set2) in
    let jaccardSim :=
      if 0 <? length union
      then Js.ofNat (length intersection) / Js.ofNat (length union) else 0 in
    let lines1 := nonBlankLines code1 in
    let lines2 := nonBlankLines code2 in
    let totalLines := Nat.max (length lines1) (length lines2) in
    let matchingLines :=
      if 0 <? totalLines then countMatchingLines lines1 lines2 0 else 0%nat in
    let lineSim :=
      if 0 <? totalLines then Js.ofNat matchingLines / Js.ofNat totalLines else 0 in
    let combinedSimilarity :=
      (stringSim * 0.4) + (jaccardSim * 0.3) + (lineSim * 0.3) in
    Js.min combinedSimilarity 1.

(** [code.split('\n').map(line => line.trim()).filter(line => line)] *)
Definition trimmedLines (code : JsString.t) : list JsString.t :=
  List.filter truthy (map trim (split "010" code)).

(** The [forEach] that fills the lookup table [line2Set]. *)
Fixpoint indexLines (lines2 : list JsString.t) (index : nat)
         (line2Set : gmap JsString.t (list nat)) : gmap JsString.t (list nat) :=
  match lines2 with
  | [] => line2Set
  | line :: rest =>
      let line2Set :=
        match line2Set !! line with
        | Some _ => line2Set
        | None => <[line := []]> line2Set
        end in
      indexLines rest (S index) (alter (fun l => l ++ [index]) line line2Set)
  end.

(** The scan for a similar line: the first [line2] longer than 10 whose
    similarity to [line1] is above 0.85. *)
Fixpoint findSimilar (i : nat) (line1 : JsString.t) (lines2 : list JsString.t)
         (j : nat) : option LineMatch.t :=
  match lines2 with
  | [] => None
  | line2 :: rest =>
      let similarity := compareTwoStrings line1 line2 in
      if (10 <? length line2) && Js.gtb similarity 0.85 then
        Some {| LineMatch.lineA := i + 1;
                LineMatch.lineB := j + 1;
                LineMatch.code := line1;
                LineMatch.similarity := Js.round (similarity * 100 * 10) / 10 |}
      else findSimilar i line1 rest (S j)
  end.

(** The main loop, from index [i] on; [rest] are the lines [lines1[i..]]. *)
Fixpoint matchLoop (maxMatches : nat) (lines2 : list JsString.t)
         (line2Set : gmap JsString.t (list nat))
         (rest : list JsString.t) (i : nat) (matches : list LineMatch.t)
  : list LineMatch.t :=
  match rest with
  | [] => matches
  | line1 :: rest' =>
      if length matches <? maxMatches then
        match line2Set !! line1 with
        | Some indices =>
            matchLoop maxMatches lines2 line2Set rest' (S i)
              (matches ++ [{| LineMatch.lineA := i + 1;
                              LineMatch.lineB := (hd 0 indices + 1)%nat;
                              LineMatch.code := line1;
                              LineMatch.similarity := 100 |}])
        | None =>
            if (10 <? length line1) && (length matches <? maxMatches) then
              match findSimilar i line1 lines2 0 with
              | Some m =>
                  matchLoop maxMatches lines2 line2Set rest' (S i) (matches ++ [m])
              | None => matchLoop maxMatches lines2 line2Set rest' (S i) matches
              end
            else matchLoop maxMatches lines2 line2Set rest' (S i) matches
        end
      else matches
  end.

Definition findMatchingLines (code1 code2 : JsString.t) (maxMatches : option nat)
  : list LineMatch.t :=
  let maxMatches := default 20%nat maxMatches in
  let lines1 := trimmedLines code1 in
  let lines2 := trimmedLines code2 in
  let line2Set := indexLines lines2 0 ∅ in
  matchLoop maxMatches lines2 line2Set lines1 0 [].

(** Step 1 for one file: [None] when the file is skipped. *)
Definition processFile (self : t) (fs : NotebookParser.fileSystem)
           (fileData : FileData.t) : option ProcessedFile.t :=
  let rawCode := NotebookParser.extractCodeFromNotebook fs (FileData.file_path fileData) in
  let normalizedCode := CodeNormalizer.normalizeCode rawCode (normalizeVars self) in
  if negb (truthy (trim normalizedCode)) then None
  else Some {| ProcessedFile.student_name := FileData.student_name fileData;
               ProcessedFile.student_id := FileData.student_id fileData;
               ProcessedFile.file_id := FileData.file_id fileData;
               ProcessedFile.raw_code := rawCode;
               ProcessedFile.normalized_code := normalizedCode;
               ProcessedFile.upload_order :=
                 match FileData.upload_order fileData with
                 | Some n => if Z.eqb n 0 then 0%Z else n
                 | None => 0%Z
                 end;
               ProcessedFile.code_hash := calculateCodeHash normalizedCode |}.

Fixpoint processFiles (self : t) (fs : NotebookParser.fileSystem)
         (filesData : list FileData.t) (processedFiles : list ProcessedFile.t)
  : list ProcessedFile.t :=
  match filesData with
  | [] => processedFiles
  | fileData :: rest =>
      match processFile self fs fileData with
      | Some p => processFiles self fs rest (processedFiles ++ [p])
      | None => processFiles self fs rest processedFiles
      end
  end.

(** The score of a pair: the duplicate check, then the metrics. *)
Definition pairSimilarity (fileA fileB : ProcessedFile.t) : Q :=
  if eqb (ProcessedFile.code_hash fileA) (ProcessedFile.code_hash fileB) then 1
  else calculateSimilarity (ProcessedFile.normalized_code fileA)
                           (ProcessedFile.normalized_code fileB).

(** The body of the inner loop: what the pair adds to [results]. *)
Definition comparePair (self : t) (fileA fileB : ProcessedFile.t) : list Result.t :=
  let similarity := pairSimilarity fileA fileB in
  if Js.geb similarity (threshold self) then
    let matchingLines :=
      if Js.gtb similarity 0.7
      then findMatchingLines (ProcessedFile.normalized_code fileA)
                             (ProcessedFile.normalized_code fileB) (Some 20%nat)
      else [] in
    [{| Result.studentA := ProcessedFile.student_name fileA;
        Result.studentA_id := ProcessedFile.student_id fileA;
        Result.fileA_id := ProcessedFile.file_id fileA;
        Result.studentB := ProcessedFile.student_name fileB;
        Result.studentB_id := ProcessedFile.student_id fileB;
        Result.fileB_id := ProcessedFile.file_id fileB;
        Result.similarity := Js.round (similarity * 100 * 100) / 100;
        Result.matching_lines := matchingLines;
        Result.total_matches := length matchingLines |}]
  else [].

(** [for (j = i + 1; ...)]: [fileA] against the files behind it. *)
Fixpoint innerLoop (self : t) (fileA : ProcessedFile.t)
         (behind : list ProcessedFile.t) (results : list Result.t) : list Result.t :=
  match behind with
  | [] => results
  | fileB :: rest => innerLoop self fileA rest (results ++ comparePair self fileA fileB)
  end.

(** [for (i = 0; ...)] *)
Fixpoint outerLoop (self : t) (files : list ProcessedFile.t)
         (results : list Result.t) : list Result.t :=
  match files with
  | [] => results
  | fileA :: behind => outerLoop self behind (innerLoop self fileA behind results)
  end.

(** [(a, b) => b.similarity - a.similarity] *)
Definition bySimilarity (a b : Result.t) : Q :=
  Result.similarity b - Result.similarity a.

Definition detectPlagiarism (self : t) (fs : NotebookParser.fileSystem)
           (filesData : list FileData.t) : list Result.t :=
  if length filesData <? 2 then []
  else
    let processedFiles := processFiles self fs filesData [] in
    if length processedFiles <? 2 then []
    else
      let results := outerLoop self processedFiles [] in
      Js.sort bySimilarity results.

End PlagiarismDetector.

(** ** Numbers in binary64

  The numbers of the language are the IEEE 754 doubles. A finite double is a
  rational number, and an operation returns the double nearest to the exact
  result, ties to the even mantissa. The modules above compute with exact
  rationals, which is enough for what does not depend on rounding; the
  modules below compute as the program does. *)

Module Binary64.

Local Open Scope Q_scope.

Definition pow2 (e : Z) : Q := Qpower 2 e.

(** The integer nearest to [y], the even one at a tie. *)
Definition nearestEven (y : Q) : Z :=
  let f := Qfloor y in
  match Qcompare (y - inject_Z f) (1 # 2) with
  | Lt => f
  | Gt => (f + 1)%Z
  | Eq => if Z.even f then f else (f + 1)%Z
  end.

(** The integer part of the binary logarithm of [|x|], for [x] other than 0. *)
Definition exponent (x : Q) : Z :=
  let l := (Z.log2 (Z.abs (Qnum x)) - Z.log2 (Zpos (Qden x)))%Z in
  if Qle_bool (pow2 l) (Qabs x) then l else (l - 1)%Z.

(** The double nearest to [x]: a mantissa of 53 bits, and of fewer below
    2^-1022, where the doubles are the multiples of 2^-1074. The numbers of
    the program stay below 2^14, far from the largest double. *)
Definition fl (x : Q) : Q :=
  if Qeq_bool x 0 then 0
  else
    let e := Z.max (exponent x - 52) (-1074) in
    Qred (inject_Z (nearestEven (x / pow2 e)) * pow2 e).

Definition add (x y : Q) : Q := fl (x + y).
Definition sub (x y : Q) : Q := fl (x - y).
Definition mul (x y : Q) : Q := fl (x * y).
Definition div (x y : Q) : Q := fl (x / y).

End Binary64.

(** [compareTwoStrings] of [string-similarity] in binary64. *)
Module StringSimilarity64.

Import StringSimilarity.

Definition compareTwoStrings (first second : JsString.t) : Q :=
  let first := List.filter (fun c => negb (isSpace c)) first in
  let second := List.filter (fun c => negb (isSpace c)) second in
  if eqb first second then 1%Q
  else if (length first <? 2) || (length second <? 2) then 0%Q
  else
    let firstBigrams := fillBigrams (bigrams first) ∅ in
    let intersectionSize := intersect (bigrams second) firstBigrams 0 in
    Binary64.div (inject_Z (2 * Z.of_nat intersectionSize))
                 (inject_Z (Z.of_nat (length first + length second - 2))).

End StringSimilarity64.

(** The scoring of [PlagiarismDetector] in binary64. The decimal literals of
    the source are the doubles nearest to them; the lengths and sizes are
    whole numbers below 2^53, which are doubles. *)
Module PlagiarismDetector64.

Import StringSimilarity64 Binary64.
Local Open Scope Q_scope.

Abbreviation t := PlagiarismDetector.t.

Fixpoint lineHasMatch (line1 : JsString.t) (lines2 : list JsString.t) : bool :=
  match lines2 with
  | [] => false
  | line2 :: rest =>
      if Js.gtb (compareTwoStrings line1 line2) (fl 0.8) then true
      else lineHasMatch line1 rest
  end.

Fixpoint countMatchingLines (lines1 lines2 : list JsString.t) (matchingLines : nat)
  : nat :=
  match lines1 with
  | [] => matchingLines
  | line1 :: rest =>
      countMatchingLines rest lines2
        (if lineHasMatch line1 lines2 then S matchingLines else matchingLines)
  end.

Definition calculateSimilarity (code1 code2 : JsString.t) : Q :=
  if negb (truthy code1) || negb (truthy code2) then 0
  else
    let stringSim := compareTwoStrings code1 code2 in
    let tokens1 := WordTokenizer.tokenize (toLowerCase code1) in
    let tokens2 := WordTokenizer.tokenize (toLowerCase code2) in
    let set1 := Js.newSet tokens1 in
    let set2 := Js.newSet tokens2 in
    let intersection := Js.newSet (List.filter (Js.setHas set2) set1) in
    let union := Js.newSet (set1 ++ set2) in
    let jaccardSim :=
      if 0 <? length union
      then div (Js.ofNat (length intersection)) (Js.ofNat (length union)) else 0 in
    let lines1 := PlagiarismDetector.nonBlankLines code1 in
    let lines2 := PlagiarismDetector.nonBlankLines code2 in
    let totalLines := Nat.max (length lines1) (length lines2) in
    let matchingLines :=
      if 0 <? totalLines then countMatchingLines lines1 lines2 0 else 0%nat in
    let lineSim :=
      if 0 <? totalLines
      then div (Js.ofNat matchingLines) (Js.ofNat totalLines) else 0 in
    let combinedSimilarity :=
      add (add (mul stringSim (fl 0.4)) (mul jaccardSim (fl 0.3)))
          (mul lineSim (fl 0.3)) in
    Js.min combinedSimilarity 1.

Fixpoint findSimilar (i : nat) (line1 : JsString.t) (lines2 : list JsString.t)
         (j : nat) : option LineMatch.t :=
  match lines2 with
  | [] => None
  | line2 :: rest =>
      let similarity := compareTwoStrings line1 line2 in
      if (10 <? length line2) && Js.gtb similarity (fl 0.85) then
        Some {| LineMatch.lineA := i + 1;
                LineMatch.lineB := j + 1;
                LineMatch.code := line1;
                LineMatch.similarity :=
                  div (Js.round (mul (mul similarity 100) 10)) 10 |}
      else findSimilar i line1 rest (S j)
  end.

Fixpoint matchLoop (maxMatches : nat) (lines2 : list JsString.t)
         (line2Set : gmap JsString.t (list nat))
         (rest : list JsString.t) (i : nat) (matches : list LineMatch.t)
  : list LineMatch.t :=
  match rest with
  | [] => matches
  | line1 :: rest' =>
      if length matches <? maxMatches then
        match line2Set !! line1 with
        | Some indices =>
            matchLoop maxMatches lines2 line2Set rest' (S i)
              (matches ++ [{| LineMatch.lineA := i + 1;
                              LineMatch.lineB := (hd 0 indices + 1)%nat;
                              LineMatch.code := line1;
                              LineMatch.similarity := 100 |}])
        | None =>
            if (10 <? length line1) && (length matches <? maxMatches) then
              match findSimilar i line1 lines2 0 with
              | Some m =>
                  matchLoop maxMatches lines2 line2Set rest' (S i) (matches ++ [m])
              | None => matchLoop maxMatches lines2 line2Set rest' (S i) matches
              end
            else matchLoop maxMatches lines2 line2Set rest' (S i) matches
        end
      else matches
  end.

Definition findMatchingLines (code1 code2 : JsString.t) (maxMatches : option nat)
  : list LineMatch.t :=
  let maxMatches := default 20%nat maxMatches in
  let lines1 := PlagiarismDetector.trimmedLines code1 in
  let lines2 := PlagiarismDetector.trimmedLines code2 in
  let line2Set := PlagiarismDetector.indexLines lines2 0 ∅ in
  matchLoop maxMatches lines2 line2Set lines1 0 [].

Definition pairSimilarity (fileA fileB : ProcessedFile.t) : Q :=
  if eqb (ProcessedFile.code_hash fileA) (ProcessedFile.code_hash fileB) then 1
  else calculateSimilarity (ProcessedFile.normalized_code fileA)
                           (ProcessedFile.normalized_code fileB).

Definition comparePair (self : t) (fileA fileB : ProcessedFile.t) : list Result.t :=
  let similarity := pairSimilarity fileA fileB in
  if Js.geb similarity (PlagiarismDetector.threshold self) then
    let matchingLines :=
      if Js.gtb similarity (fl 0.7)
      then findMatchingLines (ProcessedFile.normalized_code fileA)
                             (ProcessedFile.normalized_code fileB) (Some 20%nat)
      else [] in
    [{| Result.studentA := ProcessedFile.student_name fileA;
        Result.studentA_id := ProcessedFile.student_id fileA;
        Result.fileA_id := ProcessedFile.file_id fileA;
        Result.studentB := ProcessedFile.student_name fileB;
        Result.studentB_id := ProcessedFile.student_id fileB;
        Result.fileB_id := ProcessedFile.file_id fileB;
        Result.similarity := div (Js.round (mul (mul similarity 100) 100)) 100;
        Result.matching_lines := matchingLines;
        Result.total_matches := length matchingLines |}]
  else [].

Fixpoint innerLoop (self : t) (fileA : ProcessedFile.t)
         (behind : list ProcessedFile.t) (results : list Result.t) : list Result.t :=
  match behind with
  | [] => results
  | fileB :: rest => innerLoop self fileA rest (results ++ comparePair self fileA fileB)
  end.

Fixpoint outerLoop (self : t) (files : list ProcessedFile.t)
         (results : list Result.t) : list Result.t :=
  match files with
  | [] => results
  | fileA :: behind => outerLoop self behind (innerLoop self fileA behind results)
  end.

(** [(a, b) => b.similarity - a.similarity] *)
Definition bySimilarity (a b : Result.t) : Q :=
  sub (Result.similarity b) (Result.similarity a).

Definition detectPlagiarism (self : t) (fs : NotebookParser.fileSystem)
           (filesData : list FileData.t) : list Result.t :=
  if length filesData <? 2 then []
  else
    let processedFiles := PlagiarismDetector.processFiles self fs filesData [] in
    if length processedFiles <? 2 then []
    else
      let results := outerLoop self processedFiles [] in
      Js.sort bySimilarity results.

End PlagiarismDetector64.

(** ** The route [POST /api/analyze] *)

Module FileDoc.
Record t : Type := mk
  { id : JsString.t;
    student_name : JsString.t;
    student_id : JsString.t;
    filename : JsString.t;
    file_path : JsString.t;
    upload_timestamp : JsString.t;
    upload_order : option Z }.
End FileDoc.

Module AnalysisResult.
Record t : Type := mk
  { id : JsString.t;
    analysis_timestamp : JsString.t;
    threshold : Q;
    results : list Result.t;
    total_files : nat;
    total_matches : nat }.
End AnalysisResult.

Module Server.

(** The two collections of the database the route touches. *)
Record db : Type := mkDb
  { files : list FileDoc.t; analysis_results : list AnalysisResult.t }.

(** What the handler reads from outside: the files on disk, the identifier
    [uuidv4()] returns and the time [new Date().toISOString()] returns. *)
Record env : Type := mkEnv
  { fs : NotebookParser.fileSystem; uuidv4 : JsString.t; now : JsString.t }.

Inductive response : Type :=
| Json (body : AnalysisResult.t)
| Status (status : nat) (detail : JsString.t).

Definition toFileData (f : FileDoc.t) : FileData.t :=
  {| FileData.file_id := FileDoc.id f;
     FileData.student_name := FileDoc.student_name f;
     FileData.student_id := FileDoc.student_id f;
     FileData.file_path := FileDoc.file_path f;
     FileData.upload_order := FileDoc.upload_order f |}.

(** The handler behind [authenticateToken]; [threshold] is the field of the
    request body, [None] when it is absent. *)
Definition analyze (e : env) (threshold : option Q) (d : db) : response * db :=
  let threshold := default 0.5%Q threshold in
  let files := firstn 300 (files d) in
  if length files <? 2 then
    (Status 400 (str "At least 2 files are required for analysis"), d)
  else
    let filesToAnalyze := firstn 100 files in
    let filesData := map toFileData filesToAnalyze in
    let detector := PlagiarismDetector.new (Some threshold) None in
    let results := PlagiarismDetector.detectPlagiarism detector (fs e) filesData in
    let analysisResult :=
      {| AnalysisResult.id := uuidv4 e;
         AnalysisResult.analysis_timestamp := now e;
         AnalysisResult.threshold := threshold;
         AnalysisResult.results := results;
         AnalysisResult.total_files := length filesToAnalyze;
         AnalysisResult.total_matches := length results |} in
    (Json analysisResult,
     {| files := Server.files d;
        analysis_results := analysis_results d ++ [analysisResult] |}).

End Server.

(** ** The helpers of [utils.js] *)

Module StudentInfo.
Record t : Type := mk { studentName : JsString.t; studentId : JsString.t }.
End StudentInfo.

Module Utils.

(** [s.startsWith(p)] *)
Fixpoint startsWith (p s : JsString.t) : bool :=
  match p, s with
  | [], _ => true
  | a :: p', b :: s' => Ascii.eqb a b && startsWith p' s'
  | _ :: _, [] => false
  end.

(** [s.endsWith(p)] *)
Definition endsWith (p s : JsString.t) : bool := startsWith (rev p) (rev s).

(** [s.includes(p)] *)
Fixpoint includes (p s : JsString.t) : bool :=
  startsWith p s || match s with [] => false | _ :: r => includes p r end.

(** [s.replace(p, '')] for a string [p]: the first occurrence goes. *)
Fixpoint removeFirst (p s : JsString.t) : JsString.t :=
  if startsWith p s then skipn (length p) s
  else match s with
       | [] => []
       | c :: r => c :: removeFirst p r
       end.

(** [s.split(sep)] for a separator of several characters: the occurrences
    are found from the left and do not overlap. [skip] counts the characters
    of the separator still to drop. *)
Fixpoint splitOn (sep : JsString.t) (skip : nat) (s : JsString.t) : list JsString.t :=
  match s with
  | [] => [[]]
  | c :: r =>
      match skip with
      | S k => splitOn sep k r
      | O =>
          if startsWith sep s then [] :: splitOn sep (length sep - 1) r
          else match splitOn sep 0 r with
               | l :: ls => (c :: l) :: ls
               | [] => [[c]]
               end
      end
  end.

(** [s.replace(/\s+/g, '_')]; [inRun] says that the run of white space has
    its underscore already. *)
Fixpoint spacesToUnderscore (inRun : bool) (s : JsString.t) : JsString.t :=
  match s with
  | [] => []
  | c :: r =>
      if isSpace c then
        if inRun then spacesToUnderscore true r
        else "_"%char :: spacesToUnderscore true r
      else c :: spacesToUnderscore false r
  end.

(** The class [a-z0-9_]. *)
Definition isIdChar (c : ascii) : bool :=
  isLower c || isDigit c || Ascii.eqb c "_".

(** [name.toLowerCase().replace(/\s+/g, '_').replace(/[^a-z0-9_]/g, '')] *)
Definition slug (studentName : JsString.t) : JsString.t :=
  List.filter isIdChar (spacesToUnderscore false (toLowerCase studentName)).

(** [toUpperCase] of a [\w] character. *)
Definition upperWordChar (c : ascii) : ascii :=
  if isLower c then ascii_of_nat (codeOf c - 32) else c.

(** [str.replace(/\w\S*/g, txt => txt.charAt(0).toUpperCase()
    + txt.substr(1).toLowerCase())]: a match starts at a [\w] character and
    runs to the next white space. [inMatch] says that the scan is in one. *)
Fixpoint titleCase (inMatch : bool) (s : JsString.t) : JsString.t :=
  match s with
  | [] => []
  | c :: r =>
      if inMatch then
        if isSpace c then c :: titleCase false r
        else lowerChar c :: titleCase true r
      else if isWordChar c then upperWordChar c :: titleCase true r
      else c :: titleCase false r
  end.

Definition toTitleCase (str : JsString.t) : JsString.t := titleCase false str.

(** [/^\d+$/] *)
Definition allDigits (s : JsString.t) : bool := truthy s && forallb isDigit s.

(** One character under the [i] flag. *)
Definition ci (c x : ascii) : bool := Ascii.eqb c x || Ascii.eqb c (upperWordChar x).

(** [/^roll\d+$/i] *)
Definition isRoll (part : JsString.t) : bool :=
  match part with
  | c1 :: c2 :: c3 :: c4 :: ds =>
      ci c1 "r" && ci c2 "o" && ci c3 "l" && ci c4 "l" && allDigits ds
  | _ => false
  end.

Definition assignmentIndicators : list JsString.t :=
  map str ["lab"; "assignment"; "hw"; "project"; "task"; "exercise"; "ex";
           "test"; "quiz"]%string.

(** [/^(lab|assignment|hw|project|task|exercise|ex|test|quiz)\d+$/i] on a
    lower-case string. *)
Definition isNumberedIndicator (partLower : JsString.t) : bool :=
  existsb (fun indicator =>
             startsWith indicator partLower
             && allDigits (skipn (length indicator) partLower))
          assignmentIndicators.

(** The loop that finds the part behind the last assignment indicator. *)
Fixpoint findNameStart (parts : list JsString.t) (i nameStartIndex : nat) : nat :=
  match parts with
  | [] => nameStartIndex
  | part :: rest =>
      let partLower := toLowerCase part in
      if bool_decide (partLower ∈ assignmentIndicators) then
        findNameStart rest (S i) (i + 1)
      else if existsb (fun indicator => startsWith indicator partLower)
                      assignmentIndicators then
        findNameStart rest (S i) (i + 1)
      else if isNumberedIndicator partLower then
        findNameStart rest (S i) (i + 1)
      else findNameStart rest (S i) nameStartIndex
  end.

Definition rollInfo (part : JsString.t) : StudentInfo.t :=
  {| StudentInfo.studentName := toLowerCase part;
     StudentInfo.studentId := toLowerCase part |}.

Definition numberInfo (part : JsString.t) : StudentInfo.t :=
  {| StudentInfo.studentName := str "student_" ++ part;
     StudentInfo.studentId := part |}.

(** The loop over the name parts: it returns at a roll number or a number,
    and collects the other parts. *)
Fixpoint cleanParts (nameParts cleanNameParts : list JsString.t)
  : StudentInfo.t + list JsString.t :=
  match nameParts with
  | [] => inr cleanNameParts
  | part :: rest =>
      if negb (truthy part) then cleanParts rest cleanNameParts
      else if isRoll part then inl (rollInfo part)
      else if allDigits part then inl (numberInfo part)
      else cleanParts rest (cleanNameParts ++ [part])
  end.

(** The return of the two dash patterns. *)
Definition dashInfo (studentName : JsString.t) : StudentInfo.t :=
  {| StudentInfo.studentName := toTitleCase studentName;
     StudentInfo.studentId := slug studentName |}.

(** The part of [extractStudentInfo] behind the two dash patterns. *)
Definition underscoreInfo (baseName : JsString.t) : StudentInfo.t :=
  let parts := List.filter truthy (map trim (split "_" baseName)) in
  match parts with
  | [part] =>
      if isRoll part then rollInfo part
      else if allDigits part then numberInfo part
      else {| StudentInfo.studentName := toTitleCase part;
              StudentInfo.studentId := toLowerCase part |}
  | _ =>
      let nameStartIndex := findNameStart parts 0 0 in
      let nameParts :=
        if nameStartIndex <? length parts then skipn nameStartIndex parts
        else if 2 <=? length parts then skipn (length parts - 2) parts
        else skipn (length parts - 1) parts in
      match cleanParts nameParts [] with
      | inl info => info
      | inr cleanNameParts =>
          if 0 <? length cleanNameParts then
            {| StudentInfo.studentName :=
                 toTitleCase (joinWith (str " ") cleanNameParts);
               StudentInfo.studentId :=
                 toLowerCase (joinWith (str "_") cleanNameParts) |}
          else
            {| StudentInfo.studentName :=
                 toTitleCase (map (fun c => if Ascii.eqb c "_" then " "%char else c)
                                  baseName);
               StudentInfo.studentId :=
                 spacesToUnderscore false (toLowerCase baseName) |}
      end
  end.

Definition extractStudentInfo (filename : JsString.t) : StudentInfo.t :=
  let baseName := trim (removeFirst (str ".ipynb") filename) in
  if negb (truthy baseName) then
    {| StudentInfo.studentName := str "unknown"; StudentInfo.studentId := str "unknown" |}
  else
    let viaDash (parts : list JsString.t) (otherwise : StudentInfo.t) :=
      let studentName := trim (List.last parts []) in
      if truthy studentName then dashInfo studentName else otherwise in
    let rest2 :=
      if includes (str "-") baseName && negb (includes (str " - ") baseName)
      then viaDash (split "-" baseName) (underscoreInfo baseName)
      else underscoreInfo baseName in
    if includes (str " - ") baseName
    then viaDash (splitOn (str " - ") 0 baseName) rest2
    else rest2.

(** [filename && filename.toLowerCase().endsWith('.ipynb')] *)
Definition isValidNotebook (filename : JsString.t) : bool :=
  truthy filename && endsWith (str ".ipynb") (toLowerCase filename).

(** [sanitizeInput] on a string: [trim], the angle brackets out, and the
    first 1000 characters. *)
Definition sanitizeInput (input : JsString.t) : JsString.t :=
  firstn 1000
    (List.filter (fun c => negb (Ascii.eqb c "<" || Ascii.eqb c ">")) (trim input)).

End Utils.

(** ** The file routes of [server.js] *)

(** A file as [multer] hands it to a handler. [name] is
    [path.parse(file.filename).name]: the stored file is named by the
    identifier [storage.filename] drew, followed by the extension. *)
Module UploadedFile.
Record t : Type := mk
  { originalname : JsString.t; name : JsString.t; path : JsString.t }.
End UploadedFile.

(** The entries of [uploaded_files] and [failed_files]. *)
Module UploadEntry.
Record t : Type := mk
  { file_id : JsString.t;
    filename : JsString.t;
    student_name : JsString.t;
    student_id : JsString.t }.
End UploadEntry.

Module FailedEntry.
Record t : Type := mk { filename : JsString.t; error : JsString.t }.
End FailedEntry.

(** The statistics [/api/results/history] adds to a saved run. *)
Module Summary.
Record t : Type := mk
  { avg_similarity : Q;
    max_similarity : Q;
    high_risk_count : nat;
    medium_risk_count : nat;
    low_risk_count : nat }.
End Summary.

Module Routes.

(** What a handler meets outside: the clock ([now i] is the time of the
    [i]-th reading within a request), the insertions the database refuses
    ([refused doc] is the message of the error [insertOne] throws) and the
    paths [fs.remove] fails on. The other calls of the database answer. *)
Record env : Type := mkEnv
  { now : nat -> JsString.t;
    refused : FileDoc.t -> option JsString.t;
    locked : JsString.t -> bool }.

Inductive response : Type :=
| Uploaded (file_id : JsString.t)
| BulkUploaded (uploaded_files : list UploadEntry.t)
    (failed_files : list FailedEntry.t) (total_uploaded total_failed : nat)
| Count (count max : nat)
| Deleted
| DeletedAll (deleted_files failed_files total_records_deleted : nat)
| Status (status : nat) (detail : JsString.t).

(** A handler returns its answer, the database it leaves and the paths it
    removed from the disk. *)
Definition outcome : Type := response * Server.db * list JsString.t.

(** [fs.remove(path).catch(() => {})] *)
Definition removeQuietly (e : env) (path : JsString.t) : list JsString.t :=
  if locked e path then [] else [path].

Definition insertOne (doc : FileDoc.t) (d : Server.db) : Server.db :=
  {| Server.files := Server.files d ++ [doc];
     Server.analysis_results := Server.analysis_results d |}.

(** The [fileFilter] of the upload middleware. *)
Definition fileFilter (file : UploadedFile.t) : bool :=
  Utils.endsWith (str ".ipynb") (UploadedFile.originalname file).

Definition truthyField (field : option JsString.t) : bool :=
  match field with
  | Some s => truthy s
  | None => false
  end.

(** [POST /api/upload]; [file] is [req.file], the two fields are those of
    [req.body]. *)
Definition upload (e : env) (file : option UploadedFile.t)
           (student_name student_id : option JsString.t) (d : Server.db)
  : outcome :=
  match file with
  | None => (Status 400 (str "No file uploaded"), d, [])
  | Some file =>
      if negb (truthyField student_name) || negb (truthyField student_id) then
        (Status 400 (str "Student name and ID are required"), d, [])
      else
        let filesCount := length (Server.files d) in
        if 300 <=? filesCount then
          if locked e (UploadedFile.path file) then
            (Status 500 (str "File upload failed"), d, [])
          else
            (Status 400 (str "Maximum file limit (300) reached"), d,
             [UploadedFile.path file])
        else
          let uploadOrder := filesCount + 1 in
          let fileMetadata :=
            {| FileDoc.id := UploadedFile.name file;
               FileDoc.student_name := default [] student_name;
               FileDoc.student_id := default [] student_id;
               FileDoc.filename := UploadedFile.originalname file;
               FileDoc.file_path := UploadedFile.path file;
               FileDoc.upload_timestamp := now e 0;
               FileDoc.upload_order := Some (Z.of_nat uploadOrder) |} in
          match refused e fileMetadata with
          | None => (Uploaded (FileDoc.id fileMetadata), insertOne fileMetadata d, [])
          | Some _ =>
              (Status 500 (str "File upload failed"), d,
               removeQuietly e (UploadedFile.path file))
          end
  end.

(** The loop of [POST /api/upload/bulk] from its [i]-th file on. *)
Fixpoint bulkLoop (e : env) (currentCount : nat) (i : nat)
         (files : list UploadedFile.t)
         (uploadedFiles : list UploadEntry.t) (failedFiles : list FailedEntry.t)
         (d : Server.db) (removed : list JsString.t) : outcome :=
  match files with
  | [] =>
      (BulkUploaded uploadedFiles failedFiles
         (length uploadedFiles) (length failedFiles), d, removed)
  | file :: rest =>
      let info := Utils.extractStudentInfo (UploadedFile.originalname file) in
      let uploadOrder := currentCount + length uploadedFiles + 1 in
      let fileMetadata :=
        {| FileDoc.id := UploadedFile.name file;
           FileDoc.student_name := StudentInfo.studentName info;
           FileDoc.student_id := StudentInfo.studentId info;
           FileDoc.filename := UploadedFile.originalname file;
           FileDoc.file_path := UploadedFile.path file;
           FileDoc.upload_timestamp := now e i;
           FileDoc.upload_order := Some (Z.of_nat uploadOrder) |} in
      match refused e fileMetadata with
      | None =>
          bulkLoop e currentCount (S i) rest
            (uploadedFiles
             ++ [{| UploadEntry.file_id := FileDoc.id fileMetadata;
                    UploadEntry.filename := UploadedFile.originalname file;
                    UploadEntry.student_name := StudentInfo.studentName info;
                    UploadEntry.student_id := StudentInfo.studentId info |}])
            failedFiles (insertOne fileMetadata d) removed
      | Some message =>
          bulkLoop e currentCount (S i) rest uploadedFiles
            (failedFiles
             ++ [{| FailedEntry.filename := UploadedFile.originalname file;
                    FailedEntry.error := message |}])
            d (removed ++ removeQuietly e (UploadedFile.path file))
      end
  end.

(** [POST /api/upload/bulk]; [files] is [req.files]. *)
Definition bulkUpload (e : env) (files : list UploadedFile.t) (d : Server.db)
  : outcome :=
  if length files =? 0 then (Status 400 (str "No files provided"), d, [])
  else
    let currentCount := length (Server.files d) in
    if 300 <? currentCount + length files then
      (Status 400
         (str "Upload would exceed maximum limit. Current: "
          ++ str (pretty currentCount) ++ str ", Trying to add: "
          ++ str (pretty (length files)) ++ str ", Max: 300"),
       d, flat_map (fun file => removeQuietly e (UploadedFile.path file)) files)
    else bulkLoop e currentCount 0 files [] [] d [].

(** [GET /api/files/count] *)
Definition filesCount (d : Server.db) : outcome :=
  (Count (length (Server.files d)) 300, d, []).

(** [deleteOne({ id: fileId })]: the first document of that [id] goes. *)
Fixpoint deleteOne (fileId : JsString.t) (files : list FileDoc.t)
  : list FileDoc.t :=
  match files with
  | [] => []
  | file :: rest =>
      if eqb (FileDoc.id file) fileId then rest
      else file :: deleteOne fileId rest
  end.

(** [DELETE /api/files/:fileId] *)
Definition deleteFile (e : env) (fileId : JsString.t) (d : Server.db) : outcome :=
  match List.find (fun file => eqb (FileDoc.id file) fileId) (Server.files d) with
  | None => (Status 404 (str "File not found"), d, [])
  | Some file =>
      (Deleted,
       {| Server.files := deleteOne fileId (Server.files d);
          Server.analysis_results := Server.analysis_results d |},
       removeQuietly e (FileDoc.file_path file))
  end.

(** The loop of [DELETE /api/files] over the stored files. *)
Fixpoint removeLoop (e : env) (files : list FileDoc.t)
         (deletedCount failedCount : nat) (removed : list JsString.t)
  : nat * nat * list JsString.t :=
  match files with
  | [] => (deletedCount, failedCount, removed)
  | file :: rest =>
      if locked e (FileDoc.file_path file) then
        removeLoop e rest deletedCount (failedCount + 1) removed
      else
        removeLoop e rest (deletedCount + 1) failedCount
          (removed ++ [FileDoc.file_path file])
  end.

(** [DELETE /api/files] *)
Definition deleteAllFiles (e : env) (d : Server.db) : outcome :=
  let files := Server.files d in
  let '(deletedCount, failedCount, removed) := removeLoop e files 0 0 [] in
  (DeletedAll deletedCount failedCount (length files),
   {| Server.files := []; Server.analysis_results := Server.analysis_results d |},
   removed).

Local Open Scope Q_scope.

(** [Math.max(...xs)] of a non-empty array. *)
Definition maxOf (xs : list Q) : Q :=
  match xs with
  | [] => 0
  | x :: xs => fold_left (fun m y => if Qle_bool m y then y else m) xs x
  end.

Definition sum (xs : list Q) : Q := fold_left Qplus xs 0.

Definition count (p : Q -> bool) (xs : list Q) : nat := length (List.filter p xs).

(** The body of [results.forEach] in [GET /api/results/history]. *)
Definition summarize (result : AnalysisResult.t) : Summary.t :=
  if (0 <? length (AnalysisResult.results result))%nat then
    let similarities :=
      map (fun r => if Qeq_bool (Result.similarity r) 0 then 0
                    else Result.similarity r)
          (AnalysisResult.results result) in
    {| Summary.avg_similarity :=
         sum similarities / Js.ofNat (length similarities);
       Summary.max_similarity := maxOf similarities;
       Summary.high_risk_count := count (fun s => Js.geb s 70) similarities;
       Summary.medium_risk_count :=
         count (fun s => Js.geb s 40 && Js.gtb 70 s) similarities;
       Summary.low_risk_count := count (fun s => Js.gtb 40 s) similarities |}
  else
    {| Summary.avg_similarity := 0;
       Summary.max_similarity := 0;
       Summary.high_risk_count := 0;
       Summary.medium_risk_count := 0;
       Summary.low_risk_count := 0 |}.

End Routes.

(** * Vocabulary of the properties *)

(** The pairs [(files[i], files[j])], [i < j], in the order the two loops of
  [detectPlagiarism] visit them. *)
Fixpoint pairs {A} (l : list A) : list (A * A) :=
match l with
| [] => []
| a :: behind => map (pair a) behind ++ pairs behind
end.

Definition compared (self : PlagiarismDetector.t)
         (p : ProcessedFile.t * ProcessedFile.t) : list Result.t :=
PlagiarismDetector.comparePair self (fst p) (snd p).

(** The entries of the pairs kept, in discovery order. *)
Definition discovered (self : PlagiarismDetector.t) (fs : NotebookParser.fileSystem)
         (filesData : list FileData.t) : list Result.t :=
flat_map (compared self)
         (pairs (PlagiarismDetector.processFiles self fs filesData [])).

(** The order of the run: the higher score first. *)
Definition descending (a b : Result.t) : Prop :=
(Result.similarity b <= Result.similarity a)%Q.

(** The entries of one score. *)
Definition hasScore (s : Q) (r : Result.t) : bool :=
Qeq_bool (Result.similarity r) s.

(** The score as the specification words it: three signals, their blend, the
  clamp and the percentage. *)
Module Spec.

Local Open Scope Q_scope.

(** The set of the lower-case tokens of a text. *)
Definition tokenSet (text : JsString.t) : gset JsString.t :=
  list_to_set (WordTokenizer.tokenize (toLowerCase text)).

(** |intersection| / |union|, and 0 when the union is empty. *)
Definition jaccard (a b : JsString.t) : Q :=
  match size (tokenSet a ∪ tokenSet b) with
  | O => 0
  | S n => Js.ofNat (size (tokenSet a ∩ tokenSet b)) / Js.ofNat (S n)
  end.

Definition dice (a b : JsString.t) : Q := StringSimilarity.compareTwoStrings a b.

(** A line of [a] is covered when some line of [b] is more than 0.8 like it. *)
Definition covered (b : JsString.t) (line : JsString.t) : bool :=
  existsb (fun line' => Js.gtb (dice line line') 0.8)
          (PlagiarismDetector.nonBlankLines b).

(** The covered lines of [a] over the larger of the two line counts. *)
Definition coverage (a b : JsString.t) : Q :=
  let la := PlagiarismDetector.nonBlankLines a in
  let lb := PlagiarismDetector.nonBlankLines b in
  match Nat.max (length la) (length lb) with
  | O => 0
  | S n => Js.ofNat (length (List.filter (covered b) la)) / Js.ofNat (S n)
  end.

Definition clamp01 (x : Q) : Q :=
  if Qlt_le_dec x 0 then 0 else if Qlt_le_dec 1 x then 1 else x.

End Spec.

(** Sample notebooks and batches. *)
Module Examples.

Import NotebookParser.

Definition codeCell (source : Json.t) : Json.t :=
  Json.Object [(str "cell_type", Json.String (str "code")); (str "source", source)].

(** The notebook of one code cell with the text [code]. *)
Definition notebookOf (code : JsString.t) : Json.t :=
  Json.Object [(str "cells", Json.Array [codeCell (Json.String code)])].

(** A commented notebook, the same program under another name, a different
    program, and a notebook without code. *)
Definition nbNote : Json.t :=
  Json.Object
    [(str "cells",
      Json.Array [codeCell (Json.Array [Json.String (str "# note
"); Json.String (str "x=1
"); Json.String (str "print(x)")])])].

Definition nbPlain : Json.t := notebookOf (str "y=1
print(y)").

Definition nbOther : Json.t :=
  Json.Object
    [(str "cells",
      Json.Array [codeCell (Json.Array [Json.String (str "total = 0
"); Json.String (str "for k in range(10):
"); Json.String (str "    total = total + k")])])].

Definition markdownCell : Json.t :=
  Json.Object [(str "cell_type", Json.String (str "markdown"));
               (str "source", Json.String (str "# Homework"))].

Definition nbMarkdown : Json.t :=
  Json.Object [(str "cells", Json.Array [markdownCell])].

Definition disk : fileSystem :=
  fun path =>
    if eqb path (str "a.ipynb") then Some nbNote
    else if eqb path (str "b.ipynb") then Some nbPlain
    else if eqb path (str "c.ipynb") then Some nbOther
    else if eqb path (str "d.ipynb") then Some nbMarkdown
    else None.

Definition fileData (name : string) : FileData.t :=
  {| FileData.file_id := str name;
     FileData.student_name := str name;
     FileData.student_id := str name;
     FileData.file_path := str name ++ str ".ipynb";
     FileData.upload_order := None |}.

Definition batch : list FileData.t := [fileData "a"; fileData "b"; fileData "c"].

Definition detector (threshold : Q) : PlagiarismDetector.t :=
  PlagiarismDetector.new (Some threshold) None.

Definition blank : ProcessedFile.t :=
  ProcessedFile.mk [] [] [] [] [] 0 [].

(** The submission of a file of the disk after step 1. *)
Definition processed (name : string) : ProcessedFile.t :=
  default blank (PlagiarismDetector.processFile (detector 0.5) disk (fileData name)).

End Examples.

(** Entries with given scores, and a text of fifty different lines. *)
Module Samples.

Definition entry (name : string) (score : Q) : Result.t :=
  {| Result.studentA := str name;
     Result.studentA_id := str name;
     Result.fileA_id := str name;
     Result.studentB := str name;
     Result.studentB_id := str name;
     Result.fileB_id := str name;
     Result.similarity := score;
     Result.matching_lines := [];
     Result.total_matches := 0 |}.

Definition fiftyLines : JsString.t :=
  join "010" (map (fun k => str "print(" ++ str (pretty k) ++ str ")") (seq 0 50)).

(** Two texts between double quotes with single-quoted blocks around them:
    stripping the single-quoted blocks leaves a double-quoted block. *)
Definition nestedBlocks : JsString.t :=
  let q := "034"%char in
  [q] ++ str "'''x'''" ++ [q; q] ++ str "a" ++ [q] ++ str "'''y'''" ++ [q; q].

End Samples.

(** The submissions of a request that survive step 1 of [detectPlagiarism]. *)
Definition usable (e : Server.env) (d : Server.db) : list ProcessedFile.t :=
  PlagiarismDetector.processFiles
    (PlagiarismDetector.new None None) (Server.fs e)
    (map Server.toFileData (firstn 100 (firstn 300 (Server.files d)))) [].

(** The answers that report a failure. *)
Definition isError (r : Server.response) : Prop :=
  match r with
  | Server.Status _ _ => True
  | Server.Json _ => False
  end.

(** What the database holds once [run] is saved. *)
Definition persisted (d : Server.db) (run : AnalysisResult.t) : Server.db :=
  {| Server.files := Server.files d;
     Server.analysis_results := Server.analysis_results d ++ [run] |}.

(** Sample databases over the disk of [Examples]. *)
Module Requests.

Definition doc (name : string) : FileDoc.t :=
  {| FileDoc.id := str name;
     FileDoc.student_name := str name;
     FileDoc.student_id := str name;
     FileDoc.filename := str name ++ str ".ipynb";
     FileDoc.file_path := str name ++ str ".ipynb";
     FileDoc.upload_timestamp := str "2024-01-01T00:00:00.000Z";
     FileDoc.upload_order := Some 1%Z |}.

Definition env : Server.env :=
  {| Server.fs := Examples.disk;
     Server.uuidv4 := str "0b0e6fd2-7b0e-4c55-9d56-0d1c9b6f3a11";
     Server.now := str "2024-01-02T00:00:00.000Z" |}.

(** Two stored files without usable code: no code cell, and no file. *)
Definition unusable : Server.db :=
  {| Server.files := [doc "d"; doc "missing"]; Server.analysis_results := [] |}.

Definition stored : Server.db :=
  {| Server.files := [doc "a"; doc "b"; doc "c"]; Server.analysis_results := [] |}.

End Requests.

(** The bigrams of a text as a multiset, for the Dice signal. *)
Definition bigramBag (s : JsString.t) : gmultiset JsString.t :=
  list_to_set_disj (StringSimilarity.bigrams s).

(** A map of counters holds the multiset [X]. *)
Definition holds (m : gmap JsString.t nat) (X : gmultiset JsString.t) : Prop :=
  forall b, StringSimilarity.countOf m b = multiplicity b X.

(** The conditions under which a normalized text is a fixed point. *)
Module Canonical.

Import CodeNormalizer.

(** No identifier of the mapping is spelled like the generic name of an
    identifier that was seen before it; [n] is the index of the first entry. *)
Fixpoint captureFree (varMapping : mapping) (n : nat) : bool :=
  match varMapping with
  | [] => true
  | (original, _) :: rest =>
      forallb (fun i => negb (eqb original (varName i))) (seq 0 n)
      && captureFree rest (S n)
  end.

(** The mapping [normalizeCode] builds for a code. *)
Definition mappingOf (code : JsString.t) : mapping :=
  buildMapping (matchTokens (normalizeWhitespace (removeComments code))) [] 0.

(** The text holds no block delimiter of either kind. *)
Definition delimiterFree (s : JsString.t) : bool :=
  negb (hasDelim "034" s) && negb (hasDelim "039" s).

(** One replacement, and the replacements of a mapping in order, on a word. *)
Definition subst1 (original normalized : JsString.t) (w : JsString.t) : JsString.t :=
  if eqb w original then normalized else w.

Definition seqsub (m : mapping) (w : JsString.t) : JsString.t :=
  fold_left (fun w' entry => subst1 (fst entry) (snd entry) w') m w.

Definition onWord (f : JsString.t -> JsString.t) (p : piece) : piece :=
  match p with Word w => Word (f w) | Sep c => Sep c end.

(** The text with [f] applied to each of its words. *)
Definition rename (f : JsString.t -> JsString.t) (s : JsString.t) : JsString.t :=
  unlex (map (onWord f) (lex s)).

(** The mapping of a text that is already anonymized. *)
Definition diag (m : mapping) : mapping := map (fun entry => (snd entry, snd entry)) m.

(** A word of the lexer: non-empty, of [\w] characters. *)
Definition isWord (w : JsString.t) : Prop :=
  w <> [] /\ Forall (fun c => isWordChar c = true) w.

(** A piece list that does not start with a word. *)
Definition noWordHead (ps : list piece) : Prop :=
  match ps with Word _ :: _ => False | _ => True end.

(** The piece lists the lexer yields: words, separators, and no two words
    side by side. *)
Fixpoint wellFormed (ps : list piece) : Prop :=
  match ps with
  | [] => True
  | Word w :: rest => isWord w /\ noWordHead rest /\ wellFormed rest
  | Sep c :: rest => isWordChar c = false /\ wellFormed rest
  end.

(** A line as [normalizeWhitespace] leaves it: no white space at either end,
    hence not empty, and no line feed. *)
Definition tight (l : JsString.t) : Prop :=
  isSpace (hd " "%char l) = false /\ isSpace (List.last l " "%char) = false.

Definition goodLine (l : JsString.t) : Prop := tight l /\ ~ In "010"%char l.

(** The generic names are words. *)
Definition validNames (m : mapping) : Prop := Forall (fun entry => isWord (snd entry)) m.

(** The state of the first loop of [normalizeVariableNames]: [n] entries with
    different identifiers, none a keyword, named [var0], [var1], ... *)
Definition wellBuilt (m : mapping) (n : nat) : Prop :=
  map snd m = map varName (seq 0 n)
  /\ NoDup (map fst m)
  /\ Forall (fun original => isKeyword original = false) (map fst m).

End Canonical.

(** Renamings of identifiers, for the invariance of the anonymization. *)
Module Renaming.

Import CodeNormalizer.

(** The first character of an identifier. *)
Definition identStart (w : JsString.t) : bool :=
  match w with c :: _ => isIdentStart c | [] => false end.

(** The mapping with its identifiers renamed by [f]. *)
Definition mapKeys (f : JsString.t -> JsString.t) (m : mapping) : mapping :=
  map (fun entry => (f (fst entry), snd entry)) m.

(** [f] is a renaming of the identifiers of [w]: it sends words to words,
    different words of [w] to different words, non-keyword identifiers to
    non-keyword identifiers, and leaves keywords and the words that are no
    identifiers as they are. *)
Definition renames (f : JsString.t -> JsString.t) (w : JsString.t) : Prop :=
  (forall x, Canonical.isWord x -> Canonical.isWord (f x))
  /\ (forall x y, In x (words (lex w)) -> In y (words (lex w)) -> f x = f y -> x = y)
  /\ (forall x, In x (words (lex w)) ->
                if negb (isKeyword x) && identStart x
                then isKeyword (f x) = false /\ identStart (f x) = true
                else f x = x).

End Renaming.

(** What a parsed notebook holds for [extractCodeFromNotebook]. *)
Module Notebooks.




(** The code of such a cell: its source as a string, the elements of an
    array one after the other. *)
Definition codeOf (cell : Json.t) : JsString.t :=
  match cell with
  | Json.Object members =>
      match Json.member (str "source") members with
      | Some (Json.Array items) => Json.join [] items
      | Some other => Json.toString other
      | None => []
      end
  | _ => []
  end.

(** A notebook with a markdown cell, a number, a cell without source and two
    code cells, the second with its source in pieces. *)
Definition mixed : list Json.t :=
  [Examples.markdownCell;
   Json.Number (str "7");
   Json.Object [(str "cell_type", Json.String (str "code"))];
   Examples.codeCell (Json.String (str "x = 1"));
   Examples.codeCell (Json.Array [Json.String (str "y = 2
"); Json.Null; Json.String (str "print(y)")])].

End Notebooks.

(** What the entries of the line matcher say about the two lists of lines. *)
Module LineEntries.


(** The entry of an exact match: the line of the entry is line [lineA] of
    the first list and its first occurrence in the second list is line
    [lineB]. *)
Definition exact (lines1 lines2 : list JsString.t) (m : LineMatch.t) : Prop :=
  exists i k,
    LineMatch.lineA m = i + 1 /\ LineMatch.lineB m = k + 1
    /\ lines1 !! i = Some (LineMatch.code m)
    /\ lines2 !! k = Some (LineMatch.code m)
    /\ (forall k', k' < k -> lines2 !! k' <> Some (LineMatch.code m))
    /\ LineMatch.similarity m = 100%Q.




End LineEntries.

(** Requests to the file routes and the database a sequence of them leaves
  when they are served in turn, each request with the surroundings it is
  served in. In turn means that a handler runs to its answer before the next
  request is taken up; a handler gives up control at each [await], and two
  requests in flight at once are not described here. *)
Module Traffic.

Inductive request : Type :=
| Upload (file : option UploadedFile.t) (student_name student_id : option JsString.t)
| BulkUpload (files : list UploadedFile.t)
| FilesCount
| DeleteFile (fileId : JsString.t)
| DeleteAllFiles
| Analyze (e : Server.env) (threshold : option Q).

Definition handle (e : Routes.env) (r : request) (d : Server.db) : Server.db :=
  match r with
  | Upload file student_name student_id =>
      snd (fst (Routes.upload e file student_name student_id d))
  | BulkUpload files => snd (fst (Routes.bulkUpload e files d))
  | FilesCount => snd (fst (Routes.filesCount d))
  | DeleteFile fileId => snd (fst (Routes.deleteFile e fileId d))
  | DeleteAllFiles => snd (fst (Routes.deleteAllFiles e d))
  | Analyze e' threshold => snd (Server.analyze e' threshold d)
  end.

Definition serveInTurn (rs : list (Routes.env * request)) (d : Server.db)
  : Server.db :=
  fold_left (fun d er => handle (fst er) (snd er) d) rs d.

Definition empty : Server.db :=
  {| Server.files := []; Server.analysis_results := [] |}.

(** The request is not the removal of a single file. *)
Definition keepsOrder (r : request) : Prop :=
  match r with
  | DeleteFile _ => False
  | _ => True
  end.

(** The upload orders [first], [first + 1], ... of [n] documents. *)
Definition orders (first n : nat) : list (option Z) :=
  map (fun k => Some (Z.of_nat k)) (seq first n).

Definition orderWithin (lo hi : Z) (f : FileDoc.t) : Prop :=
  exists z, FileDoc.upload_order f = Some z /\ (lo <= z <= hi)%Z.

(** The student of the document is the one read off its file name. *)
Definition extracted (f : FileDoc.t) : Prop :=
  FileDoc.student_name f
  = StudentInfo.studentName (Utils.extractStudentInfo (FileDoc.filename f))
  /\ FileDoc.student_id f
     = StudentInfo.studentId (Utils.extractStudentInfo (FileDoc.filename f)).

Definition withFiles (d : Server.db) (files : list FileDoc.t) : Server.db :=
  {| Server.files := files; Server.analysis_results := Server.analysis_results d |}.

(** Sample surroundings and uploads. *)
Definition quiet : Routes.env :=
  {| Routes.now := fun _ => str "2024-01-01T00:00:00.000Z";
     Routes.refused := fun _ => None;
     Routes.locked := fun _ => false |}.

(** The database refuses the documents of [student_id] "bob". *)
Definition picky : Routes.env :=
  {| Routes.now := fun _ => str "2024-01-01T00:00:00.000Z";
     Routes.refused :=
       fun doc => if eqb (FileDoc.student_id doc) (str "bob")
                  then Some (str "E11000 duplicate key") else None;
     Routes.locked := fun _ => false |}.

Definition file (name : string) : UploadedFile.t :=
  {| UploadedFile.originalname := str "lab1_" ++ str name ++ str ".ipynb";
     UploadedFile.name := str "id-" ++ str name;
     UploadedFile.path := str "uploads/id-" ++ str name ++ str ".ipynb" |}.

End Traffic.

(** The score of the claim in its own words: the three signals as exact
  ratios, their blend, and the blend as the program computes it, with every
  operation rounded to the nearest double. *)
Module Blend.

Local Open Scope Q_scope.
Import Binary64.

(** The lines of a text that hold a character other than white space. *)
Definition lines (text : JsString.t) : list JsString.t :=
  List.filter (existsb (fun c => negb (isSpace c))) (split "010" text).

(** A line of the first text is covered when the second text has a line
    whose Dice coefficient with it, as a double, is above the double 0.8. *)
Definition covered (b : JsString.t) (line : JsString.t) : bool :=
  existsb (fun line' =>
             Js.gtb (StringSimilarity64.compareTwoStrings line line') (fl 0.8))
          (lines b).

(** The covered lines of [a] over the larger of the two line counts. *)
Definition coverage (a b : JsString.t) : Q :=
  match Nat.max (length (lines a)) (length (lines b)) with
  | O => 0
  | S n => Js.ofNat (length (List.filter (covered b) (lines a))) / Js.ofNat (S n)
  end.

(** The weighted blend of the exact signals. *)
Definition exact (a b : JsString.t) : Q :=
  0.4 * Spec.dice a b + 0.3 * Spec.jaccard a b + 0.3 * coverage a b.

(** The blend in binary64: the signals, the weights, the products and the
    sums are each the nearest double, and the result is cut at 1. *)
Definition computed (a b : JsString.t) : Q :=
  Js.min (add (add (mul (fl (Spec.dice a b)) (fl 0.4))
                   (mul (fl (Spec.jaccard a b)) (fl 0.3)))
              (mul (fl (coverage a b)) (fl 0.3)))
         1.

(** [r] reports the score [x] as a percentage with two decimals: it is the
    double nearest to a whole number of hundredths, and off [100 x] by half
    a hundredth and the rounding of the doubles at most. *)
Definition reports (x r : Q) : Prop :=
  (exists k : Z, r = fl (inject_Z k / 100))
  /\ 100 * x - ((1 # 200) + (1 # 1000000000)) <= r
     <= 100 * x + ((1 # 200) + (1 # 1000000000)).

(** The distance of the computed blend from the exact one. *)
Definition tolerance : Q := 1 # 1000000000000000.

(** Two notebooks of one cell each, two lists of numbers. *)
Definition listing : JsString.t := str "28, 6, 17, 0, 11, 3, 21, 55, 37, 25, 27".
Definition shortListing : JsString.t := str "39, 8, 58, 0, 7, 1".

Definition disk : NotebookParser.fileSystem :=
  fun path =>
    if eqb path (str "listing.ipynb") then Some (Examples.notebookOf listing)
    else if eqb path (str "short.ipynb") then Some (Examples.notebookOf shortListing)
    else None.

Definition batch : list FileData.t :=
  [Examples.fileData "listing"; Examples.fileData "short"].

End Blend.

(** * Properties *)

(** ** The model on known values *)

Section KnownValues.

(** The test suite of RFC 1321. *)
Example md5_rfc1321 :
  Md5.md5hex (str "") = str "d41d8cd98f00b204e9800998ecf8427e"
  /\ Md5.md5hex (str "a") = str "0cc175b9c0f1b6a831c399e269772661"
  /\ Md5.md5hex (str "abc") = str "900150983cd24fb0d6963f7d28e17f72"
  /\ Md5.md5hex (str "message digest") = str "f96b697d7cb7938d525a2f31aaf161d0"
  /\ Md5.md5hex (str "abcdefghijklmnopqrstuvwxyz")
     = str "c3fcd3d76192e4007dfb496cca67e13b"
  /\ Md5.md5hex (str "12345678901234567890123456789012345678901234567890123456789012345678901234567890")
     = str "57edf4a22be3c955ac49da2e2107b67a".
Proof. repeat split; vm_compute; reflexivity. Qed.

(** The examples of the documentation of [string-similarity]. *)
Example compareTwoStrings_readme :
  (StringSimilarity.compareTwoStrings (str "healed") (str "sealed") == 0.8)%Q
  /\ (StringSimilarity.compareTwoStrings (str "france") (str "france") == 1)%Q
  /\ (StringSimilarity.compareTwoStrings (str "a") (str "b") == 0)%Q.
Proof. repeat split. Qed.

(** A commented program and the same program under another name normalize
    to the same text. *)
Example normalizeCode_same_program :
  CodeNormalizer.normalizeCode (str "# note
x=1
print(x)") true = str "var0=1
print(var0)"
  /\ CodeNormalizer.normalizeCode (str "y=1
print(y)") true = str "var0=1
print(var0)".
Proof. split; vm_compute; reflexivity. Qed.

End KnownValues.

(** ** Rational arithmetic of the model *)

Section Numbers.

Local Open Scope Q_scope.

Lemma gtb_spec (x y : Q) : Js.gtb x y = true <-> y < x.
Proof.
  unfold Js.gtb. rewrite negb_true_iff, <- not_true_iff_false, Qle_bool_iff.
  split; [apply Qnot_le_lt | apply Qlt_not_le].
Qed.

Lemma geb_spec (x y : Q) : Js.geb x y = true <-> y <= x.
Proof. unfold Js.geb. apply Qle_bool_iff. Qed.

Lemma min_le_r (x y : Q) : Js.min x y <= y.
Proof.
  unfold Js.min. destruct (Qle_bool x y) eqn:E.
  - now apply Qle_bool_iff.
  - apply Qle_refl.
Qed.

Lemma min_nonneg (x y : Q) : 0 <= x -> 0 <= y -> 0 <= Js.min x y.
Proof. unfold Js.min. now destruct (Qle_bool x y). Qed.

Lemma ofNat_nonneg (n : nat) : 0 <= Js.ofNat n.
Proof.
  unfold Js.ofNat. change 0 with (inject_Z 0). rewrite <- Zle_Qle. lia.
Qed.

Lemma ofNat_pos (n : nat) : (0 < n)%nat -> 0 < Js.ofNat n.
Proof.
  unfold Js.ofNat. change 0 with (inject_Z 0). rewrite <- Zlt_Qlt. lia.
Qed.

Lemma ratio_nonneg (a b : nat) : 0 <= Js.ofNat a / Js.ofNat b.
Proof.
  destruct b as [|b].
  - unfold Qdiv. simpl. rewrite Qmult_0_r. apply Qle_refl.
  - apply Qle_shift_div_l; [apply ofNat_pos; lia|].
    rewrite Qmult_0_l. apply ofNat_nonneg.
Qed.

(** [Math.round] returns the integer within one half of its argument. *)
Lemma round_spec (x : Q) :
  exists k : Z, Js.round x = inject_Z k /\ x - (1 # 2) < inject_Z k <= x + (1 # 2).
Proof.
  exists (Qfloor (x + (1 # 2))). split; [reflexivity|].
  pose proof (Qfloor_le (x + (1 # 2))) as Hle.
  pose proof (Qlt_floor (x + (1 # 2))) as Hlt.
  rewrite inject_Z_plus in Hlt. change (inject_Z 1) with 1 in Hlt.
  split; [lra | exact Hle].
Qed.

End Numbers.

(** ** The sort *)

Section Sort.

Local Open Scope Q_scope.
Import PlagiarismDetector.

Lemma bySimilarity_le (a b : Result.t) :
  Qle_bool (bySimilarity a b) 0 = true <-> descending a b.
Proof. unfold bySimilarity, descending. rewrite Qle_bool_iff. lra. Qed.

Lemma insertSorted_perm (x : Result.t) (l : list Result.t) :
  Permutation (Js.insertSorted bySimilarity x l) (x :: l).
Proof.
  induction l as [|y l IH]; simpl; [reflexivity|].
  destruct (Qle_bool _ _); [reflexivity|].
  rewrite IH. apply perm_swap.
Qed.

Lemma sort_perm (l : list Result.t) : Permutation (Js.sort bySimilarity l) l.
Proof.
  induction l as [|x l IH]; simpl; [reflexivity|].
  rewrite insertSorted_perm. now constructor.
Qed.

Lemma insertSorted_sorted (x : Result.t) (l : list Result.t) :
  StronglySorted descending l ->
  StronglySorted descending (Js.insertSorted bySimilarity x l).
Proof.
  induction 1 as [|y l Hs IH Hy]; simpl.
  - repeat constructor.
  - destruct (Qle_bool (bySimilarity x y) 0) eqn:E.
    + apply bySimilarity_le in E.
      constructor; [now constructor|]. constructor; [exact E|].
      eapply List.Forall_impl; [|exact Hy].
      intros z Hz. unfold descending in *. lra.
    + assert (Hxy : descending y x).
      { apply not_true_iff_false in E. rewrite bySimilarity_le in E.
        unfold descending in *. lra. }
      constructor; [exact IH|].
      eapply Permutation_Forall; [symmetry; apply insertSorted_perm|].
      now constructor.
Qed.

Lemma sort_sorted (l : list Result.t) :
  StronglySorted descending (Js.sort bySimilarity l).
Proof.
  induction l; simpl; [constructor | now apply insertSorted_sorted].
Qed.

Lemma insertSorted_stable (s : Q) (x : Result.t) (l : list Result.t) :
  List.filter (hasScore s) (Js.insertSorted bySimilarity x l)
  = List.filter (hasScore s) (x :: l).
Proof.
  induction l as [|y l IH]; [reflexivity|].
  cbn [Js.insertSorted].
  destruct (Qle_bool (bySimilarity x y) 0) eqn:E; [reflexivity|].
  cbn [List.filter] in *. rewrite IH.
  destruct (hasScore s x) eqn:Hx, (hasScore s y) eqn:Hy; try reflexivity.
  exfalso. unfold hasScore in *.
  apply Qeq_bool_iff in Hx, Hy.
  apply not_true_iff_false in E. apply E, bySimilarity_le.
  unfold descending. lra.
Qed.

Lemma sort_stable (s : Q) (l : list Result.t) :
  List.filter (hasScore s) (Js.sort bySimilarity l) = List.filter (hasScore s) l.
Proof.
  induction l as [|x l IH]; [reflexivity|].
  cbn [Js.sort fold_right]. rewrite insertSorted_stable.
  cbn [List.filter]. fold (Js.sort bySimilarity l). now rewrite IH.
Qed.

Lemma sublist_insertSorted_r (x : Result.t) (l k : list Result.t) :
  l `sublist_of` k -> l `sublist_of` Js.insertSorted bySimilarity x k.
Proof.
  induction 1 as [|y l k H IH|y l k H IH]; simpl.
  - apply sublist_nil_l.
  - destruct (Qle_bool _ _); [now do 2 constructor | now constructor].
  - destruct (Qle_bool _ _); [now do 2 constructor | now constructor].
Qed.

Lemma sublist_insertSorted (x : Result.t) (l k : list Result.t) :
  StronglySorted descending k ->
  l `sublist_of` k ->
  Js.insertSorted bySimilarity x l `sublist_of` Js.insertSorted bySimilarity x k.
Proof.
  intros Hk H. induction H as [|y l k H IH|y l k H IH]; simpl.
  - repeat constructor.
  - inversion Hk; subst.
    destruct (Qle_bool _ _); [now do 2 constructor | constructor; auto].
  - inversion Hk as [|? ? Hk' Hy]; subst.
    destruct (Qle_bool (bySimilarity x y) 0) eqn:E.
    + (* x goes in front of y, hence in front of all of l *)
      apply bySimilarity_le in E.
      destruct l as [|z l]; simpl.
      * constructor. apply sublist_nil_l.
      * assert (Hz : descending x z).
        { assert (Hin : z ∈ k) by (eapply sublist_subseteq; [exact H|left]).
          rewrite Forall_forall in Hy. apply Hy in Hin.
          unfold descending in *. lra. }
        apply bySimilarity_le in Hz. rewrite Hz.
        constructor. now constructor.
    + constructor. auto.
Qed.

Lemma sort_sublist (l k : list Result.t) :
  l `sublist_of` k -> Js.sort bySimilarity l `sublist_of` Js.sort bySimilarity k.
Proof.
  induction 1 as [|x l k H IH|x l k H IH]; simpl.
  - constructor.
  - apply sublist_insertSorted; [apply sort_sorted | exact IH].
  - now apply sublist_insertSorted_r.
Qed.

End Sort.

(** ** The loops of [detectPlagiarism] *)

Section Loops.

Import PlagiarismDetector.

Lemma processFiles_acc self fs filesData acc :
  processFiles self fs filesData acc
  = acc ++ processFiles self fs filesData [].
Proof.
  revert acc. induction filesData as [|f l IH]; intros acc; simpl.
  - now rewrite app_nil_r.
  - destruct (processFile self fs f); [|apply IH].
    rewrite IH, (IH [_]). now rewrite <- app_assoc.
Qed.

Lemma processFiles_length self fs filesData :
  length (processFiles self fs filesData []) <= length filesData.
Proof.
  induction filesData as [|f l IH]; simpl; [lia|].
  destruct (processFile self fs f); [|lia].
  rewrite processFiles_acc, length_app. simpl. lia.
Qed.

Lemma processFile_truthy self fs f p :
  processFile self fs f = Some p ->
  truthy (ProcessedFile.normalized_code p) = true.
Proof.
  unfold processFile. destruct (truthy (trim _)) eqn:E; [|discriminate].
  intros [= <-]. simpl.
  destruct (CodeNormalizer.normalizeCode _ _); [discriminate | reflexivity].
Qed.

Lemma processFile_hash self fs f p :
  processFile self fs f = Some p ->
  ProcessedFile.code_hash p = calculateCodeHash (ProcessedFile.normalized_code p).
Proof.
  unfold processFile. destruct (negb _); [discriminate|]. now intros [= <-].
Qed.

Lemma processFiles_In self fs filesData p :
  In p (processFiles self fs filesData []) ->
  exists f, In f filesData /\ processFile self fs f = Some p.
Proof.
  induction filesData as [|f l IH]; simpl; [tauto|].
  destruct (processFile self fs f) as [q|] eqn:E.
  - rewrite processFiles_acc. simpl. intros [<-|H]; [eauto|].
    destruct (IH H) as (g & Hg & Hp). eauto.
  - intros H. destruct (IH H) as (g & Hg & Hp). eauto.
Qed.

Lemma innerLoop_spec self fileA behind results :
  innerLoop self fileA behind results
  = results ++ flat_map (compared self) (map (pair fileA) behind).
Proof.
  revert results. induction behind as [|b l IH]; intros results; simpl.
  - now rewrite app_nil_r.
  - rewrite IH. unfold compared at 2. simpl. now rewrite <- app_assoc.
Qed.

Lemma outerLoop_spec self files results :
  outerLoop self files results = results ++ flat_map (compared self) (pairs files).
Proof.
  revert results. induction files as [|a l IH]; intros results; simpl.
  - now rewrite app_nil_r.
  - rewrite IH, innerLoop_spec, flat_map_app. now rewrite <- app_assoc.
Qed.

Lemma pairs_short {A} (l : list A) : length l < 2 -> pairs l = [].
Proof. destruct l as [|a [|b l]]; simpl; [reflexivity..|lia]. Qed.

Lemma pairs_In_l {A} (l : list A) a b : In (a, b) (pairs l) -> In a l /\ In b l.
Proof.
  induction l as [|x l IH]; simpl; [tauto|].
  rewrite in_app_iff, in_map_iff. intros [(y & [= <- <-] & Hy)|H]; [tauto|].
  destruct (IH H). tauto.
Qed.

(** The run is the stable sort of the pairs kept. *)
Lemma detectPlagiarism_spec self fs filesData :
  detectPlagiarism self fs filesData
  = Js.sort bySimilarity (discovered self fs filesData).
Proof.
  unfold detectPlagiarism, discovered.
  pose proof (processFiles_length self fs filesData) as Hlen.
  destruct (length filesData <? 2) eqn:E1.
  - apply Nat.ltb_lt in E1. rewrite pairs_short by lia. reflexivity.
  - destruct (length (processFiles self fs filesData []) <? 2) eqn:E2.
    + apply Nat.ltb_lt in E2. now rewrite pairs_short.
    + now rewrite outerLoop_spec.
Qed.

End Loops.

(** ** The score *)

Section Score.

Local Open Scope Q_scope.
Import PlagiarismDetector StringSimilarity.

Lemma compareTwoStrings_nonneg (a b : JsString.t) : 0 <= compareTwoStrings a b.
Proof.
  unfold compareTwoStrings.
  destruct (eqb _ _); [lra|]. destruct (_ || _); [lra|].
  set (n := intersect _ _ _).
  replace (inject_Z (2 * Z.of_nat n)) with (Js.ofNat (2 * n))
    by (unfold Js.ofNat; f_equal; lia).
  apply ratio_nonneg.
Qed.

Lemma calculateSimilarity_range (a b : JsString.t) :
  0 <= calculateSimilarity a b <= 1.
Proof.
  unfold calculateSimilarity. destruct (_ || _); [lra|].
  split; [|apply min_le_r].
  apply min_nonneg; [|lra].
  pose proof (compareTwoStrings_nonneg a b).
  repeat match goal with
         | |- context [if ?c then Js.ofNat ?x / Js.ofNat ?y else 0] =>
             let H := fresh in
             assert (H : 0 <= if c then Js.ofNat x / Js.ofNat y else 0)
               by (destruct c; [apply ratio_nonneg | lra]);
             revert H;
             generalize (if c then Js.ofNat x / Js.ofNat y else 0)
         end.
  intros. lra.
Qed.

Lemma pairSimilarity_range (fileA fileB : ProcessedFile.t) :
  0 <= pairSimilarity fileA fileB <= 1.
Proof.
  unfold pairSimilarity. destruct (eqb _ _); [lra | apply calculateSimilarity_range].
Qed.

(** What a pair contributes: nothing, or one entry with the rounded score. *)
Lemma comparePair_In self fileA fileB r :
  In r (comparePair self fileA fileB) ->
  threshold self <= pairSimilarity fileA fileB /\
  Result.similarity r = Js.round (pairSimilarity fileA fileB * 100 * 100) / 100 /\
  Result.fileA_id r = ProcessedFile.file_id fileA /\
  Result.fileB_id r = ProcessedFile.file_id fileB.
Proof.
  unfold comparePair. destruct (Js.geb _ _) eqn:E; [|intros []].
  apply geb_spec in E. intros [<-|[]]. simpl. auto.
Qed.

Lemma comparePair_kept self fileA fileB :
  threshold self <= pairSimilarity fileA fileB ->
  exists r, comparePair self fileA fileB = [r].
Proof.
  intros H. apply geb_spec in H. unfold comparePair. rewrite H. eauto.
Qed.

Lemma comparePair_dropped self fileA fileB :
  pairSimilarity fileA fileB < threshold self -> comparePair self fileA fileB = [].
Proof.
  intros H. unfold comparePair.
  destruct (Js.geb _ _) eqn:E; [|reflexivity]. apply geb_spec in E. lra.
Qed.

(** Every entry a pair contributes is in the run. *)
Lemma comparePair_reported self fs filesData fileA fileB r :
  In (fileA, fileB) (pairs (processFiles self fs filesData [])) ->
  In r (comparePair self fileA fileB) ->
  In r (detectPlagiarism self fs filesData).
Proof.
  intros Hp Hr. rewrite detectPlagiarism_spec.
  eapply Permutation_in; [symmetry; apply sort_perm|].
  unfold discovered. apply in_flat_map. exists (fileA, fileB). auto.
Qed.

End Score.

(** ** The score against its specification *)

Section Refinement.

Local Open Scope Q_scope.
Import PlagiarismDetector.

Lemma fold_setAdd_elem (l acc : list JsString.t) (x : JsString.t) :
  x ∈ fold_left Js.setAdd l acc <-> x ∈ acc \/ x ∈ l.
Proof.
  revert acc. induction l as [|y l IH]; intros acc; simpl.
  - rewrite elem_of_nil. tauto.
  - rewrite IH, elem_of_cons. unfold Js.setAdd, Js.setHas.
    case_bool_decide as Hy.
    + split; [tauto|]. intros [?|[->|?]]; auto.
    + rewrite elem_of_app, list_elem_of_singleton. tauto.
Qed.

Lemma fold_setAdd_NoDup (l acc : list JsString.t) :
  NoDup acc -> NoDup (fold_left Js.setAdd l acc).
Proof.
  revert acc. induction l as [|y l IH]; intros acc Hacc; simpl; [exact Hacc|].
  apply IH. unfold Js.setAdd, Js.setHas. case_bool_decide as Hy; [exact Hacc|].
  apply NoDup_app. split; [exact Hacc|]. split.
  - intros x Hx ->%list_elem_of_singleton. contradiction.
  - apply NoDup_singleton.
Qed.

Lemma newSet_elem (l : list JsString.t) (x : JsString.t) : x ∈ Js.newSet l <-> x ∈ l.
Proof. unfold Js.newSet. rewrite fold_setAdd_elem, elem_of_nil. tauto. Qed.

Lemma newSet_NoDup (l : list JsString.t) : NoDup (Js.newSet l).
Proof. apply fold_setAdd_NoDup, NoDup_nil_2. Qed.

(** The size of a [Set] is the cardinality of the set of its elements. *)
Lemma newSet_size (l : list JsString.t) (X : gset JsString.t) :
  (forall x, x ∈ l <-> x ∈ X) -> length (Js.newSet l) = size X.
Proof.
  intros H. rewrite <- (size_list_to_set (C := gset JsString.t));
    [|apply newSet_NoDup].
  f_equal. apply set_eq. intros x.
  now rewrite elem_of_list_to_set, newSet_elem.
Qed.

Lemma intersection_size (t1 t2 : list JsString.t) :
  length (Js.newSet (List.filter (Js.setHas (Js.newSet t2)) (Js.newSet t1)))
  = size ((list_to_set t1 : gset JsString.t) ∩ list_to_set t2).
Proof.
  apply newSet_size. intros x.
  rewrite elem_of_intersection, !elem_of_list_to_set.
  rewrite list_elem_of_In, filter_In, <- list_elem_of_In.
  unfold Js.setHas. rewrite bool_decide_eq_true, !newSet_elem. tauto.
Qed.

Lemma union_size (t1 t2 : list JsString.t) :
  length (Js.newSet (Js.newSet t1 ++ Js.newSet t2))
  = size ((list_to_set t1 : gset JsString.t) ∪ list_to_set t2).
Proof.
  apply newSet_size. intros x.
  now rewrite elem_of_union, !elem_of_list_to_set, elem_of_app, !newSet_elem.
Qed.

Lemma lineHasMatch_covered (line : JsString.t) (b : JsString.t) :
  lineHasMatch line (nonBlankLines b) = Spec.covered b line.
Proof.
  unfold Spec.covered, Spec.dice.
  induction (nonBlankLines b) as [|l ls IH]; simpl; [reflexivity|].
  destruct (Js.gtb _ _); [reflexivity | exact IH].
Qed.

Lemma countMatchingLines_spec (lines1 : list JsString.t) (b : JsString.t) (n : nat) :
  countMatchingLines lines1 (nonBlankLines b) n
  = (n + length (List.filter (Spec.covered b) lines1))%nat.
Proof.
  revert n. induction lines1 as [|l ls IH]; intros n; simpl; [lia|].
  rewrite IH, lineHasMatch_covered. destruct (Spec.covered b l); simpl; lia.
Qed.

(** The three signals of the code are the three signals of the
    specification, and the code returns their blend, cut at 1. *)
Lemma calculateSimilarity_blend (a b : JsString.t) :
  truthy a = true -> truthy b = true ->
  calculateSimilarity a b = Js.min (Spec.dice a b * 0.4 + Spec.jaccard a b * 0.3
                                    + Spec.coverage a b * 0.3) 1.
Proof.
  intros Ha Hb. unfold calculateSimilarity. rewrite Ha, Hb. simpl.
  rewrite intersection_size, union_size, countMatchingLines_spec.
  unfold Spec.jaccard, Spec.coverage, Spec.tokenSet, Spec.dice.
  destruct (size (_ ∪ _)) as [|n]; destruct (Nat.max _ _) as [|m]; reflexivity.
Qed.

Lemma jaccard_nonneg (a b : JsString.t) : 0 <= Spec.jaccard a b.
Proof.
  unfold Spec.jaccard. destruct (size _); [lra | apply ratio_nonneg].
Qed.

Lemma coverage_nonneg (a b : JsString.t) : 0 <= Spec.coverage a b.
Proof.
  unfold Spec.coverage. destruct (Nat.max _ _); [lra | apply ratio_nonneg].
Qed.

End Refinement.

(** ** The claims on the score *)

Section ScoreClaims.

Local Open Scope Q_scope.
Import PlagiarismDetector.

(** C2. Two processed submissions with the same fingerprint, as those with
    the same normalized text have, score 1 by the duplicate check alone;
    the entry of the pair reports 100, and the pair is part of the run for
    every threshold up to 1. *)
Theorem C2_fingerprint_short_circuit
        (self : PlagiarismDetector.t) (fs : NotebookParser.fileSystem)
        (filesData : list FileData.t) (fileA fileB : ProcessedFile.t) :
  In (fileA, fileB) (pairs (processFiles self fs filesData [])) ->
  ProcessedFile.code_hash fileA = ProcessedFile.code_hash fileB
  \/ ProcessedFile.normalized_code fileA = ProcessedFile.normalized_code fileB ->
  pairSimilarity fileA fileB = 1
  /\ (forall r, In r (comparePair self fileA fileB) -> Result.similarity r == 100)
  /\ (threshold self <= 1 ->
      exists r, In r (detectPlagiarism self fs filesData)
                /\ Result.fileA_id r = ProcessedFile.file_id fileA
                /\ Result.fileB_id r = ProcessedFile.file_id fileB
                /\ Result.similarity r == 100).
Proof.
  intros Hp Hsame.
  assert (Hh : ProcessedFile.code_hash fileA = ProcessedFile.code_hash fileB).
  { destruct Hsame as [H|H]; [exact H|].
    destruct (pairs_In_l _ _ _ Hp) as [HA HB].
    apply processFiles_In in HA as (fa & _ & HA).
    apply processFiles_In in HB as (fb & _ & HB).
    rewrite (processFile_hash _ _ _ _ HA), (processFile_hash _ _ _ _ HB).
    now rewrite H. }
  assert (Hs : pairSimilarity fileA fileB = 1).
  { unfold pairSimilarity, eqb. now rewrite bool_decide_eq_true_2. }
  assert (Hr : forall r, In r (comparePair self fileA fileB) ->
                         Result.similarity r == 100).
  { intros r (_ & -> & _)%comparePair_In. rewrite Hs. reflexivity. }
  split; [exact Hs|]. split; [exact Hr|].
  intros Ht. destruct (comparePair_kept self fileA fileB) as [r Hc].
  { rewrite Hs. exact Ht. }
  assert (Hin : In r (comparePair self fileA fileB)) by (rewrite Hc; now left).
  exists r. split; [eapply comparePair_reported; eassumption|].
  destruct (comparePair_In _ _ _ _ Hin) as (_ & _ & Ha & Hb). auto.
Qed.

(** C10. [calculateSimilarity] returns 0 as soon as one of its arguments is
    the empty string; the empty text against itself scores 0, not 1. *)
Theorem C10_empty_text_scores_zero (code : JsString.t) :
  calculateSimilarity [] code = 0
  /\ calculateSimilarity code [] = 0
  /\ calculateSimilarity [] [] = 0
  /\ ~ calculateSimilarity [] [] == 1.
Proof.
  repeat split; try reflexivity.
  - unfold calculateSimilarity. now destruct code.
  - discriminate.
Qed.

End ScoreClaims.

Lemma C2_fingerprint_short_circuit_witness :
let fileA := Examples.processed "a" in
let fileB := Examples.processed "b" in
let self := Examples.detector 0.5 in
PlagiarismDetector.pairSimilarity fileA fileB = 1%Q
/\ (forall r, In r (PlagiarismDetector.comparePair self fileA fileB) ->
              (Result.similarity r == 100)%Q)
/\ ((PlagiarismDetector.threshold self <= 1)%Q ->
    exists r, In r (PlagiarismDetector.detectPlagiarism self Examples.disk Examples.batch)
              /\ Result.fileA_id r = ProcessedFile.file_id fileA
              /\ Result.fileB_id r = ProcessedFile.file_id fileB
              /\ (Result.similarity r == 100)%Q).
Proof.
apply (C2_fingerprint_short_circuit (Examples.detector 0.5) Examples.disk
         Examples.batch (Examples.processed "a") (Examples.processed "b")).
- vm_compute. left. reflexivity.
- left. vm_compute. reflexivity.
Defined.

(** ** The claims on the run *)

Section RunClaims.

Local Open Scope Q_scope.
Import PlagiarismDetector.

Lemma processFiles_threshold (t1 t2 : Q) (vars : bool) fs filesData acc :
  processFiles (PlagiarismDetector.mk t1 vars) fs filesData acc
  = processFiles (PlagiarismDetector.mk t2 vars) fs filesData acc.
Proof.
  revert acc. induction filesData as [|f l IH]; intros acc; simpl; [reflexivity|].
  change (processFile (PlagiarismDetector.mk t1 vars) fs f)
    with (processFile (PlagiarismDetector.mk t2 vars) fs f).
  destruct (processFile _ fs f); apply IH.
Qed.

Lemma comparePair_monotone (self1 self2 : PlagiarismDetector.t) fileA fileB :
  threshold self1 <= threshold self2 ->
  comparePair self2 fileA fileB `sublist_of` comparePair self1 fileA fileB.
Proof.
  intros Ht. unfold comparePair.
  destruct (Js.geb _ (threshold self2)) eqn:E2; [|apply sublist_nil_l].
  apply geb_spec in E2.
  assert (E1 : Js.geb (pairSimilarity fileA fileB) (threshold self1) = true)
    by (apply geb_spec; lra).
  rewrite E1. reflexivity.
Qed.

Lemma discovered_monotone (t1 t2 : Q) (vars : bool) fs filesData :
  t1 <= t2 ->
  discovered (PlagiarismDetector.mk t2 vars) fs filesData
  `sublist_of` discovered (PlagiarismDetector.mk t1 vars) fs filesData.
Proof.
  intros Ht. unfold discovered.
  rewrite (processFiles_threshold t2 t1).
  induction (pairs _) as [|p ps IH]; simpl; [constructor|].
  apply sublist_app; [|exact IH]. now apply comparePair_monotone.
Qed.

(** C6. For one batch, one disk and two thresholds [t1 <= t2], the run at
    [t2] is a subsequence of the run at [t1]: every entry of the first is an
    entry of the second, and it has at most as many entries. *)
Theorem C6_threshold_monotone
        (t1 t2 : Q) (vars : bool) (fs : NotebookParser.fileSystem)
        (filesData : list FileData.t) :
  t1 <= t2 ->
  let run t := detectPlagiarism (PlagiarismDetector.mk t vars) fs filesData in
  run t2 `sublist_of` run t1
  /\ (forall r, In r (run t2) -> In r (run t1))
  /\ (length (run t2) <= length (run t1))%nat.
Proof.
  intros Ht run.
  assert (Hsub : run t2 `sublist_of` run t1).
  { unfold run. rewrite !detectPlagiarism_spec.
    now apply sort_sublist, discovered_monotone. }
  split; [exact Hsub|]. split.
  - intros r Hr. apply list_elem_of_In. eapply sublist_subseteq; [exact Hsub|].
    now apply list_elem_of_In.
  - now apply sublist_length.
Qed.

(** C7. The run is the list of the pairs kept, sorted by descending score;
    entries of equal score stay in discovery order, the order of the pairs
    [(i, j)], [i < j]. Entries scoring 90, 70, 95 in that order come out as
    95, 90, 70, and of two entries scoring 90 the first stays first. *)
Theorem C7_sorted_by_descending_score
        (self : PlagiarismDetector.t) (fs : NotebookParser.fileSystem)
        (filesData : list FileData.t) :
  let run := detectPlagiarism self fs filesData in
  StronglySorted descending run
  /\ Permutation run (discovered self fs filesData)
  /\ (forall s, List.filter (hasScore s) run
                = List.filter (hasScore s) (discovered self fs filesData))
  /\ Js.sort bySimilarity
       [Samples.entry "p" 90; Samples.entry "q" 70; Samples.entry "r" 95]
     = [Samples.entry "r" 95; Samples.entry "p" 90; Samples.entry "q" 70]
  /\ Js.sort bySimilarity
       [Samples.entry "p" 90; Samples.entry "q" 70; Samples.entry "r" 90]
     = [Samples.entry "p" 90; Samples.entry "r" 90; Samples.entry "q" 70].
Proof.
  intros run. unfold run. rewrite detectPlagiarism_spec.
  split; [apply sort_sorted|]. split; [apply sort_perm|].
  split; [intros s; apply sort_stable|]. split; reflexivity.
Qed.

End RunClaims.

Lemma C6_threshold_monotone_witness :
  let run t := PlagiarismDetector.detectPlagiarism
                 (PlagiarismDetector.mk t true) Examples.disk Examples.batch in
  run 0.5%Q `sublist_of` run 0.1%Q
  /\ (forall r, In r (run 0.5%Q) -> In r (run 0.1%Q))
  /\ length (run 0.5%Q) <= length (run 0.1%Q).
Proof.
  apply (C6_threshold_monotone 0.1 0.5 true Examples.disk Examples.batch).
  vm_compute. discriminate.
Defined.

(** ** The line matcher *)

Section LineMatcher.

Import PlagiarismDetector.

(** The loop never goes beyond [maxMatches] entries. *)
Lemma matchLoop_length maxMatches lines2 line2Set rest i matches :
  length (matchLoop maxMatches lines2 line2Set rest i matches)
  <= Nat.max maxMatches (length matches).
Proof.
  revert i matches. induction rest as [|line1 rest IH]; intros i matches; simpl.
  - lia.
  - destruct (length matches <? maxMatches) eqn:E; [|lia].
    apply Nat.ltb_lt in E.
    assert (Hpush : forall m, Nat.max maxMatches (length (matches ++ [m]))
                              <= Nat.max maxMatches (length matches)).
    { intros m. rewrite length_app. simpl. lia. }
    destruct (line2Set !! line1) as [indices|].
    + etransitivity; [apply IH | apply Hpush].
    + destruct (_ && _); [|apply IH].
      destruct (findSimilar i line1 lines2 0) as [m|]; [|apply IH].
      etransitivity; [apply IH | apply Hpush].
Qed.

(** The lookup table has an entry for exactly the lines of the second text. *)
Lemma indexLines_lookup lines2 index line2Set line :
  is_Some (indexLines lines2 index line2Set !! line)
  <-> is_Some (line2Set !! line) \/ In line lines2.
Proof.
  revert index line2Set. induction lines2 as [|l ls IH]; intros index m; simpl.
  - tauto.
  - rewrite IH. rewrite lookup_alter_is_Some.
    destruct (decide (l = line)) as [->|Hne].
    + destruct (m !! line) eqn:E.
      * rewrite E. split; [intros _; left; eauto | intros _; left; eauto].
      * rewrite lookup_insert_eq. split; [intros _; right; now left|].
        intros _. left. eauto.
    + destruct (m !! l) eqn:E.
      * split; [intros [?|?]; auto | intros [?|[?|?]]; auto; contradiction].
      * rewrite lookup_insert_ne by exact Hne.
        split; [intros [?|?]; auto | intros [?|[?|?]]; auto; contradiction].
Qed.

(** When every remaining line of the first text is in the table, each one
    adds an entry until the cap is reached. *)
Lemma matchLoop_exact maxMatches lines2 line2Set rest i matches :
  (forall line, In line rest -> is_Some (line2Set !! line)) ->
  length matches <= maxMatches ->
  length (matchLoop maxMatches lines2 line2Set rest i matches)
  = Nat.min maxMatches (length matches + length rest).
Proof.
  revert i matches. induction rest as [|line1 rest IH]; intros i matches Hin Hle; simpl.
  - lia.
  - destruct (length matches <? maxMatches) eqn:E.
    + apply Nat.ltb_lt in E.
      destruct (Hin line1) as [indices Hl]; [now left|]. rewrite Hl.
      rewrite IH.
      * rewrite length_app. simpl. lia.
      * intros line Hline. apply Hin. now right.
      * rewrite length_app. simpl. lia.
    + apply Nat.ltb_ge in E. lia.
Qed.

(** C8. [findMatchingLines] returns at most [maxMatches] entries, 20 by
    default and in the call of [detectPlagiarism]; when every non-blank line
    of the first text is a line of the second one, it returns one entry per
    line up to 20; two texts of the same fifty lines give exactly 20. *)
Theorem C8_line_match_cap :
  (forall code1 code2 maxMatches,
      length (findMatchingLines code1 code2 maxMatches) <= default 20 maxMatches)
  /\ (forall code1 code2,
         (forall line, In line (trimmedLines code1) -> In line (trimmedLines code2)) ->
         length (findMatchingLines code1 code2 (Some 20))
         = Nat.min 20 (length (trimmedLines code1)))
  /\ length (trimmedLines Samples.fiftyLines) = 50
  /\ length (findMatchingLines Samples.fiftyLines Samples.fiftyLines (Some 20)) = 20.
Proof.
  split; [|split; [|split]].
  - intros code1 code2 maxMatches. unfold findMatchingLines.
    etransitivity; [apply matchLoop_length|]. simpl. lia.
  - intros code1 code2 Hin. unfold findMatchingLines.
    rewrite matchLoop_exact; simpl; [reflexivity| |lia].
    intros line Hline. apply indexLines_lookup. right. now apply Hin.
  - vm_compute. reflexivity.
  - vm_compute. reflexivity.
Qed.

End LineMatcher.

(** ** The route *)

Section Route.

Local Open Scope Q_scope.
Import PlagiarismDetector.

Lemma firstn_short {A} (n : nat) (l : list A) :
  (length (firstn n l) <? 2) = (length l <? 2) \/ (n < 2)%nat.
Proof.
  destruct (Nat.lt_ge_cases n 2) as [H|H]; [now right|left].
  rewrite length_firstn.
  destruct (length l <? 2) eqn:E.
  - apply Nat.ltb_lt in E. apply Nat.ltb_lt. lia.
  - apply Nat.ltb_ge in E. apply Nat.ltb_ge. lia.
Qed.

(** With fewer than two stored files the route answers 400 and saves
    nothing; otherwise it answers with the run of the detector and saves it. *)
Lemma analyze_spec (e : Server.env) (threshold : option Q) (d : Server.db) :
  let t := default 0.5 threshold in
  let run :=
    let results :=
      detectPlagiarism (PlagiarismDetector.mk t true) (Server.fs e)
        (map Server.toFileData (firstn 100 (firstn 300 (Server.files d)))) in
    {| AnalysisResult.id := Server.uuidv4 e;
       AnalysisResult.analysis_timestamp := Server.now e;
       AnalysisResult.threshold := t;
       AnalysisResult.results := results;
       AnalysisResult.total_files := length (firstn 100 (firstn 300 (Server.files d)));
       AnalysisResult.total_matches := length results |} in
  Server.analyze e threshold d
  = if length (Server.files d) <? 2
    then (Server.Status 400 (str "At least 2 files are required for analysis"), d)
    else (Server.Json run, persisted d run).
Proof.
  intros t run. unfold Server.analyze.
  destruct (firstn_short 300 (Server.files d)) as [->|H]; [|lia].
  destruct (length (Server.files d) <? 2); reflexivity.
Qed.

Lemma usable_threshold (e : Server.env) (d : Server.db) (t : Q) :
  processFiles (PlagiarismDetector.mk t true) (Server.fs e)
    (map Server.toFileData (firstn 100 (firstn 300 (Server.files d)))) []
  = usable e d.
Proof. unfold usable, PlagiarismDetector.new. apply processFiles_threshold. Qed.

Lemma discovered_nil self fs filesData :
  (forall fileA fileB, comparePair self fileA fileB = []) ->
  discovered self fs filesData = [].
Proof.
  intros H. unfold discovered.
  induction (pairs _) as [|[a b] ps IH]; simpl; [reflexivity|].
  unfold compared at 1. simpl. now rewrite H.
Qed.

Lemma discovered_all self fs filesData :
  (forall fileA fileB, exists r, comparePair self fileA fileB = [r]) ->
  length (discovered self fs filesData)
  = length (pairs (processFiles self fs filesData [])).
Proof.
  intros H. unfold discovered.
  induction (pairs _) as [|[a b] ps IH]; simpl; [reflexivity|].
  unfold compared at 1. simpl. destruct (H a b) as [r ->]. simpl. now rewrite IH.
Qed.

(** C4, as the code has it. With fewer than two usable submissions the route
    fails only when fewer than two files are stored: it answers 400 and saves
    nothing. With two stored files or more it answers with a run without
    entries and saves that run. *)
Theorem C4_degenerate_batch
        (e : Server.env) (threshold : option Q) (d : Server.db) :
  (length (usable e d) < 2)%nat ->
  ((length (Server.files d) < 2)%nat ->
   Server.analyze e threshold d
   = (Server.Status 400 (str "At least 2 files are required for analysis"), d))
  /\ ((2 <= length (Server.files d))%nat ->
      exists run,
        Server.analyze e threshold d = (Server.Json run, persisted d run)
        /\ AnalysisResult.results run = []
        /\ AnalysisResult.total_matches run = 0%nat).
Proof.
  intros Hu. rewrite analyze_spec. split; intros Hn.
  - apply Nat.ltb_lt in Hn. now rewrite Hn.
  - apply Nat.ltb_ge in Hn. rewrite Hn. eexists. split; [reflexivity|].
    simpl. rewrite detectPlagiarism_spec. unfold discovered.
    rewrite usable_threshold, pairs_short by exact Hu. auto.
Qed.

(** C5, as the code has it. The threshold is not checked: whatever its value
    (0.5 when the request has none), a request over two stored files or more
    is answered with a run that records the threshold and is saved. The run
    is the one of the detector at that threshold: it has no entry when the
    threshold is above 1, and one entry per pair of usable submissions when
    the threshold is 0 or less. *)
Theorem C5_threshold_unchecked
        (e : Server.env) (threshold : option Q) (d : Server.db) :
  (2 <= length (Server.files d))%nat ->
  let t := default 0.5 threshold in
  exists run,
    Server.analyze e threshold d = (Server.Json run, persisted d run)
    /\ AnalysisResult.threshold run = t
    /\ AnalysisResult.results run
       = detectPlagiarism (PlagiarismDetector.mk t true) (Server.fs e)
           (map Server.toFileData (firstn 100 (firstn 300 (Server.files d))))
    /\ (1 < t -> AnalysisResult.results run = [])
    /\ (t <= 0 -> length (AnalysisResult.results run) = length (pairs (usable e d))).
Proof.
  intros Hn t. rewrite analyze_spec. apply Nat.ltb_ge in Hn. rewrite Hn.
  eexists. split; [reflexivity|]. split; [reflexivity|]. split; [reflexivity|].
  simpl. rewrite detectPlagiarism_spec. split; intros Ht.
  - rewrite discovered_nil; [reflexivity|].
    intros fileA fileB. apply comparePair_dropped.
    pose proof (pairSimilarity_range fileA fileB). simpl. fold t. lra.
  - rewrite (Permutation_length (sort_perm _)), discovered_all.
    + now rewrite usable_threshold.
    + intros fileA fileB. apply comparePair_kept.
      pose proof (pairSimilarity_range fileA fileB). simpl. fold t. lra.
Qed.

End Route.

Lemma C4_counterexample :
  (length (usable Requests.env Requests.unusable) < 2)%nat
  /\ ~ isError (fst (Server.analyze Requests.env None Requests.unusable))
  /\ length (Server.analysis_results
               (snd (Server.analyze Requests.env None Requests.unusable))) = 1%nat.
Proof. vm_compute. split; [lia|]. split; [tauto | reflexivity]. Qed.

Lemma C4_degenerate_batch_witness :
  ((length (Server.files Requests.unusable) < 2)%nat ->
   Server.analyze Requests.env None Requests.unusable
   = (Server.Status 400 (str "At least 2 files are required for analysis"),
      Requests.unusable))
  /\ ((2 <= length (Server.files Requests.unusable))%nat ->
      exists run,
        Server.analyze Requests.env None Requests.unusable
        = (Server.Json run, persisted Requests.unusable run)
        /\ AnalysisResult.results run = []
        /\ AnalysisResult.total_matches run = 0%nat).
Proof.
  apply (C4_degenerate_batch Requests.env None Requests.unusable).
  vm_compute. lia.
Defined.

Lemma C5_counterexample :
  ~ (0 < 2 <= 1)%Q
  /\ ~ isError (fst (Server.analyze Requests.env (Some 2%Q) Requests.stored))
  /\ length (Server.analysis_results
               (snd (Server.analyze Requests.env (Some 2%Q) Requests.stored))) = 1%nat.
Proof.
  split; [intros [_ H]; vm_compute in H; now apply H|].
  vm_compute. split; [tauto | reflexivity].
Qed.

Lemma C5_threshold_unchecked_witness :
  let t := default 0.5%Q (Some 2%Q) in
  exists run,
    Server.analyze Requests.env (Some 2%Q) Requests.stored
    = (Server.Json run, persisted Requests.stored run)
    /\ AnalysisResult.threshold run = t
    /\ AnalysisResult.results run
       = PlagiarismDetector.detectPlagiarism
           (PlagiarismDetector.mk t true) (Server.fs Requests.env)
           (map Server.toFileData (firstn 100 (firstn 300 (Server.files Requests.stored))))
    /\ ((1 < t)%Q -> AnalysisResult.results run = [])
    /\ ((t <= 0)%Q -> length (AnalysisResult.results run)
                      = length (pairs (usable Requests.env Requests.stored))).
Proof.
  apply (C5_threshold_unchecked Requests.env (Some 2%Q) Requests.stored).
  vm_compute. lia.
Defined.

(** ** Symmetry of the signals *)

Section Symmetry.

Local Open Scope Q_scope.
Import PlagiarismDetector StringSimilarity.

Lemma holds_empty : holds ∅ ∅.
Proof. intros b. unfold countOf. now rewrite lookup_empty, multiplicity_empty. Qed.

Lemma fillBigrams_holds bs m X :
  holds m X -> holds (fillBigrams bs m) (X ⊎ list_to_set_disj bs).
Proof.
  revert m X. induction bs as [|b bs IH]; intros m X H; simpl.
  - intros x. rewrite H, multiplicity_disj_union, multiplicity_empty. lia.
  - replace (X ⊎ ({[+ b +]} ⊎ list_to_set_disj bs))
      with ((X ⊎ {[+ b +]}) ⊎ list_to_set_disj bs) by multiset_solver.
    apply IH. intros x. unfold countOf.
    rewrite multiplicity_disj_union, multiplicity_singleton, <- H.
    destruct (decide (x = b)) as [->|Hne].
    + rewrite lookup_insert_eq. unfold countOf. destruct (m !! b); lia.
    + rewrite lookup_insert_ne by congruence. unfold countOf. lia.
Qed.

Lemma intersect_size bs m X n :
  holds m X ->
  intersect bs m n = (n + size (X ∩ list_to_set_disj bs))%nat.
Proof.
  revert m X n. induction bs as [|b bs IH]; intros m X n H; simpl.
  - replace (X ∩ ∅) with (∅ : gmultiset JsString.t) by multiset_solver.
    rewrite gmultiset_size_empty. lia.
  - destruct (0 <? countOf m b) eqn:E.
    + apply Nat.ltb_lt in E.
      rewrite (IH _ (X ∖ {[+ b +]})).
      * replace (X ∩ ({[+ b +]} ⊎ list_to_set_disj bs))
          with ({[+ b +]} ⊎ ((X ∖ {[+ b +]}) ∩ list_to_set_disj bs)).
        -- rewrite gmultiset_size_disj_union, gmultiset_size_singleton. lia.
        -- rewrite H in E. multiset_solver.
      * intros x. unfold countOf.
        rewrite multiplicity_difference, multiplicity_singleton, <- !H.
        destruct (decide (x = b)) as [->|Hne].
        -- now rewrite lookup_insert_eq.
        -- rewrite lookup_insert_ne by congruence. unfold countOf. lia.
    + apply Nat.ltb_ge in E. rewrite (IH _ X) by exact H.
      replace (X ∩ ({[+ b +]} ⊎ list_to_set_disj bs))
        with (X ∩ list_to_set_disj bs); [reflexivity|].
      rewrite H in E. multiset_solver.
Qed.

(** The count of the library is the size of the common part of the two
    multisets of bigrams. *)
Lemma intersect_bigrams (s1 s2 : JsString.t) :
  intersect (bigrams s2) (fillBigrams (bigrams s1) ∅) 0
  = size (bigramBag s1 ∩ bigramBag s2).
Proof.
  rewrite (intersect_size _ _ (bigramBag s1)); [reflexivity|].
  unfold bigramBag.
  replace (list_to_set_disj (bigrams s1))
    with ((∅ : gmultiset JsString.t) ⊎ list_to_set_disj (bigrams s1))
    by multiset_solver.
  apply fillBigrams_holds, holds_empty.
Qed.

Lemma compareTwoStrings_sym (a b : JsString.t) :
  compareTwoStrings a b = compareTwoStrings b a.
Proof.
  unfold compareTwoStrings.
  set (a' := List.filter _ a). set (b' := List.filter _ b).
  unfold eqb. destruct (decide (a' = b')) as [E|E].
  - rewrite !bool_decide_eq_true_2; auto.
  - rewrite !bool_decide_eq_false_2; auto.
    rewrite (orb_comm (length b' <? 2)).
    destruct (_ || _); [reflexivity|].
    rewrite !intersect_bigrams, (comm_L (∩) (bigramBag b')).
    now rewrite (Nat.add_comm (length b')).
Qed.

Lemma jaccard_sym (a b : JsString.t) : Spec.jaccard a b = Spec.jaccard b a.
Proof.
  unfold Spec.jaccard.
  now rewrite (comm_L (∪) (Spec.tokenSet b)), (comm_L (∩) (Spec.tokenSet b)).
Qed.

(** C3, as the code has it. The character and the token signal are
    symmetric. The line signal counts the lines of the first text that have a
    similar line in the second one, so the score of (A, B) is the score of
    (B, A) when the two counts agree. *)
Theorem C3_symmetric_signals (a b : JsString.t) :
  compareTwoStrings a b = compareTwoStrings b a
  /\ Spec.jaccard a b = Spec.jaccard b a
  /\ (countMatchingLines (nonBlankLines a) (nonBlankLines b) 0
      = countMatchingLines (nonBlankLines b) (nonBlankLines a) 0 ->
      calculateSimilarity a b = calculateSimilarity b a).
Proof.
  split; [apply compareTwoStrings_sym|]. split; [apply jaccard_sym|].
  rewrite !countMatchingLines_spec. simpl. intros Hc.
  destruct (truthy a) eqn:Ha, (truthy b) eqn:Hb;
    try (unfold calculateSimilarity; rewrite Ha, Hb; reflexivity).
  rewrite !calculateSimilarity_blend by assumption.
  unfold Spec.dice. rewrite (compareTwoStrings_sym b a), (jaccard_sym b a).
  unfold Spec.coverage. now rewrite Hc, (Nat.max_comm (length (nonBlankLines b))).
Qed.

End Symmetry.

Lemma C3_counterexample :
  ~ (PlagiarismDetector.calculateSimilarity
       (str "var0 = 1
var0 = 1") (str "var0 = 1
var1 = 2")
     == PlagiarismDetector.calculateSimilarity
          (str "var0 = 1
var1 = 2") (str "var0 = 1
var0 = 1"))%Q.
Proof. vm_compute. discriminate. Qed.

Lemma C3_symmetric_signals_witness :
  PlagiarismDetector.calculateSimilarity
    (str "var0 = 1
var1 = 2") (str "var0 = 3
var1 = 2")
  = PlagiarismDetector.calculateSimilarity
      (str "var0 = 3
var1 = 2") (str "var0 = 1
var1 = 2").
Proof.
  apply (C3_symmetric_signals (str "var0 = 1
var1 = 2") (str "var0 = 3
var1 = 2")).
  vm_compute. reflexivity.
Defined.

(** ** Normalization *)

Section Normalization.

Import CodeNormalizer Canonical.

(** *** Comment stripping *)

Lemma stripLineComments_no_hash (inComment : bool) (s : JsString.t) :
  ~ In "#"%char (stripLineComments inComment s).
Proof.
  revert inComment. induction s as [|c r IH]; intros inComment; simpl; [tauto|].
  destruct (isLineTerminator c) eqn:E.
  - intros [->|H]; [discriminate | now apply IH in H].
  - destruct inComment; [apply IH|].
    destruct (Ascii.eqb c "#") eqn:Ec; [apply IH|].
    intros [->|H]; [discriminate | now apply IH in H].
Qed.

Lemma stripLineComments_id (s : JsString.t) :
  ~ In "#"%char s -> stripLineComments false s = s.
Proof.
  induction s as [|c r IH]; simpl; [reflexivity|]. intros H.
  rewrite IH by tauto.
  destruct (isLineTerminator c); [reflexivity|].
  destruct (Ascii.eqb_spec c "#"); [subst; tauto | reflexivity].
Qed.

Lemma stripBlocks_In_bounded (d : ascii) (n : nat) :
  forall (s : JsString.t) (inside : bool) (x : ascii),
    length s <= n -> In x (stripBlocks d inside s) -> In x s.
Proof.
  induction n as [|n IH]; intros s inside x Hn.
  - destruct s; [simpl; tauto | simpl in Hn; lia].
  - destruct s as [|c1 r]; [simpl; tauto|]. simpl in Hn.
    assert (Hstep : In x (if inside then stripBlocks d true r
                          else c1 :: stripBlocks d false r) -> In x (c1 :: r)).
    { destruct inside; [intros H; right; apply (IH r true); [lia | exact H]|].
      intros [->|H]; [now left | right; apply (IH r false); [lia | exact H]]. }
    cbn [stripBlocks].
    destruct r as [|c2 [|c3 r3]]; try exact Hstep.
    destruct (_ && _); [|exact Hstep].
    simpl in Hn.
    destruct inside.
    + intros H. do 3 right. apply (IH r3 false); [lia | exact H].
    + destruct (hasDelim d r3); [|exact Hstep].
      intros H. do 3 right. apply (IH r3 true); [lia | exact H].
Qed.

Lemma stripBlocks_In (d : ascii) (inside : bool) (s : JsString.t) (x : ascii) :
  In x (stripBlocks d inside s) -> In x s.
Proof. apply (stripBlocks_In_bounded d (length s)). lia. Qed.

Lemma stripBlocks_id (d : ascii) (s : JsString.t) :
  hasDelim d s = false -> stripBlocks d false s = s.
Proof.
  induction s as [|c1 r IH]; [reflexivity|].
  cbn [stripBlocks hasDelim].
  destruct r as [|c2 [|c3 r3]].
  - reflexivity.
  - reflexivity.
  - intros [H1 H2]%orb_false_elim. rewrite H1, IH by exact H2. reflexivity.
Qed.

Lemma removeComments_no_hash (code : JsString.t) :
  ~ In "#"%char (removeComments code).
Proof.
  unfold removeComments. intros H.
  do 2 apply stripBlocks_In in H. now apply stripLineComments_no_hash in H.
Qed.

Lemma removeComments_id (s : JsString.t) :
  ~ In "#"%char s -> delimiterFree s = true -> removeComments s = s.
Proof.
  intros Hh [H1 H2]%andb_prop. apply negb_true_iff in H1, H2.
  unfold removeComments.
  rewrite stripLineComments_id by exact Hh.
  rewrite (stripBlocks_id "034" s) by exact H1. now apply stripBlocks_id.
Qed.

End Normalization.

(** ** Lines and white space *)

Section Whitespace.

Import CodeNormalizer Canonical.

Lemma split_In_chars (sep : ascii) (s l : JsString.t) (x : ascii) :
  In l (split sep s) -> In x l -> In x s.
Proof.
  revert l. induction s as [|c r IH]; intros l; simpl.
  - intros [<-|[]] [].
  - destruct (Ascii.eqb c sep).
    + intros [<-|H] Hx; [destruct Hx | right; eauto].
    + destruct (split sep r) as [|l0 ls] eqn:E.
      * intros [<-|[]] [->|[]]. now left.
      * intros [<-|H] Hx.
        -- destruct Hx as [->|Hx]; [now left | right; apply (IH l0); simpl; auto].
        -- right. apply (IH l); simpl; auto.
Qed.

Lemma split_no_sep (sep : ascii) (s l : JsString.t) :
  In l (split sep s) -> ~ In sep l.
Proof.
  revert l. induction s as [|c r IH]; intros l; simpl.
  - intros [<-|[]] [].
  - destruct (Ascii.eqb_spec c sep) as [->|Hne].
    + intros [<-|H]; [intros [] | now apply IH].
    + destruct (split sep r) as [|l0 ls] eqn:E.
      * intros [<-|[]] [->|[]]. congruence.
      * intros [<-|H].
        -- intros [->|Hx]; [congruence | apply (IH l0); simpl; auto].
        -- apply IH. simpl. auto.
Qed.

Lemma split_one (sep : ascii) (l : JsString.t) :
  ~ In sep l -> split sep l = [l].
Proof.
  induction l as [|c l IH]; simpl; [reflexivity|]. intros H.
  destruct (Ascii.eqb_spec c sep) as [->|Hne]; [tauto|].
  rewrite IH by tauto. reflexivity.
Qed.

Lemma split_app (sep : ascii) (l r : JsString.t) :
  ~ In sep l -> split sep (l ++ sep :: r) = l :: split sep r.
Proof.
  induction l as [|c l IH]; simpl; intros H.
  - now rewrite Ascii.eqb_refl.
  - destruct (Ascii.eqb_spec c sep) as [->|Hne]; [tauto|].
    rewrite IH by tauto. reflexivity.
Qed.

Lemma split_join (sep : ascii) (ls : list JsString.t) :
  ls <> [] -> Forall (fun l => ~ In sep l) ls -> split sep (join sep ls) = ls.
Proof.
  induction ls as [|l ls IH]; [congruence|]. intros _ H.
  inversion H as [|? ? Hl Hls]; subst.
  destruct ls as [|l' ls]; simpl.
  - now apply split_one.
  - rewrite split_app by exact Hl. f_equal. apply IH; [discriminate | exact Hls].
Qed.

Lemma join_In (sep : ascii) (ls : list JsString.t) (x : ascii) :
  In x (join sep ls) -> x = sep \/ exists l, In l ls /\ In x l.
Proof.
  induction ls as [|l ls IH]; simpl; [tauto|].
  destruct ls as [|l' ls].
  - intros H. right. exists l. auto.
  - rewrite in_app_iff. intros [H|[<-|H]].
    + right. exists l. auto.
    + now left.
    + destruct (IH H) as [->|(l0 & Hl0 & Hx)]; [now left|].
      right. exists l0. auto.
Qed.

(** *** [trim] *)

Lemma wordChar_not_space (c : ascii) : isWordChar c = true -> isSpace c = false.
Proof.
  unfold isWordChar, isIdentStart, isUpper, isLower, isDigit, isSpace, between.
  generalize (codeOf c). intros n H.
  repeat match goal with
         | H : context [?a <=? ?b] |- _ => destruct (Nat.leb_spec a b)
         | H : context [?a =? ?b] |- _ => destruct (Nat.eqb_spec a b)
         | |- context [?a <=? ?b] => destruct (Nat.leb_spec a b)
         | |- context [?a =? ?b] => destruct (Nat.eqb_spec a b)
         end; simpl in *; try reflexivity; try discriminate; lia.
Qed.

Lemma trimStart_split (s : JsString.t) :
  exists pre, s = pre ++ trimStart s /\ Forall (fun c => isSpace c = true) pre.
Proof.
  induction s as [|c r (pre & Hr & Hpre)]; simpl.
  - exists []. auto.
  - destruct (isSpace c) eqn:E.
    + exists (c :: pre). split; [simpl; congruence | now constructor].
    + exists []. auto.
Qed.

Lemma trimStart_hd (s : JsString.t) :
  trimStart s = [] \/ isSpace (hd " "%char (trimStart s)) = false.
Proof.
  induction s as [|c r IH]; simpl; [now left|].
  destruct (isSpace c) eqn:E; [exact IH | now right].
Qed.

Lemma trimStart_id (s : JsString.t) :
  isSpace (hd " "%char s) = false -> trimStart s = s.
Proof. destruct s as [|c r]; simpl; [reflexivity|]. now intros ->. Qed.

Lemma trimStart_In (s : JsString.t) (x : ascii) : In x (trimStart s) -> In x s.
Proof.
  destruct (trimStart_split s) as (pre & Hs & _). intros H.
  rewrite Hs. apply in_app_iff. now right.
Qed.

Lemma hd_rev_last (l : JsString.t) (d : ascii) : hd d (rev l) = List.last l d.
Proof.
  induction l as [|c l IH] using rev_ind; [reflexivity|].
  now rewrite rev_app_distr, last_last.
Qed.

Lemma last_rev_hd (l : JsString.t) (d : ascii) : List.last (rev l) d = hd d l.
Proof. now rewrite <- hd_rev_last, rev_involutive. Qed.

Lemma last_app_r (a b : JsString.t) (d : ascii) :
  b <> [] -> List.last (a ++ b) d = List.last b d.
Proof.
  intros Hb. destruct b as [|c b] using rev_ind; [congruence|].
  now rewrite app_assoc, !last_last.
Qed.

Lemma trim_In (s : JsString.t) (x : ascii) : In x (trim s) -> In x s.
Proof.
  unfold trim, trimEnd. intros H.
  apply in_rev, trimStart_In, in_rev in H. now apply trimStart_In.
Qed.

(** [trim] yields the empty string or a tight one. *)
Lemma trim_tight (s : JsString.t) : trim s = [] \/ tight (trim s).
Proof.
  unfold trim, trimEnd.
  destruct (trimStart_hd s) as [->|Hhd]; [now left|].
  set (y := trimStart s) in *.
  destruct (trimStart_split (rev y)) as (pre & Hy & Hpre).
  destruct (trimStart_hd (rev y)) as [Hz|Hz].
  - (* the reverse cannot be all white space: it ends with the head of [y] *)
    exfalso. rewrite Hz, app_nil_r in Hy.
    assert (Hl : In (hd " "%char y) pre).
    { rewrite <- Hy. destruct y as [|c y]; [discriminate|].
      simpl. apply in_app_iff. right. now left. }
    rewrite List.Forall_forall in Hpre. apply Hpre in Hl. congruence.
  - right. set (z := trimStart (rev y)) in *. unfold tight.
    assert (Hzne : z <> []) by (intros E; rewrite E in Hz; discriminate).
    rewrite hd_rev_last, last_rev_hd. split; [|exact Hz].
    rewrite <- (last_app_r pre z) by exact Hzne.
    now rewrite <- Hy, last_rev_hd.
Qed.

Lemma tight_trim (l : JsString.t) : tight l -> trim l = l.
Proof.
  intros [Hh Hl]. unfold trim, trimEnd.
  rewrite (trimStart_id l) by exact Hh.
  rewrite trimStart_id by (now rewrite hd_rev_last).
  apply rev_involutive.
Qed.

Lemma tight_truthy (l : JsString.t) : tight l -> truthy l = true.
Proof. intros [Hh _]. destruct l; [discriminate | reflexivity]. Qed.

(** *** [normalizeWhitespace] *)

(** The lines [normalizeWhitespace] keeps. *)
Lemma normalizeWhitespace_lines (code : JsString.t) :
  exists ls, normalizeWhitespace code = join "010" ls /\ Forall goodLine ls.
Proof.
  unfold normalizeWhitespace. eexists. split; [reflexivity|].
  apply List.Forall_forall. intros l (l0 & Hl0 & Hl)%in_flat_map.
  destruct (truthy (trim l0)) eqn:E; [|destruct Hl].
  destruct Hl as [<-|[]]. split.
  - destruct (trim_tight l0) as [H|H]; [rewrite H in E; discriminate | exact H].
  - intros H%trim_In. now apply split_no_sep in Hl0.
Qed.

(** A text of good lines is a fixed point. *)
Lemma normalizeWhitespace_fixed (ls : list JsString.t) :
  Forall goodLine ls -> normalizeWhitespace (join "010" ls) = join "010" ls.
Proof.
  intros H. unfold normalizeWhitespace.
  destruct ls as [|l ls]; [reflexivity|].
  rewrite split_join; [|discriminate|].
  - f_equal. induction H as [|l0 ls0 [Ht _] _ IH]; [reflexivity|].
    cbn [flat_map]. rewrite tight_trim, tight_truthy by exact Ht.
    simpl. now rewrite IH.
  - eapply List.Forall_impl; [|exact H]. now intros l0 [_ Hn].
Qed.

Lemma normalizeWhitespace_idempotent (code : JsString.t) :
  normalizeWhitespace (normalizeWhitespace code) = normalizeWhitespace code.
Proof.
  destruct (normalizeWhitespace_lines code) as (ls & -> & H).
  now apply normalizeWhitespace_fixed.
Qed.

Lemma normalizeWhitespace_In (code : JsString.t) (x : ascii) :
  In x (normalizeWhitespace code) -> x = "010"%char \/ In x code.
Proof.
  unfold normalizeWhitespace.
  intros [->|(l & (l0 & Hl0 & Hl)%in_flat_map & Hx)]%join_In; [now left|].
  right. destruct (truthy (trim l0)); [|destruct Hl].
  destruct Hl as [<-|[]]. eapply split_In_chars; [exact Hl0|]. now apply trim_In.
Qed.

End Whitespace.

(** ** The lexer *)

Section Lexer.

Import CodeNormalizer Canonical.

Lemma unlex_lex (s : JsString.t) : unlex (lex s) = s.
Proof.
  induction s as [|c r IH]; simpl; [reflexivity|].
  destruct (isWordChar c).
  - destruct (lex r) as [|[w|c'] ps]; simpl in *; congruence.
  - simpl. congruence.
Qed.

Lemma lex_wellFormed (s : JsString.t) : wellFormed (lex s).
Proof.
  induction s as [|c r IH]; simpl; [exact I|].
  destruct (isWordChar c) eqn:E; [|simpl; auto].
  destruct (lex r) as [|[w|c'] ps]; simpl in *.
  - repeat split; [discriminate | now repeat constructor].
  - destruct IH as ((Hne & Hw) & Hh & Hps).
    repeat split; [discriminate | now constructor | exact Hh | exact Hps].
  - repeat split; try tauto; [discriminate | now repeat constructor].
Qed.

Lemma lex_word_app (w u : JsString.t) :
  isWord w -> noWordHead (lex u) -> lex (w ++ u) = Word w :: lex u.
Proof.
  intros [Hne Hw] Hu. induction w as [|c w IH]; [congruence|].
  inversion Hw as [|? ? Hc Hw']; subst. simpl. rewrite Hc.
  destruct w as [|c' w].
  - simpl. destruct (lex u) as [|[w0|c0] ps]; [reflexivity | destruct Hu | reflexivity].
  - rewrite IH; [reflexivity | discriminate | exact Hw'].
Qed.

Lemma lex_unlex (ps : list piece) : wellFormed ps -> lex (unlex ps) = ps.
Proof.
  induction ps as [|[w|c] ps IH]; simpl; [reflexivity| |].
  - intros (Hw & Hh & Hps). rewrite lex_word_app; [now rewrite IH | exact Hw|].
    now rewrite IH.
  - intros (Hc & Hps). rewrite Hc, IH by exact Hps. reflexivity.
Qed.

Lemma lex_app_sep (a b : JsString.t) (c : ascii) :
  isWordChar c = false -> lex (a ++ c :: b) = lex a ++ Sep c :: lex b.
Proof.
  intros Hc. induction a as [|x a IH]; simpl.
  - now rewrite Hc.
  - rewrite IH. destruct (isWordChar x); [|reflexivity].
    destruct (lex a) as [|[w|c'] ps]; reflexivity.
Qed.

Lemma wellFormed_onWord (f : JsString.t -> JsString.t) (ps : list piece) :
  (forall w, isWord w -> isWord (f w)) ->
  wellFormed ps -> wellFormed (map (onWord f) ps).
Proof.
  intros Hf. induction ps as [|[w|c] ps IH]; simpl; [auto| |].
  - intros (Hw & Hh & Hps). split; [now apply Hf|]. split; [|now apply IH].
    destruct ps as [|[w'|c'] ps']; simpl; auto.
  - intros (Hc & Hps). auto.
Qed.

Lemma words_onWord (f : JsString.t -> JsString.t) (ps : list piece) :
  words (map (onWord f) ps) = map f (words ps).
Proof.
  induction ps as [|[w|c] ps IH]; simpl; [reflexivity| |]; now rewrite IH.
Qed.

Lemma onWord_id (f : JsString.t -> JsString.t) (ps : list piece) :
  (forall w, f w = w) -> map (onWord f) ps = ps.
Proof.
  intros Hf. induction ps as [|[w|c] ps IH]; simpl; [reflexivity| |];
    now rewrite ?Hf, IH.
Qed.

Lemma onWord_compose (f g : JsString.t -> JsString.t) (ps : list piece) :
  map (onWord g) (map (onWord f) ps) = map (onWord (fun w => g (f w))) ps.
Proof.
  rewrite map_map. apply map_ext. now intros [w|c].
Qed.

(** [replaceWord] maps the words of the text. *)
Lemma replaceWord_onWord (original normalized s : JsString.t) :
  replaceWord original normalized s
  = unlex (map (onWord (subst1 original normalized)) (lex s)).
Proof.
  unfold replaceWord. f_equal. apply map_ext. intros [w|c]; [|reflexivity].
  unfold onWord, subst1. now destruct (eqb w original).
Qed.

Lemma unlex_onWord_In (f : JsString.t -> JsString.t) (ps : list piece) (x : ascii) :
  In x (unlex (map (onWord f) ps)) ->
  In x (unlex ps) \/ exists w, In w (words ps) /\ In x (f w).
Proof.
  induction ps as [|[w|c] ps IH]; simpl; [tauto| |].
  - rewrite !in_app_iff. intros [H|H].
    + right. exists w. auto.
    + destruct (IH H) as [H'|(w' & Hw' & Hx)]; [auto|]. right. exists w'. auto.
  - intros [->|H]; [auto|].
    destruct (IH H) as [H'|(w' & Hw' & Hx)]; [auto|]. right. exists w'. auto.
Qed.

(** The ends of a text: words and separators keep their kind. *)
Lemma isWord_hd (w : JsString.t) : isWord w -> isSpace (hd " "%char w) = false.
Proof.
  intros [Hne Hw]. destruct w as [|c w]; [congruence|].
  inversion Hw; subst. now apply wordChar_not_space.
Qed.

Lemma isWord_last (w : JsString.t) : isWord w -> isSpace (List.last w " "%char) = false.
Proof.
  intros [Hne Hw]. destruct w as [|c w] using rev_ind; [congruence|].
  rewrite last_last. apply List.Forall_app in Hw as [_ Hc].
  inversion Hc; subst. now apply wordChar_not_space.
Qed.

Lemma unlex_nil (ps : list piece) : wellFormed ps -> unlex ps = [] -> ps = [].
Proof.
  destruct ps as [|[w|c] ps]; simpl; [reflexivity| |discriminate].
  intros ((Hne & _) & _) H. apply app_eq_nil in H as [-> _]. congruence.
Qed.

Lemma hd_onWord (f : JsString.t -> JsString.t) (ps : list piece) :
  (forall w, isWord w -> isWord (f w)) -> wellFormed ps ->
  isSpace (hd " "%char (unlex (map (onWord f) ps)))
  = isSpace (hd " "%char (unlex ps)).
Proof.
  intros Hf. destruct ps as [|[w|c] ps]; simpl; [reflexivity| |reflexivity].
  intros (Hw & _).
  assert (Hhd : forall (a b : JsString.t), isWord a ->
                  isSpace (hd " "%char (a ++ b)) = false).
  { intros a b Ha. pose proof (isWord_hd a Ha) as H.
    destruct a as [|c a]; [destruct Ha; congruence | exact H]. }
  now rewrite !Hhd by auto.
Qed.

Lemma last_onWord (f : JsString.t -> JsString.t) (ps : list piece) :
  (forall w, isWord w -> isWord (f w)) -> wellFormed ps ->
  isSpace (List.last (unlex (map (onWord f) ps)) " "%char)
  = isSpace (List.last (unlex ps) " "%char).
Proof.
  intros Hf. induction ps as [|p ps IH]; [reflexivity|]. intros Hwf.
  assert (Hps : wellFormed ps) by (destruct p; simpl in Hwf; tauto).
  assert (Hmap : wellFormed (map (onWord f) ps)) by now apply wellFormed_onWord.
  cbn [map unlex flat_map].
  destruct ps as [|q ps].
  - simpl. rewrite !app_nil_r. destruct p as [w|c]; [|reflexivity].
    simpl in Hwf. rewrite !isWord_last; [reflexivity | tauto | apply Hf; tauto].
  - rewrite !last_app_r.
    + now apply IH.
    + intros E. now apply unlex_nil in E.
    + intros E. apply (unlex_nil (map (onWord f) (q :: ps))) in E; [discriminate|exact Hmap].
Qed.

End Lexer.

(** ** Generic names *)

Section Names.

Import CodeNormalizer Canonical.

Lemma pretty_N_char_digit (x : N) : isDigit (pretty_N_char x) = true.
Proof. unfold pretty_N_char. repeat case_match; reflexivity. Qed.

Lemma pretty_N_go_digits (x : N) (s : string) :
  Forall (fun c => isDigit c = true) (str s) ->
  Forall (fun c => isDigit c = true) (str (pretty_N_go x s)).
Proof.
  revert s. induction (N.lt_wf_0 x) as [x _ IH]; intros s Hs.
  destruct (decide (x = 0)%N) as [->|Hx]; [now rewrite pretty_N_go_0|].
  rewrite pretty_N_go_step by lia. apply IH.
  - apply N.div_lt; lia.
  - simpl. constructor; [apply pretty_N_char_digit | exact Hs].
Qed.

Lemma pretty_digits (n : nat) : Forall (fun c => isDigit c = true) (str (pretty n)).
Proof.
  unfold pretty, pretty_nat, pretty, pretty_N.
  case_decide; [repeat constructor|].
  apply pretty_N_go_digits. constructor.
Qed.

Lemma str_inj (s1 s2 : string) : str s1 = str s2 -> s1 = s2.
Proof.
  unfold str. intros H.
  rewrite <- (string_of_list_ascii_of_string s1), H.
  apply string_of_list_ascii_of_string.
Qed.

Lemma varName_inj (i j : nat) : varName i = varName j -> i = j.
Proof.
  unfold varName. intros H%app_inv_head%str_inj. now apply (inj pretty) in H.
Qed.

Lemma varName_isWord (n : nat) : isWord (varName n).
Proof.
  split; [discriminate|]. unfold varName. apply List.Forall_app. split.
  - repeat constructor.
  - eapply List.Forall_impl; [|apply pretty_digits].
    intros c Hc. unfold isWordChar. rewrite Hc. apply orb_true_r.
Qed.

Lemma varName_identStart (n : nat) : exists r, varName n = "v"%char :: r.
Proof. unfold varName. simpl. eauto. Qed.

Lemma varName_not_keyword (n : nat) : isKeyword (varName n) = false.
Proof.
  unfold isKeyword. apply bool_decide_eq_false_2.
  destruct (varName_identStart n) as [r ->].
  rewrite list_elem_of_In. unfold keywords. simpl.
  intros H. repeat (destruct H as [H|H]; [discriminate|]). exact H.
Qed.

Lemma varName_in_seq (i n : nat) : In (varName i) (map varName (seq 0 n)) -> i < n.
Proof.
  intros (j & Hj%varName_inj & Hin%in_seq)%in_map_iff. lia.
Qed.

End Names.

(** ** Renaming the words of a text *)

Section Rename.

Import CodeNormalizer Canonical.

Lemma words_In (ps : list piece) (w : JsString.t) (x : ascii) :
  In w (words ps) -> In x w -> In x (unlex ps).
Proof.
  induction ps as [|[w'|c] ps IH]; simpl; [tauto| |].
  - rewrite in_app_iff. intros [<-|H] Hx; auto.
  - intros H Hx. right. auto.
Qed.

Lemma rename_In (f : JsString.t -> JsString.t) (s : JsString.t) (x : ascii) :
  In x (rename f s) -> In x s \/ exists w, In w (words (lex s)) /\ In x (f w).
Proof.
  unfold rename. intros H%unlex_onWord_In. now rewrite unlex_lex in H.
Qed.

Lemma rename_id (f : JsString.t -> JsString.t) (s : JsString.t) :
  (forall w, f w = w) -> rename f s = s.
Proof. intros Hf. unfold rename. rewrite onWord_id by exact Hf. apply unlex_lex. Qed.

Lemma lex_rename (f : JsString.t -> JsString.t) (s : JsString.t) :
  (forall w, isWord w -> isWord (f w)) ->
  lex (rename f s) = map (onWord f) (lex s).
Proof.
  intros Hf. unfold rename. apply lex_unlex, wellFormed_onWord; [exact Hf|].
  apply lex_wellFormed.
Qed.

Lemma rename_compose (f g : JsString.t -> JsString.t) (s : JsString.t) :
  (forall w, isWord w -> isWord (f w)) ->
  rename g (rename f s) = rename (fun w => g (f w)) s.
Proof.
  intros Hf. unfold rename at 1. rewrite lex_rename by exact Hf.
  now rewrite onWord_compose.
Qed.

Lemma rename_join (f : JsString.t -> JsString.t) (ls : list JsString.t) :
  rename f (join "010" ls) = join "010" (map (rename f) ls).
Proof.
  induction ls as [|l ls IH]; [reflexivity|].
  destruct ls as [|l' ls]; [reflexivity|].
  change (join "010" (l :: l' :: ls)) with (l ++ "010"%char :: join "010" (l' :: ls)).
  change (join "010" (map (rename f) (l :: l' :: ls)))
    with (rename f l ++ "010"%char :: join "010" (map (rename f) (l' :: ls))).
  rewrite <- IH. unfold rename.
  rewrite lex_app_sep by reflexivity.
  rewrite map_app. unfold unlex. rewrite flat_map_app. reflexivity.
Qed.

Lemma rename_goodLine (f : JsString.t -> JsString.t) (l : JsString.t) :
  (forall w, isWord w -> isWord (f w)) -> goodLine l -> goodLine (rename f l).
Proof.
  intros Hf [[Hh Hl] Hn]. unfold goodLine, tight, rename.
  rewrite hd_onWord, last_onWord, unlex_lex by (auto using lex_wellFormed).
  repeat split; [exact Hh | exact Hl|].
  intros [H|(w & Hw & Hx)]%unlex_onWord_In.
  - now rewrite unlex_lex in H.
  - assert (Hword : isWord w).
    { pose proof (lex_wellFormed l) as Hwf.
      induction (lex l) as [|[w'|c] ps IH]; simpl in *; [tauto| |tauto].
      destruct Hw as [<-|Hw]; tauto. }
    destruct (Hf w Hword) as [_ Hall].
    rewrite List.Forall_forall in Hall. apply Hall in Hx. discriminate.
Qed.

(** The words of a lexed text are words. *)
Lemma lex_words_isWord (s w : JsString.t) : In w (words (lex s)) -> isWord w.
Proof.
  pose proof (lex_wellFormed s) as Hwf.
  induction (lex s) as [|[w'|c] ps IH]; simpl in *; [tauto| |tauto].
  intros [<-|Hw]; tauto.
Qed.

Lemma replaceWord_rename (original normalized s : JsString.t) :
  replaceWord original normalized s = rename (subst1 original normalized) s.
Proof. apply replaceWord_onWord. Qed.

Lemma subst1_isWord (original normalized w : JsString.t) :
  isWord normalized -> isWord w -> isWord (subst1 original normalized w).
Proof. intros Hn Hw. unfold subst1. now destruct (eqb w original). Qed.

Lemma seqsub_isWord (m : mapping) (w : JsString.t) :
  validNames m -> isWord w -> isWord (seqsub m w).
Proof.
  intros Hm. revert w. induction Hm as [|[o v] m Hv Hm IH]; intros w Hw; [exact Hw|].
  simpl. apply IH. now apply subst1_isWord.
Qed.

(** The second loop of [normalizeVariableNames] renames each word by the
    replacements of the mapping in turn. *)
Lemma applyMapping_rename (m : mapping) (s : JsString.t) :
  validNames m -> applyMapping m s = rename (seqsub m) s.
Proof.
  intros Hm. revert s. induction Hm as [|[o v] m Hv Hm IH]; intros s.
  - simpl. symmetry. now apply rename_id.
  - simpl. rewrite IH, replaceWord_rename.
    rewrite rename_compose by (intros w; now apply subst1_isWord).
    reflexivity.
Qed.

End Rename.

(** ** The mapping of [normalizeVariableNames] *)

Section Mapping.

Import CodeNormalizer Canonical.

Lemma subst1_same (v w : JsString.t) : subst1 v v w = w.
Proof. unfold subst1, eqb. case_bool_decide; congruence. Qed.

Lemma seqsub_diag (m : mapping) (w : JsString.t) : seqsub (diag m) w = w.
Proof.
  revert w. induction m as [|[o v] m IH]; intros w; simpl; [reflexivity|].
  now rewrite subst1_same.
Qed.

Lemma seqsub_notin (m : mapping) (w : JsString.t) :
  ~ In w (map fst m) -> seqsub m w = w.
Proof.
  induction m as [|[o v] m IH]; simpl; [reflexivity|]. intros H.
  unfold subst1, eqb. rewrite bool_decide_eq_false_2 by (intros ->; tauto).
  apply IH. tauto.
Qed.

Lemma seqsub_app (m1 m2 : mapping) (w : JsString.t) :
  seqsub (m1 ++ m2) w = seqsub m2 (seqsub m1 w).
Proof. apply fold_left_app. Qed.

Lemma seqsub_key (m1 m2 : mapping) (o v : JsString.t) :
  ~ In o (map fst m1) -> ~ In v (map fst m2) -> seqsub (m1 ++ (o, v) :: m2) o = v.
Proof.
  intros H1 H2. rewrite seqsub_app, (seqsub_notin m1) by exact H1. simpl.
  unfold subst1, eqb. rewrite bool_decide_eq_true_2 by reflexivity.
  now apply seqsub_notin.
Qed.

Lemma seqsub_range (m : mapping) (w : JsString.t) :
  seqsub m w = w \/ In (seqsub m w) (map snd m).
Proof.
  revert w. induction m as [|[o v] m IH]; intros w; simpl; [now left|].
  destruct (IH (subst1 o v w)) as [H|H]; [|auto].
  rewrite H. unfold subst1. destruct (eqb w o); auto.
Qed.

Lemma captureFree_spec (m : mapping) (n : nat) :
  captureFree m n = true ->
  forall m1 o v m2, m = m1 ++ (o, v) :: m2 ->
                    forall i, i < n + length m1 -> o <> varName i.
Proof.
  revert n. induction m as [|[o' v'] m IH]; intros n H m1 o v m2 Hm i Hi.
  - now destruct m1.
  - simpl in H. apply andb_prop in H as [Hhere Hrest].
    destruct m1 as [|e m1]; simpl in Hm; inversion Hm; subst.
    + rewrite forallb_forall in Hhere. specialize (Hhere i).
      simpl in Hi. rewrite Nat.add_0_r in Hi.
      intros ->. unfold eqb in Hhere.
      rewrite bool_decide_eq_true_2 in Hhere by reflexivity.
      assert (Hin : In i (seq 0 n)) by (apply in_seq; lia).
      apply Hhere in Hin. discriminate.
    + eapply (IH (S n) Hrest m1 o v m2); [reflexivity | simpl in Hi; lia].
Qed.

Lemma wellBuilt_length (m : mapping) (n : nat) : wellBuilt m n -> length m = n.
Proof.
  intros [H _]. apply (f_equal (@length _)) in H.
  now rewrite !length_map, length_seq in H.
Qed.

Lemma wellBuilt_name (m : mapping) (n : nat) m1 o v m2 :
  wellBuilt m n -> m = m1 ++ (o, v) :: m2 -> v = varName (length m1).
Proof.
  intros Hwb ->. pose proof (wellBuilt_length _ _ Hwb) as Hlen.
  destruct Hwb as [H _].
  apply (f_equal (fun l => nth (length m1) l [])) in H.
  rewrite map_app in H. simpl in H.
  rewrite <- (length_map snd m1) in H at 1. rewrite nth_middle in H.
  rewrite H. rewrite length_app in Hlen. simpl in Hlen.
  rewrite (nth_indep _ [] (varName 0)) by (rewrite length_map, length_seq; lia).
  rewrite map_nth, seq_nth by lia. reflexivity.
Qed.

Lemma wellBuilt_validNames (m : mapping) (n : nat) : wellBuilt m n -> validNames m.
Proof.
  intros [H _]. unfold validNames. apply List.Forall_forall. intros [o v] Hin.
  assert (Hv : In v (map snd m)) by (apply in_map_iff; exists (o, v); auto).
  rewrite H in Hv. apply in_map_iff in Hv as (i & <- & _). apply varName_isWord.
Qed.

Lemma wellBuilt_snoc (m : mapping) (n : nat) (t : JsString.t) :
  wellBuilt m n -> isKeyword t = false -> ~ In t (map fst m) ->
  wellBuilt (m ++ [(t, varName n)]) (S n).
Proof.
  intros (Hs & Hn & Hk) Ht Hin. repeat split.
  - rewrite map_app, Hs, seq_S, map_app. reflexivity.
  - rewrite map_app. simpl. apply NoDup_app. repeat split.
    + exact Hn.
    + intros x Hx ->%list_elem_of_singleton. now apply list_elem_of_In in Hx.
    + apply NoDup_singleton.
  - rewrite map_app. apply List.Forall_app. split; [exact Hk | now repeat constructor].
Qed.

Lemma mappingHas_spec (m : mapping) (k : JsString.t) :
  mappingHas m k = true <-> In k (map fst m).
Proof. unfold mappingHas. now rewrite bool_decide_eq_true, list_elem_of_In. Qed.

Lemma buildMapping_wellBuilt (tokens : list JsString.t) (acc : mapping) (n : nat) :
  wellBuilt acc n ->
  wellBuilt (buildMapping tokens acc n) (length (buildMapping tokens acc n)).
Proof.
  revert acc n. induction tokens as [|t ts IH]; intros acc n H; simpl.
  - now rewrite (wellBuilt_length _ _ H).
  - destruct (isKeyword t) eqn:Ek; simpl; [now apply IH|].
    destruct (mappingHas acc t) eqn:Eh; simpl; [now apply IH|].
    apply IH, wellBuilt_snoc; [exact H | exact Ek|].
    intros Hin%mappingHas_spec. congruence.
Qed.

Lemma buildMapping_prefix (tokens : list JsString.t) (acc : mapping) (n : nat) :
  exists ext, buildMapping tokens acc n = acc ++ ext.
Proof.
  revert acc n. induction tokens as [|t ts IH]; intros acc n; simpl.
  - exists []. now rewrite app_nil_r.
  - destruct (_ && _); [|apply IH].
    destruct (IH (acc ++ [(t, varName n)]) (S n)) as [ext ->].
    exists ((t, varName n) :: ext). now rewrite <- app_assoc.
Qed.

Lemma buildMapping_keys (tokens : list JsString.t) (acc : mapping) (n : nat) o :
  In o (map fst (buildMapping tokens acc n)) -> In o (map fst acc) \/ In o tokens.
Proof.
  revert acc n. induction tokens as [|t ts IH]; intros acc n; simpl; [auto|].
  destruct (_ && _); intros H%IH.
  - rewrite map_app, in_app_iff in H. simpl in H. tauto.
  - tauto.
Qed.

(** Without capture, the replacements send the identifier of an entry to the
    generic name of that entry. *)
Lemma seqsub_entry (m : mapping) (n : nat) m1 o v m2 :
  wellBuilt m n -> captureFree m 0 = true -> m = m1 ++ (o, v) :: m2 ->
  seqsub m o = v.
Proof.
  intros Hwb Hcf Hm. pose proof Hwb as (_ & Hnd & _).
  rewrite Hm. apply seqsub_key.
  - rewrite Hm, map_app in Hnd. simpl in Hnd.
    apply NoDup_app in Hnd as (_ & Hdis & _).
    intros Hin%list_elem_of_In. apply (Hdis o Hin). left.
  - rewrite (wellBuilt_name _ _ _ _ _ _ Hwb Hm).
    intros ([o' v'] & Ho' & Hin)%in_map_iff. simpl in Ho'.
    apply in_split in Hin as (m2a & m2b & ->).
    apply (captureFree_spec m 0 Hcf (m1 ++ (o, v) :: m2a) o' v' m2b)
      with (i := length m1).
    + rewrite Hm, <- app_assoc. reflexivity.
    + rewrite length_app. simpl. lia.
    + exact Ho'.
Qed.

(** The first loop run on the anonymized tokens finds every generic name
    under its own name. *)
Lemma buildMapping_diag (tokens : list JsString.t) (acc : mapping) (n : nat)
      (m : mapping) :
  wellBuilt acc n -> buildMapping tokens acc n = m -> captureFree m 0 = true ->
  buildMapping (map (seqsub m) tokens) (diag acc) n = diag m.
Proof.
  revert acc n. induction tokens as [|t ts IH]; intros acc n Hacc Hm Hcf.
  - simpl in *. now subst.
  - pose proof (buildMapping_wellBuilt (t :: ts) acc n Hacc) as Hwb.
    rewrite Hm in Hwb.
    destruct (buildMapping_prefix (t :: ts) acc n) as [ext Hext].
    rewrite Hm in Hext.
    assert (Hkeys : map fst (diag acc) = map varName (seq 0 n)).
    { destruct Hacc as [Hs _]. unfold diag. now rewrite map_map. }
    simpl in Hm. cbn [map buildMapping].
    destruct (isKeyword t) eqn:Ek.
    + (* a keyword stays and is skipped *)
      assert (Ht : seqsub m t = t).
      { apply seqsub_notin. intros Hin. destruct Hwb as (_ & _ & Hk).
        rewrite List.Forall_forall in Hk. apply Hk in Hin. congruence. }
      rewrite Ht, Ek. simpl in *. now apply IH.
    + destruct (mappingHas acc t) eqn:Eh; simpl in Hm.
      * (* seen before: its generic name is in the new mapping *)
        apply mappingHas_spec, in_map_iff in Eh as ([o v] & Ho & Hin).
        simpl in Ho. subst o.
        apply in_split in Hin as (a1 & a2 & Ha).
        assert (Ht : seqsub m t = v).
        { eapply seqsub_entry; [exact Hwb | exact Hcf|].
          rewrite Hext, Ha, <- app_assoc. reflexivity. }
        assert (Hv : v = varName (length a1))
          by (eapply wellBuilt_name; [exact Hacc | exact Ha]).
        rewrite Ht, Hv, varName_not_keyword.
        assert (Hhas : mappingHas (diag acc) (varName (length a1)) = true).
        { apply mappingHas_spec. rewrite Hkeys. apply in_map, in_seq.
          pose proof (wellBuilt_length _ _ Hacc) as Hlen.
          rewrite Ha, length_app in Hlen. simpl in Hlen. lia. }
        rewrite Hhas. simpl. now apply IH.
      * (* new: it gets the next generic name, which is new as well *)
        destruct (buildMapping_prefix ts (acc ++ [(t, varName n)]) (S n))
          as [ext' Hext'].
        rewrite Hm, <- app_assoc in Hext'. simpl in Hext'.
        assert (Ht : seqsub m t = varName n)
          by (eapply seqsub_entry; [exact Hwb | exact Hcf | exact Hext']).
        rewrite Ht, varName_not_keyword.
        assert (Hhas : mappingHas (diag acc) (varName n) = false).
        { apply not_true_iff_false. rewrite mappingHas_spec, Hkeys.
          intros H%varName_in_seq. lia. }
        rewrite Hhas. simpl.
        replace (diag acc ++ [(varName n, varName n)])
          with (diag (acc ++ [(t, varName n)]))
          by (unfold diag; now rewrite map_app).
        apply IH; [|exact Hm | exact Hcf].
        apply wellBuilt_snoc; [exact Hacc | exact Ek|].
        intros Hin%mappingHas_spec. congruence.
Qed.

End Mapping.

(** ** Normalizing a normalized text *)

Section FixedPoint.

Import CodeNormalizer Canonical.

Lemma wellBuilt_nil : wellBuilt [] 0.
Proof. repeat split; [apply NoDup_nil_2 | constructor]. Qed.

Lemma filter_map_comm {A} (P : A -> bool) (f : A -> A) (l : list A) :
  (forall x, In x l -> P (f x) = P x) ->
  List.filter P (map f l) = map f (List.filter P l).
Proof.
  induction l as [|x l IH]; intros H; simpl; [reflexivity|].
  rewrite H by now left. rewrite IH by (intros y Hy; apply H; now right).
  now destruct (P x).
Qed.

Lemma identStart_varName (n : nat) :
  match varName n with c :: _ => isIdentStart c | [] => false end = true.
Proof. destruct (varName_identStart n) as [r ->]. reflexivity. Qed.

(** The identifiers of the anonymized text are the anonymized identifiers. *)
Lemma matchTokens_rename (w : JsString.t) :
  let m := buildMapping (matchTokens w) [] 0 in
  matchTokens (rename (seqsub m) w) = map (seqsub m) (matchTokens w).
Proof.
  intros m.
  assert (Hwb : wellBuilt m (length m)) by apply buildMapping_wellBuilt, wellBuilt_nil.
  pose proof (wellBuilt_validNames _ _ Hwb) as Hvalid.
  unfold matchTokens at 1.
  rewrite lex_rename by (intros x; now apply seqsub_isWord).
  rewrite words_onWord. apply filter_map_comm. intros x Hx.
  destruct (decide (x ∈ map fst m)) as [Hin|Hin].
  - apply list_elem_of_In in Hin.
    assert (Hid : match x with c :: _ => isIdentStart c | [] => false end = true).
    { apply buildMapping_keys in Hin as [[]|Hin].
      unfold matchTokens in Hin. now apply filter_In in Hin as [_ Hin]. }
    rewrite Hid. destruct (seqsub_range m x) as [->|Hr]; [exact Hid|].
    destruct Hwb as (Hs & _). rewrite Hs in Hr.
    apply in_map_iff in Hr as (i & <- & _). apply identStart_varName.
  - rewrite seqsub_notin; [reflexivity|]. now rewrite <- list_elem_of_In.
Qed.

Lemma normalizeVariableNames_rename (w : JsString.t) :
  normalizeVariableNames w = rename (seqsub (buildMapping (matchTokens w) [] 0)) w.
Proof.
  unfold normalizeVariableNames. apply applyMapping_rename.
  eapply wellBuilt_validNames, buildMapping_wellBuilt, wellBuilt_nil.
Qed.

Lemma normalizeVariableNames_fixed (w : JsString.t) :
  captureFree (buildMapping (matchTokens w) [] 0) 0 = true ->
  normalizeVariableNames (normalizeVariableNames w) = normalizeVariableNames w.
Proof.
  intros Hcf. rewrite (normalizeVariableNames_rename w).
  pose proof (matchTokens_rename w) as Ht. cbv zeta in Ht.
  set (m := buildMapping (matchTokens w) [] 0) in *.
  unfold normalizeVariableNames. cbv zeta. rewrite Ht.
  change (@nil (JsString.t * JsString.t)) with (diag []).
  rewrite (buildMapping_diag (matchTokens w) [] 0 m wellBuilt_nil eq_refl Hcf).
  rewrite applyMapping_rename.
  - apply rename_id, seqsub_diag.
  - unfold validNames, diag. apply List.Forall_map. simpl.
    eapply wellBuilt_validNames, buildMapping_wellBuilt, wellBuilt_nil.
Qed.

Lemma seqsub_wordChars (m : mapping) (w : JsString.t) (x : ascii) :
  validNames m -> isWord w -> In x (seqsub m w) -> isWordChar x = true.
Proof.
  intros Hm Hw Hx. destruct (seqsub_isWord m w Hm Hw) as [_ Hall].
  rewrite List.Forall_forall in Hall. now apply Hall.
Qed.

Lemma normalizeVariableNames_no_hash (w : JsString.t) :
  ~ In "#"%char w -> ~ In "#"%char (normalizeVariableNames w).
Proof.
  intros Hw. rewrite normalizeVariableNames_rename.
  intros [H|(x & Hx & Hin)]%rename_In; [tauto|].
  apply seqsub_wordChars in Hin; [discriminate| |eapply lex_words_isWord; eassumption].
  eapply wellBuilt_validNames, buildMapping_wellBuilt, wellBuilt_nil.
Qed.

Lemma normalizeVariableNames_lines (ls : list JsString.t) :
  Forall goodLine ls ->
  exists ls', normalizeVariableNames (join "010" ls) = join "010" ls'
              /\ Forall goodLine ls'.
Proof.
  intros H. rewrite normalizeVariableNames_rename, rename_join.
  eexists. split; [reflexivity|]. apply List.Forall_map.
  eapply List.Forall_impl; [|exact H]. intros l Hl.
  apply rename_goodLine; [|exact Hl].
  intros x. apply seqsub_isWord.
  eapply wellBuilt_validNames, buildMapping_wellBuilt, wellBuilt_nil.
Qed.

(** What every normalized text has: no [#], and tight lines. *)
Lemma normalizeCode_no_hash (code : JsString.t) (normalizeVars : bool) :
  ~ In "#"%char (normalizeCode code normalizeVars).
Proof.
  assert (H : ~ In "#"%char (normalizeWhitespace (removeComments code))).
  { intros [H|H]%normalizeWhitespace_In; [discriminate|].
    now apply removeComments_no_hash in H. }
  unfold normalizeCode. destruct normalizeVars; [|exact H].
  now apply normalizeVariableNames_no_hash.
Qed.

Lemma normalizeCode_whitespace (code : JsString.t) (normalizeVars : bool) :
  normalizeWhitespace (normalizeCode code normalizeVars)
  = normalizeCode code normalizeVars.
Proof.
  unfold normalizeCode. destruct normalizeVars.
  - destruct (normalizeWhitespace_lines (removeComments code)) as (ls & -> & H).
    destruct (normalizeVariableNames_lines ls H) as (ls' & -> & H').
    now apply normalizeWhitespace_fixed.
  - apply normalizeWhitespace_idempotent.
Qed.

(** C9, as the code has it. A normalized text is a fixed point of
    [normalizeCode] when it holds no block delimiter and, with identifier
    anonymization, when no identifier of the code is spelled like the generic
    name of an identifier that comes before it. *)
Theorem C9_normalization_fixed_point (code : JsString.t) (normalizeVars : bool) :
  (normalizeVars = true -> captureFree (mappingOf code) 0 = true) ->
  delimiterFree (normalizeCode code normalizeVars) = true ->
  normalizeCode (normalizeCode code normalizeVars) normalizeVars
  = normalizeCode code normalizeVars.
Proof.
  intros Hcf Hdf.
  unfold normalizeCode at 1.
  rewrite removeComments_id by (auto using normalizeCode_no_hash).
  rewrite normalizeCode_whitespace.
  destruct normalizeVars; [|reflexivity].
  unfold normalizeCode. apply normalizeVariableNames_fixed. now apply Hcf.
Qed.

End FixedPoint.

Lemma C9_counterexample :
  CodeNormalizer.normalizeCode
    (CodeNormalizer.normalizeCode Samples.nestedBlocks false) false
  <> CodeNormalizer.normalizeCode Samples.nestedBlocks false
  /\ CodeNormalizer.normalizeCode
       (CodeNormalizer.normalizeCode Samples.nestedBlocks true) true
     <> CodeNormalizer.normalizeCode Samples.nestedBlocks true
  /\ CodeNormalizer.normalizeCode
       (CodeNormalizer.normalizeCode (str "total = var0 + 1") true) true
     <> CodeNormalizer.normalizeCode (str "total = var0 + 1") true.
Proof. repeat split; vm_compute; discriminate. Qed.

Lemma C9_normalization_fixed_point_witness :
  CodeNormalizer.normalizeCode
    (CodeNormalizer.normalizeCode (str "def area(w, h):
    return w * h  # product
print(area(2, 3))") true) true
  = CodeNormalizer.normalizeCode (str "def area(w, h):
    return w * h  # product
print(area(2, 3))") true.
Proof.
  apply (C9_normalization_fixed_point (str "def area(w, h):
    return w * h  # product
print(area(2, 3))") true).
  - intros _. vm_compute. reflexivity.
  - vm_compute. reflexivity.
Defined.

(** * Further properties *)

(** ** The normalizer *)

Section NormalizerProperties.

Import CodeNormalizer Canonical Renaming.

Lemma stripLineComments_sublist (inComment : bool) (s : JsString.t) :
  stripLineComments inComment s `sublist_of` s.
Proof.
  revert inComment. induction s as [|c r IH]; intros inComment; simpl; [constructor|].
  destruct (isLineTerminator c); [now constructor|].
  destruct inComment; [now constructor|].
  destruct (Ascii.eqb c "#"); now constructor.
Qed.

Lemma stripBlocks_sublist_bounded (d : ascii) (n : nat) :
  forall (s : JsString.t) (inside : bool),
    length s <= n -> stripBlocks d inside s `sublist_of` s.
Proof.
  induction n as [|n IH]; intros s inside Hn.
  - destruct s; [constructor | simpl in Hn; lia].
  - destruct s as [|c1 r]; [constructor|]. simpl in Hn.
    assert (Hstep : (if inside then stripBlocks d true r
                     else c1 :: stripBlocks d false r) `sublist_of` c1 :: r).
    { destruct inside; constructor; apply IH; lia. }
    cbn [stripBlocks].
    destruct r as [|c2 [|c3 r3]]; try exact Hstep.
    destruct (_ && _); [|exact Hstep].
    simpl in Hn.
    destruct inside.
    + do 3 constructor. apply IH. lia.
    + destruct (hasDelim d r3); [|exact Hstep].
      do 3 constructor. apply IH. lia.
Qed.

Lemma stripBlocks_sublist (d : ascii) (inside : bool) (s : JsString.t) :
  stripBlocks d inside s `sublist_of` s.
Proof. apply (stripBlocks_sublist_bounded d (length s)). lia. Qed.

(** X1. [removeComments] only deletes characters, the text it returns is a
    subsequence of its argument, and it deletes every [#]. *)
Theorem X1_removeComments_only_deletes (code : JsString.t) :
  removeComments code `sublist_of` code /\ ~ In "#"%char (removeComments code).
Proof.
  split; [|apply removeComments_no_hash].
  unfold removeComments.
  etransitivity; [apply stripBlocks_sublist|].
  etransitivity; [apply stripBlocks_sublist|].
  apply stripLineComments_sublist.
Qed.

(** X2. [normalizeWhitespace] returns a text without blank lines and without
    white space at the ends of a line: the empty text, or lines that are not
    empty and that [trim] leaves alone. Such a text is a fixed point, so the
    function is idempotent. *)
Theorem X2_normalizeWhitespace_normal_form (code : JsString.t) :
  let out := normalizeWhitespace code in
  normalizeWhitespace out = out
  /\ (out = [] \/ Forall (fun line => line <> [] /\ trim line = line) (split "010" out)).
Proof.
  intros out. split; [apply normalizeWhitespace_idempotent|].
  unfold out. destruct (normalizeWhitespace_lines code) as (ls & -> & H).
  destruct ls as [|l ls]; [now left|]. right.
  rewrite split_join; [|discriminate|].
  - eapply List.Forall_impl; [|exact H]. intros l0 [Ht _]. split.
    + intros ->. destruct Ht as [Ht _]. discriminate.
    + now apply tight_trim.
  - eapply List.Forall_impl; [|exact H]. now intros l0 [_ Hn].
Qed.

(** X3. Whatever the setting of the anonymization, the text [normalizeCode]
    returns holds no [#] and is in the normal form of [normalizeWhitespace]. *)
Theorem X3_normalizeCode_shape (code : JsString.t) (normalizeVars : bool) :
  ~ In "#"%char (normalizeCode code normalizeVars)
  /\ normalizeWhitespace (normalizeCode code normalizeVars)
     = normalizeCode code normalizeVars.
Proof. split; [apply normalizeCode_no_hash | apply normalizeCode_whitespace]. Qed.

Lemma buildMapping_complete (tokens : list JsString.t) (acc : mapping) (n : nat) t :
  In t tokens -> isKeyword t = false -> In t (map fst (buildMapping tokens acc n)).
Proof.
  revert acc n. induction tokens as [|t' ts IH]; intros acc n; simpl; [tauto|].
  intros [->|Hin] Hk.
  - rewrite Hk. simpl. destruct (mappingHas acc t) eqn:Eh; simpl.
    + apply mappingHas_spec in Eh.
      destruct (buildMapping_prefix ts acc n) as [ext ->].
      rewrite map_app, in_app_iff. now left.
    + destruct (buildMapping_prefix ts (acc ++ [(t, varName n)]) (S n)) as [ext ->].
      rewrite !map_app, !in_app_iff. simpl. auto.
  - destruct (_ && _); now apply IH.
Qed.

(** X4. [normalizeVariableNames] changes words only: the text it returns
    lexes to the pieces of its argument with the replacements applied to each
    word, so operators, punctuation, white space and line breaks stay in
    place. The replacements leave keywords alone, and every word that is not
    an identifier of the text. *)
Theorem X4_normalizeVariableNames_words_only (code : JsString.t) :
  let m := buildMapping (matchTokens code) [] 0 in
  lex (normalizeVariableNames code) = map (onWord (seqsub m)) (lex code)
  /\ (forall x, isKeyword x = true -> seqsub m x = x)
  /\ (forall x, ~ In x (matchTokens code) -> seqsub m x = x).
Proof.
  intros m.
  assert (Hwb : wellBuilt m (length m)) by apply buildMapping_wellBuilt, wellBuilt_nil.
  split; [|split].
  - rewrite normalizeVariableNames_rename. apply lex_rename.
    intros x. apply seqsub_isWord. eapply wellBuilt_validNames, Hwb.
  - intros x Hx. apply seqsub_notin. intros Hin.
    destruct Hwb as (_ & _ & Hk). rewrite List.Forall_forall in Hk.
    apply Hk in Hin. congruence.
  - intros x Hx. apply seqsub_notin. intros Hin.
    apply buildMapping_keys in Hin as [[]|Hin]. contradiction.
Qed.

(** X5. When no identifier is spelled like the generic name of an identifier
    seen before it, [normalizeVariableNames] gives the [i]-th different
    identifier the name [var<i>] at each of its occurrences, and the
    identifiers of the text it returns are, in the order of their first
    occurrence, [var0], [var1], ... *)
Theorem X5_normalizeVariableNames_canonical (code : JsString.t) :
  let m := buildMapping (matchTokens code) [] 0 in
  captureFree m 0 = true ->
  matchTokens (normalizeVariableNames code) = map (seqsub m) (matchTokens code)
  /\ (forall i original normalized,
         m !! i = Some (original, normalized) -> seqsub m original = varName i)
  /\ map fst (buildMapping (matchTokens (normalizeVariableNames code)) [] 0)
     = map varName (seq 0 (length m)).
Proof.
  intros m Hcf.
  assert (Hwb : wellBuilt m (length m)) by apply buildMapping_wellBuilt, wellBuilt_nil.
  pose proof (matchTokens_rename code) as Ht. cbv zeta in Ht. fold m in Ht.
  rewrite normalizeVariableNames_rename. fold m. split; [exact Ht|]. split.
  - intros i o v Hi.
    apply list_elem_of_split_length in Hi as (m1 & m2 & Hm & Hlen).
    rewrite (seqsub_entry m (length m) m1 o v m2 Hwb Hcf Hm).
    rewrite Hlen. eapply wellBuilt_name; [exact Hwb | exact Hm].
  - rewrite Ht. change (@nil (JsString.t * JsString.t)) with (diag []).
    rewrite (buildMapping_diag (matchTokens code) [] 0 m wellBuilt_nil eq_refl Hcf).
    unfold diag. rewrite map_map. simpl. destruct Hwb as (Hs & _).
    rewrite <- Hs. now apply map_ext.
Qed.

End NormalizerProperties.

Lemma X5_normalizeVariableNames_canonical_witness :
  let code := str "def area(w, h):
return w * h
print(area(2, 3))" in
  let m := CodeNormalizer.buildMapping (CodeNormalizer.matchTokens code) [] 0 in
  CodeNormalizer.matchTokens (CodeNormalizer.normalizeVariableNames code)
  = map (Canonical.seqsub m) (CodeNormalizer.matchTokens code)
  /\ (forall i original normalized,
         m !! i = Some (original, normalized) ->
         Canonical.seqsub m original = CodeNormalizer.varName i)
  /\ map fst (CodeNormalizer.buildMapping
                (CodeNormalizer.matchTokens (CodeNormalizer.normalizeVariableNames code))
                [] 0)
     = map CodeNormalizer.varName (seq 0 (length m)).
Proof.
  apply (X5_normalizeVariableNames_canonical (str "def area(w, h):
return w * h
print(area(2, 3))")).
  vm_compute. reflexivity.
Defined.

(** ** Renaming the identifiers of a text *)

Section RenamingInvariance.

Import CodeNormalizer Canonical Renaming.

Lemma rename_ext_words (f g : JsString.t -> JsString.t) (s : JsString.t) :
  (forall x, In x (words (lex s)) -> f x = g x) -> rename f s = rename g s.
Proof.
  unfold rename. intros H. f_equal.
  induction (lex s) as [|[w|c] ps IH]; simpl in *; [reflexivity| |].
  - rewrite H, IH by auto. reflexivity.
  - now rewrite IH.
Qed.

Lemma matchTokens_words (w x : JsString.t) :
  In x (matchTokens w) <-> In x (words (lex w)) /\ identStart x = true.
Proof. unfold matchTokens. apply filter_In. Qed.

(** The first loop on the renamed tokens builds the renamed mapping. *)
Lemma buildMapping_mapKeys (f : JsString.t -> JsString.t) (scope : list JsString.t)
      (tokens : list JsString.t) (acc : mapping) (n : nat) :
  (forall x y, In x scope -> In y scope -> f x = f y -> x = y) ->
  (forall x, In x tokens -> isKeyword (f x) = isKeyword x) ->
  (forall x, In x tokens -> In x scope) ->
  (forall x, In x (map fst acc) -> In x scope) ->
  buildMapping (map f tokens) (mapKeys f acc) n = mapKeys f (buildMapping tokens acc n).
Proof.
  intros Hinj. revert acc n.
  induction tokens as [|t ts IH]; intros acc n Hk Hts Hacc; [reflexivity|].
  cbn [map buildMapping].
  rewrite Hk by now left.
  assert (Hhas : mappingHas (mapKeys f acc) (f t) = mappingHas acc t).
  { apply eq_true_iff_eq. rewrite !mappingHas_spec.
    unfold mapKeys. rewrite map_map. simpl. rewrite in_map_iff. split.
    - intros ([o v] & Ho & Hin). simpl in Ho.
      assert (Ho' : In o (map fst acc)) by (apply in_map_iff; exists (o, v); auto).
      apply Hinj in Ho; [now subst | now apply Hacc | apply Hts; now left].
    - intros ([o v] & <- & Hin)%in_map_iff. exists (o, v). auto. }
  rewrite Hhas.
  destruct (negb (isKeyword t) && negb (mappingHas acc t)).
  - replace (mapKeys f acc ++ [(f t, varName n)])
      with (mapKeys f (acc ++ [(t, varName n)]))
      by (unfold mapKeys; now rewrite map_app).
    apply IH.
    + intros x Hx. apply Hk. now right.
    + intros x Hx. apply Hts. now right.
    + intros x. rewrite map_app, in_app_iff. simpl.
      intros [H|[<-|[]]]; [now apply Hacc | apply Hts; now left].
  - apply IH.
    + intros x Hx. apply Hk. now right.
    + intros x Hx. apply Hts. now right.
    + exact Hacc.
Qed.

(** X6. Two texts that differ by a renaming of their identifiers are
    anonymized to the same text, provided that in neither of them an
    identifier is spelled like the generic name of an identifier seen before
    it. *)
Theorem X6_normalizeVariableNames_renaming
        (f : JsString.t -> JsString.t) (code : JsString.t) :
  renames f code ->
  captureFree (buildMapping (matchTokens code) [] 0) 0 = true ->
  captureFree (buildMapping (matchTokens (rename f code)) [] 0) 0 = true ->
  normalizeVariableNames (rename f code) = normalizeVariableNames code.
Proof.
  intros (Hword & Hinj & Hkind) Hcf1 Hcf2.
  set (ws := words (lex code)) in *.
  assert (Hstart : forall x, In x ws -> identStart (f x) = identStart x).
  { intros x Hx. specialize (Hkind x Hx).
    destruct (isKeyword x), (identStart x) eqn:E; simpl in Hkind;
      try (rewrite Hkind; exact E). tauto. }
  assert (Hkw : forall x, In x (matchTokens code) -> isKeyword (f x) = isKeyword x).
  { intros x [Hx Hs]%matchTokens_words. specialize (Hkind x Hx).
    rewrite Hs in Hkind. destruct (isKeyword x) eqn:E; simpl in Hkind;
      [rewrite Hkind; exact E | tauto]. }
  (* the tokens and the mapping of the renamed text *)
  assert (Ht : matchTokens (rename f code) = map f (matchTokens code)).
  { unfold matchTokens. rewrite lex_rename by exact Hword.
    rewrite words_onWord. apply (filter_map_comm identStart). exact Hstart. }
  set (m := buildMapping (matchTokens code) [] 0) in *.
  assert (Hm : buildMapping (matchTokens (rename f code)) [] 0 = mapKeys f m).
  { rewrite Ht. apply (buildMapping_mapKeys f ws (matchTokens code) [] 0).
    - exact Hinj.
    - exact Hkw.
    - now intros x [Hx _]%matchTokens_words.
    - intros x []. }
  rewrite Hm in Hcf2.
  assert (Hwb : wellBuilt m (length m)) by apply buildMapping_wellBuilt, wellBuilt_nil.
  assert (Hwb' : wellBuilt (mapKeys f m) (length (mapKeys f m))).
  { rewrite <- Hm. apply buildMapping_wellBuilt, wellBuilt_nil. }
  rewrite (normalizeVariableNames_rename (rename f code)), Hm.
  rewrite rename_compose by exact Hword.
  rewrite normalizeVariableNames_rename. fold m.
  apply rename_ext_words. fold ws. intros x Hx.
  destruct (decide (x ∈ map fst m)) as [Hin|Hin]; rewrite list_elem_of_In in Hin.
  - apply in_map_iff in Hin as ([o v] & Ho & Hin). simpl in Ho. subst o.
    apply in_split in Hin as (m1 & m2 & Hsplit).
    rewrite (seqsub_entry m _ m1 x v m2 Hwb Hcf1 Hsplit).
    apply (seqsub_entry _ _ (mapKeys f m1) (f x) v (mapKeys f m2) Hwb' Hcf2).
    rewrite Hsplit. unfold mapKeys. now rewrite map_app.
  - rewrite (seqsub_notin m x Hin).
    assert (Hfix : f x = x).
    { specialize (Hkind x Hx).
      destruct (negb (isKeyword x) && identStart x) eqn:E; [|exact Hkind].
      apply andb_prop in E as [Ek Es]. apply negb_true_iff in Ek.
      exfalso. apply Hin. apply buildMapping_complete; [|exact Ek].
      now apply matchTokens_words. }
    rewrite Hfix. apply seqsub_notin.
    unfold mapKeys. rewrite map_map. simpl.
    intros ([o v] & Ho & Hino)%in_map_iff. simpl in Ho.
    assert (Ho' : In o (map fst m)) by (apply in_map_iff; exists (o, v); auto).
    apply Hin. replace x with o; [exact Ho'|].
    apply Hinj; [|exact Hx | congruence].
    apply buildMapping_keys in Ho' as [[]|Ho']. now apply matchTokens_words in Ho'.
Qed.

End RenamingInvariance.

Lemma X6_normalizeVariableNames_renaming_witness :
  let f := Canonical.subst1 (str "x") (str "y") in
  let code := str "x=1
print(x)" in
  CodeNormalizer.normalizeVariableNames (Canonical.rename f code)
  = CodeNormalizer.normalizeVariableNames code.
Proof.
  apply (X6_normalizeVariableNames_renaming
           (Canonical.subst1 (str "x") (str "y")) (str "x=1
print(x)")).
  - split; [|split].
    + intros x Hx. apply subst1_isWord; [|exact Hx].
      split; [discriminate | repeat constructor].
    + intros x y Hx Hy. vm_compute in Hx, Hy.
      destruct Hx as [<-|[<-|[<-|[<-|[]]]]]; destruct Hy as [<-|[<-|[<-|[<-|[]]]]];
        vm_compute; intros H; try reflexivity; discriminate H.
    + intros x Hx. vm_compute in Hx.
      destruct Hx as [<-|[<-|[<-|[<-|[]]]]]; vm_compute; auto.
  - vm_compute. reflexivity.
  - vm_compute. reflexivity.
Defined.

(** ** The run of the detector *)

Section RunProperties.

Local Open Scope Q_scope.
Import PlagiarismDetector.





(** A notebook with a markdown cell, a number, a code cell without source
    and two code cells; and the same notebook with a [null] cell behind. *)
Lemma extractCode_mixed :
  NotebookParser.extractCodeFromNotebook
    (fun _ => Some (Json.Object [(str "cells", Json.Array Notebooks.mixed)]))
    (str "nb.ipynb")
  = str "x = 1

y = 2
print(y)"
  /\ NotebookParser.extractCodeFromNotebook
       (fun _ => Some (Json.Object
                         [(str "cells", Json.Array (Notebooks.mixed ++ [Json.Null]))]))
       (str "nb.ipynb")
     = [].
Proof. split; reflexivity. Qed.

Lemma processFiles_cons self fs f l :
  processFiles self fs (f :: l) []
  = match processFile self fs f with Some p => [p] | None => [] end
      ++ processFiles self fs l [].
Proof.
  simpl. destruct (processFile self fs f); [|reflexivity].
  now rewrite processFiles_acc.
Qed.

Lemma processFiles_lookup self fs filesData p :
  In p (processFiles self fs filesData []) ->
  exists i f, filesData !! i = Some f /\ processFile self fs f = Some p.
Proof.
  intros (f & Hin & Hp)%processFiles_In.
  apply list_elem_of_In, list_elem_of_lookup in Hin as [i Hi]. eauto.
Qed.

(** The pairs of the processed files come from two positions of the batch,
    the first in front of the second. *)
Lemma pairs_processFiles self fs filesData a b :
  In (a, b) (pairs (processFiles self fs filesData [])) ->
  exists i j fa fb,
    (i < j)%nat
    /\ filesData !! i = Some fa /\ filesData !! j = Some fb
    /\ processFile self fs fa = Some a /\ processFile self fs fb = Some b.
Proof.
  induction filesData as [|f l IH]; [intros []|].
  rewrite processFiles_cons.
  assert (Hrest : In (a, b) (pairs (processFiles self fs l [])) ->
                  exists i j fa fb,
                    (i < j)%nat
                    /\ (f :: l) !! i = Some fa /\ (f :: l) !! j = Some fb
                    /\ processFile self fs fa = Some a
                    /\ processFile self fs fb = Some b).
  { intros (i & j & fa & fb & Hij & Hi & Hj & Ha & Hb)%IH.
    exists (S i), (S j), fa, fb. simpl. repeat split; auto. lia. }
  destruct (processFile self fs f) as [p|] eqn:Ep; [|exact Hrest].
  simpl. rewrite in_app_iff, in_map_iff.
  intros [(y & [= <- <-] & Hy)|H]; [|now apply Hrest].
  apply processFiles_lookup in Hy as (j & fb & Hj & Hb).
  exists 0%nat, (S j), f, fb. simpl. repeat split; auto. lia.
Qed.

Lemma detectPlagiarism_In self fs filesData r :
  In r (detectPlagiarism self fs filesData) ->
  exists a b, In (a, b) (pairs (processFiles self fs filesData []))
              /\ In r (comparePair self a b).
Proof.
  rewrite detectPlagiarism_spec. intros H.
  apply (Permutation_in _ (sort_perm _)) in H.
  unfold discovered in H. apply in_flat_map in H as ([a b] & Hp & Hr). eauto.
Qed.

(** X8. Every entry of a run names two submissions of the batch, the first
    uploaded in front of the second, that both came through step 1 with a
    non-empty normalized text, and whose score reaches the threshold. A file
    that cannot be read or parsed, or whose code is empty after
    normalization, is in no entry. *)
Theorem X8_entries_name_processed_pairs
        (self : PlagiarismDetector.t) (fs : NotebookParser.fileSystem)
        (filesData : list FileData.t) (r : Result.t) :
  In r (detectPlagiarism self fs filesData) ->
  exists i j fa fb a b,
    (i < j)%nat
    /\ filesData !! i = Some fa /\ filesData !! j = Some fb
    /\ processFile self fs fa = Some a /\ processFile self fs fb = Some b
    /\ is_Some (fs (FileData.file_path fa)) /\ is_Some (fs (FileData.file_path fb))
    /\ truthy (ProcessedFile.normalized_code a) = true
    /\ truthy (ProcessedFile.normalized_code b) = true
    /\ Result.fileA_id r = FileData.file_id fa
    /\ Result.fileB_id r = FileData.file_id fb
    /\ Result.studentA r = FileData.student_name fa
    /\ Result.studentB r = FileData.student_name fb
    /\ threshold self <= pairSimilarity a b.
Proof.
  intros (a & b & Hp & Hr)%detectPlagiarism_In.
  apply pairs_processFiles in Hp as (i & j & fa & fb & Hij & Hi & Hj & Ha & Hb).
  exists i, j, fa, fb, a, b.
  pose proof (processFile_truthy _ _ _ _ Ha) as Hta.
  pose proof (processFile_truthy _ _ _ _ Hb) as Htb.
  assert (Hread : forall f p, processFile self fs f = Some p ->
                          is_Some (fs (FileData.file_path f))).
  { intros f p Hf. unfold processFile, NotebookParser.extractCodeFromNotebook in Hf.
    destruct (fs (FileData.file_path f)); [eauto|].
    destruct (normalizeVars self); discriminate. }
  assert (Hida : ProcessedFile.file_id a = FileData.file_id fa
                 /\ ProcessedFile.student_name a = FileData.student_name fa).
  { unfold processFile in Ha. destruct (negb _); [discriminate|].
    injection Ha as <-. auto. }
  assert (Hidb : ProcessedFile.file_id b = FileData.file_id fb
                 /\ ProcessedFile.student_name b = FileData.student_name fb).
  { unfold processFile in Hb. destruct (negb _); [discriminate|].
    injection Hb as <-. auto. }
  unfold comparePair in Hr. destruct (Js.geb _ _) eqn:E; [|destruct Hr].
  apply geb_spec in E. destruct Hr as [<-|[]]. simpl.
  repeat split; try tauto; try congruence; eapply Hread; eassumption.
Qed.

Lemma pairs_length {A} (l : list A) :
  (2 * length (pairs l) = length l * (length l - 1))%nat.
Proof.
  induction l as [|a l IH]; [reflexivity|].
  simpl pairs. rewrite length_app, length_map. simpl length.
  destruct l as [|b l]; [reflexivity|]. simpl length in *. nia.
Qed.

Lemma discovered_length self fs filesData :
  (length (discovered self fs filesData)
   <= length (pairs (processFiles self fs filesData [])))%nat.
Proof.
  unfold discovered. induction (pairs _) as [|[a b] ps IH]; simpl; [lia|].
  rewrite length_app. unfold compared at 1. simpl.
  unfold comparePair. destruct (Js.geb _ _); simpl; lia.
Qed.

(** X9. A run over [n] files has at most [n (n - 1) / 2] entries: a pair of
    files gives at most one entry. *)
Theorem X9_run_size
        (self : PlagiarismDetector.t) (fs : NotebookParser.fileSystem)
        (filesData : list FileData.t) :
  (2 * length (detectPlagiarism self fs filesData)
   <= length filesData * (length filesData - 1))%nat.
Proof.
  rewrite detectPlagiarism_spec, (Permutation_length (sort_perm _)).
  pose proof (discovered_length self fs filesData) as Hd.
  pose proof (pairs_length (processFiles self fs filesData [])) as Hp.
  pose proof (processFiles_length self fs filesData) as Hl.
  nia.
Qed.

Lemma round_bounds (x : Q) (lo hi : Z) :
  inject_Z lo <= x -> x <= inject_Z hi ->
  inject_Z lo <= Js.round x <= inject_Z hi.
Proof.
  intros Hlo Hhi. unfold Js.round. rewrite <- !Zle_Qle. split.
  - apply Qfloor_resp_le in Hlo. rewrite Qfloor_Z in Hlo.
    etransitivity; [exact Hlo|]. apply Qfloor_resp_le. lra.
  - assert (H : x + (1 # 2) < inject_Z (hi + 1)).
    { rewrite inject_Z_plus. change (inject_Z 1) with 1. lra. }
    pose proof (Qfloor_le (x + (1 # 2))) as Hf.
    assert (Hlt : inject_Z (Qfloor (x + (1 # 2))) < inject_Z (hi + 1)) by lra.
    rewrite <- Zlt_Qlt in Hlt. lia.
Qed.



End RunProperties.

Lemma X8_entries_name_processed_pairs_witness :
  let self := Examples.detector 0.5 in
  let r := hd (Samples.entry "none" 0)
              (PlagiarismDetector.detectPlagiarism self Examples.disk Examples.batch) in
  exists i j fa fb a b,
    i < j
    /\ Examples.batch !! i = Some fa /\ Examples.batch !! j = Some fb
    /\ PlagiarismDetector.processFile self Examples.disk fa = Some a
    /\ PlagiarismDetector.processFile self Examples.disk fb = Some b
    /\ is_Some (Examples.disk (FileData.file_path fa))
    /\ is_Some (Examples.disk (FileData.file_path fb))
    /\ truthy (ProcessedFile.normalized_code a) = true
    /\ truthy (ProcessedFile.normalized_code b) = true
    /\ Result.fileA_id r = FileData.file_id fa
    /\ Result.fileB_id r = FileData.file_id fb
    /\ Result.studentA r = FileData.student_name fa
    /\ Result.studentB r = FileData.student_name fb
    /\ (PlagiarismDetector.threshold self <= PlagiarismDetector.pairSimilarity a b)%Q.
Proof.
  apply (X8_entries_name_processed_pairs (Examples.detector 0.5) Examples.disk
           Examples.batch).
  vm_compute. left. reflexivity.
Defined.


(** ** A text against itself *)

Section SelfSimilarity.

Local Open Scope Q_scope.
Import PlagiarismDetector StringSimilarity.

Lemma compareTwoStrings_refl (a : JsString.t) : compareTwoStrings a a = 1.
Proof. unfold compareTwoStrings, eqb. now rewrite bool_decide_eq_true_2. Qed.

Lemma lowerChar_word_not_space (c : ascii) :
  isWordChar (lowerChar c) = true -> isSpace c = false.
Proof.
  destruct c as [[] [] [] [] [] [] [] []]; vm_compute; congruence.
Qed.

Lemma split_cover (sep c : ascii) (s : JsString.t) :
  In c s -> c <> sep -> exists l, In l (split sep s) /\ In c l.
Proof.
  induction s as [|x r IH]; [intros []|]. intros Hin Hne. simpl.
  destruct (Ascii.eqb_spec x sep) as [->|Hx].
  - destruct Hin as [->|Hin]; [congruence|].
    destruct (IH Hin Hne) as (l & Hl & Hc). exists l. simpl. auto.
  - destruct (split sep r) as [|l0 ls] eqn:E.
    + exists [x]. destruct Hin as [->|Hin]; [simpl; auto|].
      destruct (IH Hin Hne) as (l & [] & _).
    + destruct Hin as [->|Hin]; [exists (c :: l0); simpl; auto|].
      destruct (IH Hin Hne) as (l & [<-|Hl] & Hc).
      * exists (x :: l0). simpl. auto.
      * exists l. simpl. auto.
Qed.

Lemma trimStart_keeps (l : JsString.t) (c : ascii) :
  In c l -> isSpace c = false -> In c (trimStart l).
Proof.
  induction l as [|x r IH]; [intros []|]. intros Hin Hc. simpl.
  destruct (isSpace x) eqn:E; [|exact Hin].
  destruct Hin as [->|Hin]; [congruence | now apply IH].
Qed.

Lemma trim_keeps (l : JsString.t) (c : ascii) :
  In c l -> isSpace c = false -> In c (trim l).
Proof.
  intros Hin Hc. unfold trim, trimEnd.
  apply in_rev. rewrite rev_involutive. apply trimStart_keeps; [|exact Hc].
  apply -> in_rev. now apply trimStart_keeps.
Qed.

(** A text with a token has a line that is not blank. *)
Lemma tokens_nonBlankLines (a : JsString.t) :
  WordTokenizer.tokenize (toLowerCase a) <> [] -> nonBlankLines a <> [].
Proof.
  unfold WordTokenizer.tokenize. intros Ht.
  destruct (words (lex (toLowerCase a))) as [|w ws] eqn:E; [congruence|].
  assert (Hw : In w (words (lex (toLowerCase a)))) by (rewrite E; now left).
  pose proof (lex_words_isWord _ _ Hw) as [Hne Hall].
  destruct w as [|c w]; [congruence|].
  assert (Hc : In c (toLowerCase a)).
  { rewrite <- (unlex_lex (toLowerCase a)). eapply words_In; [exact Hw | now left]. }
  unfold toLowerCase in Hc. apply in_map_iff in Hc as (c0 & <- & Hc0).
  inversion Hall as [|? ? Hword _]; subst.
  apply lowerChar_word_not_space in Hword.
  destruct (split_cover "010" c0 a Hc0) as (l & Hl & Hcl).
  { intros ->. discriminate. }
  unfold nonBlankLines. intros Hnil.
  assert (Hin : In l (List.filter (fun line => truthy (trim line)) (split "010" a))).
  { apply filter_In. split; [exact Hl|].
    pose proof (trim_keeps l c0 Hcl Hword) as Hk. now destruct (trim l). }
  rewrite Hnil in Hin. destruct Hin.
Qed.

Lemma covered_self (a line : JsString.t) :
  In line (nonBlankLines a) -> Spec.covered a line = true.
Proof.
  intros H. unfold Spec.covered. apply existsb_exists. exists line.
  split; [exact H|]. unfold Spec.dice. now rewrite compareTwoStrings_refl.
Qed.

Lemma filter_all {A} (P : A -> bool) (l : list A) :
  (forall x, In x l -> P x = true) -> List.filter P l = l.
Proof.
  induction l as [|x l IH]; intros H; simpl; [reflexivity|].
  rewrite H by now left. f_equal. apply IH. intros y Hy. apply H. now right.
Qed.

Lemma ratio_self (n : nat) : Js.ofNat (S n) / Js.ofNat (S n) == 1.
Proof.
  apply Qmult_inv_r. intros H.
  pose proof (ofNat_pos (S n)) as Hp. rewrite H in Hp.
  apply (Qlt_irrefl 0), Hp. lia.
Qed.

(** X11. [calculateSimilarity] of a non-empty text with itself is at least
    0.4, the weight of the character signal, and it is 1 when the text has a
    token. A text without a token stays below 1, so the score of 100 of two
    equal submissions comes from the duplicate check. *)
Theorem X11_self_similarity (a : JsString.t) :
  truthy a = true ->
  0.4 <= calculateSimilarity a a <= 1
  /\ (WordTokenizer.tokenize (toLowerCase a) <> [] -> calculateSimilarity a a == 1)
  /\ (WordTokenizer.tokenize (toLowerCase a) = [] -> calculateSimilarity a a <= 0.7).
Proof.
  intros Ha. rewrite calculateSimilarity_blend by exact Ha.
  unfold Spec.dice. rewrite compareTwoStrings_refl.
  pose proof (jaccard_nonneg a a) as Hj. pose proof (coverage_nonneg a a) as Hc.
  assert (Hcov : Spec.coverage a a <= 1).
  { unfold Spec.coverage. rewrite Nat.max_id.
    rewrite filter_all by apply covered_self.
    destruct (length (nonBlankLines a)); [lra | rewrite ratio_self; lra]. }
  split; [|split].
  - split; [|apply min_le_r].
    unfold Js.min. destruct (Qle_bool _ 1); lra.
  - intros Ht.
    assert (Hjac : Spec.jaccard a a == 1).
    { clear Hj. unfold Spec.jaccard, Spec.tokenSet.
      rewrite (idemp_L (∪)), (idemp_L (∩)).
      set (X := list_to_set _ : gset JsString.t).
      destruct (size X) as [|n] eqn:E; [|apply ratio_self].
      apply size_empty_inv in E. apply leibniz_equiv in E. unfold X in E.
      destruct (WordTokenizer.tokenize (toLowerCase a)) as [|w ws]; [congruence|].
      simpl in E. set_solver. }
    assert (Hcov1 : Spec.coverage a a == 1).
    { unfold Spec.coverage. rewrite Nat.max_id.
      rewrite filter_all by apply covered_self.
      pose proof (tokens_nonBlankLines a Ht) as Hl.
      destruct (nonBlankLines a); [congruence | apply ratio_self]. }
    unfold Js.min.
    destruct (Qle_bool _ 1) eqn:E; [|reflexivity]. rewrite Hjac, Hcov1. reflexivity.
  - intros Ht.
    assert (Hjac : Spec.jaccard a a = 0).
    { unfold Spec.jaccard, Spec.tokenSet. rewrite Ht. reflexivity. }
    rewrite Hjac. unfold Js.min. destruct (Qle_bool _ 1) eqn:E.
    + lra.
    + apply not_true_iff_false in E. rewrite Qle_bool_iff in E. lra.
Qed.

End SelfSimilarity.

Lemma X11_self_similarity_witness :
  (0.4 <= PlagiarismDetector.calculateSimilarity (str "x = 1") (str "x = 1") <= 1)%Q
  /\ (WordTokenizer.tokenize (toLowerCase (str "x = 1")) <> [] ->
      (PlagiarismDetector.calculateSimilarity (str "x = 1") (str "x = 1") == 1)%Q)
  /\ (WordTokenizer.tokenize (toLowerCase (str "x = 1")) = [] ->
      (PlagiarismDetector.calculateSimilarity (str "x = 1") (str "x = 1") <= 0.7)%Q).
Proof.
  apply (X11_self_similarity (str "x = 1")). reflexivity.
Defined.

(** ** The entries of the line matcher *)

Section LineEntriesProperties.

Local Open Scope Q_scope.
Import PlagiarismDetector StringSimilarity LineEntries.

Lemma bag_size (l : list JsString.t) :
  size (list_to_set_disj l : gmultiset JsString.t) = length l.
Proof.
  induction l as [|x l IH].
  - exact (@gmultiset_size_empty JsString.t _ _).
  - rewrite list_to_set_disj_cons.
    now rewrite gmultiset_size_disj_union, gmultiset_size_singleton, IH.
Qed.

Lemma bigrams_length (s : JsString.t) : length (bigrams s) = (length s - 1)%nat.
Proof.
  induction s as [|a r IH]; [reflexivity|].
  destruct r as [|b r]; [reflexivity|].
  change (bigrams (a :: b :: r)) with ([a; b] :: bigrams (b :: r)).
  simpl length in *. lia.
Qed.

Lemma compareTwoStrings_le_1 (a b : JsString.t) : compareTwoStrings a b <= 1.
Proof.
  unfold compareTwoStrings.
  set (a' := List.filter _ a). set (b' := List.filter _ b).
  destruct (eqb a' b'); [lra|].
  destruct (_ || _) eqn:E; [lra|].
  apply orb_false_elim in E as [Ea Eb].
  apply Nat.ltb_ge in Ea, Eb.
  rewrite intersect_bigrams.
  assert (H1 : (size (bigramBag a' ∩ bigramBag b') <= length a' - 1)%nat).
  { rewrite <- bigrams_length, <- bag_size.
    apply gmultiset_subseteq_size. unfold bigramBag. multiset_solver. }
  assert (H2 : (size (bigramBag a' ∩ bigramBag b') <= length b' - 1)%nat).
  { rewrite <- bigrams_length, <- bag_size.
    apply gmultiset_subseteq_size. unfold bigramBag. multiset_solver. }
  apply Qle_shift_div_r.
  - change 0 with (inject_Z 0). rewrite <- Zlt_Qlt. lia.
  - rewrite Qmult_1_l, <- Zle_Qle. lia.
Qed.








End LineEntriesProperties.

(** ** The helpers of [utils.js] *)

Section UtilsProperties.

Import Utils.

Lemma titleCase_length (inMatch : bool) (s : JsString.t) :
  length (titleCase inMatch s) = length s.
Proof.
  revert inMatch. induction s as [|c r IH]; intros inMatch; simpl; [reflexivity|].
  destruct inMatch; [destruct (isSpace c) | destruct (isWordChar c)];
    simpl; now rewrite IH.
Qed.

Lemma lowerChar_facts (c : ascii) :
  lowerChar (lowerChar c) = lowerChar c
  /\ isSpace (lowerChar c) = isSpace c.
Proof. destruct c as [[] [] [] [] [] [] [] []]; vm_compute; auto. Qed.

Lemma upperWordChar_facts (c : ascii) :
  isWordChar c = true ->
  upperWordChar (upperWordChar c) = upperWordChar c
  /\ isWordChar (upperWordChar c) = true.
Proof.
  destruct c as [[] [] [] [] [] [] [] []]; vm_compute; auto; discriminate.
Qed.

Lemma titleCase_idempotent (inMatch : bool) (s : JsString.t) :
  titleCase inMatch (titleCase inMatch s) = titleCase inMatch s.
Proof.
  revert inMatch. induction s as [|c r IH]; intros inMatch; simpl; [reflexivity|].
  destruct inMatch.
  - destruct (isSpace c) eqn:Es; simpl.
    + now rewrite Es, IH.
    + destruct (lowerChar_facts c) as [Hl Hs]. now rewrite Hs, Es, Hl, IH.
  - destruct (isWordChar c) eqn:Ew; simpl.
    + destruct (upperWordChar_facts c Ew) as [Hu Hw]. now rewrite Hw, Hu, IH.
    + now rewrite Ew, IH.
Qed.

(** X13. [toTitleCase] is idempotent: a title-cased text is left as it is,
    whatever the mix of cases, separators and white space it came from. *)
Theorem X13_toTitleCase_idempotent (s : JsString.t) :
  toTitleCase (toTitleCase s) = toTitleCase s.
Proof. apply titleCase_idempotent. Qed.

(** X14. The text [sanitizeInput] returns has at most 1000 characters, all
    of them characters of its argument, and none of them an angle bracket. *)
Theorem X14_sanitizeInput_bounds (input : JsString.t) :
  length (sanitizeInput input) <= 1000
  /\ forall c, In c (sanitizeInput input) ->
               In c input /\ c <> "<"%char /\ c <> ">"%char.
Proof.
  unfold sanitizeInput. split; [apply firstn_le_length|].
  intros c Hc. apply list_elem_of_In in Hc.
  apply (sublist_subseteq _ _ (sublist_take _ 1000)) in Hc.
  apply list_elem_of_In in Hc.
  apply filter_In in Hc as [Hin Hf]. split; [now apply trim_In|].
  apply negb_true_iff, orb_false_elim in Hf as [H1 H2].
  split; intros ->; discriminate.
Qed.

Lemma joinWith_nonempty (sep x : JsString.t) (ls : list JsString.t) :
  x <> [] -> joinWith sep (x :: ls) <> [].
Proof.
  intros Hx. simpl. destruct ls; [exact Hx|].
  intros H. apply app_eq_nil in H as [H _]. contradiction.
Qed.

Lemma truthy_nonempty (s : JsString.t) : truthy s = true <-> s <> [].
Proof. destruct s; simpl; split; congruence. Qed.

Lemma toTitleCase_nonempty (s : JsString.t) : s <> [] -> toTitleCase s <> [].
Proof.
  intros Hs H. apply (f_equal (@length _)) in H.
  unfold toTitleCase in H. rewrite titleCase_length in H. now destruct s.
Qed.

Lemma toLowerCase_nonempty (s : JsString.t) : s <> [] -> toLowerCase s <> [].
Proof. destruct s; [congruence | discriminate]. Qed.

Lemma cleanParts_inl nameParts acc info :
  cleanParts nameParts acc = inl info -> StudentInfo.studentName info <> [].
Proof.
  revert acc. induction nameParts as [|part rest IH]; intros acc; simpl; [discriminate|].
  destruct (truthy part) eqn:Et; simpl; [|apply IH].
  destruct (isRoll part).
  - intros [= <-]. simpl. now apply toLowerCase_nonempty, truthy_nonempty.
  - destruct (allDigits part); [intros [= <-]; discriminate | apply IH].
Qed.

Lemma cleanParts_inr nameParts acc clean :
  cleanParts nameParts acc = inr clean ->
  Forall (fun p => p <> []) acc -> Forall (fun p => p <> []) clean.
Proof.
  revert acc. induction nameParts as [|part rest IH]; intros acc; simpl.
  - now intros [= <-].
  - destruct (truthy part) eqn:Et; simpl; [|apply IH].
    destruct (isRoll part); [discriminate|].
    destruct (allDigits part); [discriminate|].
    intros H Hacc. apply (IH _ H). apply List.Forall_app. split; [exact Hacc|].
    constructor; [now apply truthy_nonempty | constructor].
Qed.

Lemma underscoreInfo_name (baseName : JsString.t) :
  baseName <> [] -> StudentInfo.studentName (underscoreInfo baseName) <> [].
Proof.
  intros Hb. unfold underscoreInfo.
  set (parts := List.filter truthy (map trim (split "_" baseName))).
  assert (Hparts : Forall (fun p => p <> []) parts).
  { apply List.Forall_forall. intros p [_ Hp]%filter_In. now apply truthy_nonempty. }
  assert (Hmulti :
    StudentInfo.studentName
      match cleanParts
              (if findNameStart parts 0 0 <? length parts
               then skipn (findNameStart parts 0 0) parts
               else if 2 <=? length parts then skipn (length parts - 2) parts
                    else skipn (length parts - 1) parts) [] with
      | inl info => info
      | inr cleanNameParts =>
          if 0 <? length cleanNameParts then
            {| StudentInfo.studentName :=
                 toTitleCase (joinWith (str " ") cleanNameParts);
               StudentInfo.studentId :=
                 toLowerCase (joinWith (str "_") cleanNameParts) |}
          else
            {| StudentInfo.studentName :=
                 toTitleCase (map (fun c => if Ascii.eqb c "_" then " "%char else c)
                                  baseName);
               StudentInfo.studentId :=
                 spacesToUnderscore false (toLowerCase baseName) |}
      end <> []).
  { destruct (cleanParts _ []) as [info|clean] eqn:E.
    - eapply cleanParts_inl. exact E.
    - apply cleanParts_inr in E; [|constructor].
      destruct clean as [|x clean]; simpl.
      + apply toTitleCase_nonempty. now destruct baseName.
      + apply toTitleCase_nonempty. inversion E; subst.
        now apply (joinWith_nonempty (str " ") x clean). }
  destruct parts as [|part [|part' parts']]; try exact Hmulti.
  inversion Hparts; subst.
  destruct (isRoll part); [now apply toLowerCase_nonempty|].
  destruct (allDigits part); [discriminate|].
  now apply toTitleCase_nonempty.
Qed.

(** X15. [extractStudentInfo] gives every file name a student name that is
    not the empty string. *)
Theorem X15_extractStudentInfo_name (filename : JsString.t) :
  StudentInfo.studentName (extractStudentInfo filename) <> [].
Proof.
  unfold extractStudentInfo.
  set (baseName := trim (removeFirst (str ".ipynb") filename)).
  destruct (truthy baseName) eqn:Eb; simpl; [|discriminate].
  apply truthy_nonempty in Eb.
  pose proof (underscoreInfo_name baseName Eb) as Hu.
  assert (Hdash : forall parts otherwise,
             StudentInfo.studentName otherwise <> [] ->
             StudentInfo.studentName
               (if truthy (trim (List.last parts []))
                then dashInfo (trim (List.last parts [])) else otherwise) <> []).
  { intros parts otherwise Ho.
    destruct (truthy (trim (List.last parts []))) eqn:E; [|exact Ho].
    simpl. now apply toTitleCase_nonempty, truthy_nonempty. }
  repeat match goal with
         | |- context [if ?b then _ else _] =>
             lazymatch b with
             | truthy _ => fail
             | _ => destruct b
             end
         end;
    repeat first [exact Hu | apply Hdash].
Qed.

End UtilsProperties.

(** ** The file routes *)

Section FileRoutes.

Import Routes Traffic.

Lemma bulkLoop_spec (e : env) (c : nat) (files : list UploadedFile.t) :
  forall i up failed d removed,
  exists up' failed' docs removed',
    bulkLoop e c i files up failed d removed
    = (BulkUploaded (up ++ up') (failed ++ failed')
         (length (up ++ up')) (length (failed ++ failed')),
       withFiles d (Server.files d ++ docs), removed ++ removed')
    /\ length up' + length failed' = length files
    /\ map FileDoc.id docs = map UploadEntry.file_id up'
    /\ map FileDoc.upload_order docs = orders (c + length up + 1) (length up')
    /\ Forall extracted docs
    /\ Forall (fun doc => refused e doc = None) docs
    /\ Forall (fun doc => exists file,
                   In file files
                   /\ FileDoc.id doc = UploadedFile.name file
                   /\ FileDoc.filename doc = UploadedFile.originalname file
                   /\ FileDoc.file_path doc = UploadedFile.path file) docs
    /\ Forall (fun p => exists file,
                   In file files /\ p = UploadedFile.path file
                   /\ locked e p = false) removed'.
Proof.
  induction files as [|file rest IH]; intros i up failed d removed.
  - exists [], [], [], []. rewrite !app_nil_r. simpl.
    destruct d. repeat split; constructor.
  - simpl bulkLoop.
    set (doc := {| FileDoc.id := UploadedFile.name file |}).
    destruct (refused e doc) as [message|] eqn:Er.
    + destruct (IH (S i) up
                  (failed ++ [{| FailedEntry.filename := UploadedFile.originalname file;
                                 FailedEntry.error := message |}])
                  d (removed ++ removeQuietly e (UploadedFile.path file)))
        as (up' & failed' & docs & removed' & Heq & Hlen & Hid & Hord & Hex & Href & Hdoc & Hrem).
      exists up', ({| FailedEntry.filename := UploadedFile.originalname file;
                      FailedEntry.error := message |} :: failed'),
        docs, (removeQuietly e (UploadedFile.path file) ++ removed').
      split.
      { etransitivity; [exact Heq|]. now rewrite <- !app_assoc. }
      simpl. split; [lia|]. split; [exact Hid|]. split; [exact Hord|].
      split; [exact Hex|]. split; [exact Href|]. split.
      * eapply List.Forall_impl; [|exact Hdoc].
        intros a (f & Hf & H). exists f. split; [now right | exact H].
      * apply List.Forall_app. split.
        -- unfold removeQuietly.
           destruct (locked e _) eqn:El; [constructor|].
           constructor; [|constructor].
           exists file. split; [now left|]. split; [reflexivity | exact El].
        -- eapply List.Forall_impl; [|exact Hrem].
           intros a (f & Hf & H). exists f. split; [now right | exact H].
    + destruct (IH (S i)
                  (up ++ [{| UploadEntry.file_id := FileDoc.id doc;
                             UploadEntry.filename := UploadedFile.originalname file;
                             UploadEntry.student_name :=
                               StudentInfo.studentName
                                 (Utils.extractStudentInfo (UploadedFile.originalname file));
                             UploadEntry.student_id :=
                               StudentInfo.studentId
                                 (Utils.extractStudentInfo (UploadedFile.originalname file)) |}])
                  failed (insertOne doc d) removed)
        as (up' & failed' & docs & removed' & Heq & Hlen & Hid & Hord & Hex & Href & Hdoc & Hrem).
      exists ({| UploadEntry.file_id := FileDoc.id doc;
                 UploadEntry.filename := UploadedFile.originalname file;
                 UploadEntry.student_name :=
                   StudentInfo.studentName
                     (Utils.extractStudentInfo (UploadedFile.originalname file));
                 UploadEntry.student_id :=
                   StudentInfo.studentId
                     (Utils.extractStudentInfo (UploadedFile.originalname file)) |}
              :: up'), failed', (doc :: docs), removed'.
      split.
      { etransitivity; [exact Heq|]. unfold withFiles. simpl.
        now rewrite <- !app_assoc. }
      simpl. split; [lia|]. split; [now rewrite Hid|]. split.
      { rewrite Hord, length_app. simpl. unfold orders. simpl.
        replace (c + (length up + 1) + 1) with (S (c + length up + 1)) by lia.
        reflexivity. }
      split; [constructor; [split; reflexivity | exact Hex]|].
      split; [constructor; [exact Er | exact Href]|]. split.
      * constructor.
        -- exists file. split; [now left|]. repeat split.
        -- eapply List.Forall_impl; [|exact Hdoc].
           intros a (f & Hf & H). exists f. split; [now right | exact H].
      * eapply List.Forall_impl; [|exact Hrem].
        intros a (f & Hf & H). exists f. split; [now right | exact H].
Qed.

(** X16. A bulk upload that fits under the limit of 300 answers with one
    entry for each file of the request, uploaded or failed; the documents it
    adds are those of the uploaded entries, in order, with the student read
    off the file name and consecutive upload orders after the number of files
    stored before; the collection of runs is left alone. *)
Theorem X16_bulkUpload_outcome
        (e : env) (files : list UploadedFile.t) (d : Server.db) :
  files <> [] ->
  length (Server.files d) + length files <= 300 ->
  exists up failed docs removed,
    bulkUpload e files d
    = (BulkUploaded up failed (length up) (length failed),
       withFiles d (Server.files d ++ docs), removed)
    /\ length up + length failed = length files
    /\ map FileDoc.id docs = map UploadEntry.file_id up
    /\ map FileDoc.upload_order docs
       = orders (length (Server.files d) + 1) (length up)
    /\ Forall extracted docs.
Proof.
  intros Hne Hfit. unfold bulkUpload.
  destruct (length files =? 0) eqn:E0.
  { apply Nat.eqb_eq in E0. destruct files; [congruence | discriminate]. }
  destruct (300 <? _) eqn:E; [apply Nat.ltb_lt in E; lia|].
  destruct (bulkLoop_spec e (length (Server.files d)) files 0 [] [] d [])
    as (up & failed & docs & removed & H & Hlen & Hid & Hord & Hex & _).
  exists up, failed, docs, removed. simpl in H, Hord.
  rewrite Nat.add_0_r in Hord. auto.
Qed.

(** X17. A bulk upload that is empty or would take the number of stored
    files over 300 answers 400 and stores nothing; every file of the request
    whose removal succeeds is removed from the disk. *)
Theorem X17_bulkUpload_rejected
        (e : env) (files : list UploadedFile.t) (d : Server.db) :
  files = [] \/ 300 < length (Server.files d) + length files ->
  exists detail,
    bulkUpload e files d
    = (Status 400 detail, d,
       List.filter (fun p => negb (locked e p)) (map UploadedFile.path files)).
Proof.
  intros H. unfold bulkUpload.
  destruct (length files =? 0) eqn:E0.
  { apply Nat.eqb_eq in E0. destruct files; [|discriminate].
    eexists. reflexivity. }
  destruct H as [->|H]; [discriminate|].
  apply Nat.ltb_lt in H. rewrite H. eexists. do 2 f_equal.
  clear. induction files as [|f files IH]; [reflexivity|].
  simpl. rewrite IH. unfold removeQuietly.
  now destruct (locked e (UploadedFile.path f)).
Qed.

Lemma find_split (fileId : JsString.t) (files : list FileDoc.t) :
  (Forall (fun f => FileDoc.id f <> fileId) files
   /\ List.find (fun f => eqb (FileDoc.id f) fileId) files = None
   /\ deleteOne fileId files = files)
  \/ exists l1 f l2,
       files = l1 ++ f :: l2
       /\ Forall (fun f => FileDoc.id f <> fileId) l1
       /\ FileDoc.id f = fileId
       /\ List.find (fun f => eqb (FileDoc.id f) fileId) files = Some f
       /\ deleteOne fileId files = l1 ++ l2.
Proof.
  induction files as [|g files IH]; [left; repeat split; constructor|].
  simpl. destruct (eqb (FileDoc.id g) fileId) eqn:E.
  - right. exists [], g, files. apply bool_decide_eq_true in E.
    repeat split; auto.
  - apply bool_decide_eq_false in E.
    destruct IH as [(Hall & Hf & Hd)|(l1 & f & l2 & -> & Hall & Hid & Hf & Hd)].
    + left. rewrite Hd. repeat split; auto.
    + right. exists (g :: l1), f, l2. rewrite Hd. repeat split; auto.
Qed.

(** X18. Deleting a file by identifier: when no stored document has the
    identifier the answer is 404 and nothing changes; otherwise the first
    document with that identifier is taken out, the others stay in their
    order, the runs are left alone, and the path removed from the disk is
    the path of the document taken out. *)
Theorem X18_deleteFile_first_match
        (e : env) (fileId : JsString.t) (d : Server.db) :
  (Forall (fun f => FileDoc.id f <> fileId) (Server.files d)
   /\ deleteFile e fileId d = (Status 404 (str "File not found"), d, []))
  \/ exists l1 f l2,
       Server.files d = l1 ++ f :: l2
       /\ Forall (fun f => FileDoc.id f <> fileId) l1
       /\ FileDoc.id f = fileId
       /\ deleteFile e fileId d
          = (Deleted, withFiles d (l1 ++ l2),
             if locked e (FileDoc.file_path f) then [] else [FileDoc.file_path f]).
Proof.
  unfold deleteFile.
  destruct (find_split fileId (Server.files d))
    as [(Hall & -> & Hd)|(l1 & f & l2 & Hs & Hall & Hid & -> & Hd)].
  - left. auto.
  - right. exists l1, f, l2. rewrite Hd. repeat split; auto.
Qed.

Lemma removeLoop_spec (e : env) (files : list FileDoc.t) :
  forall k f removed,
    removeLoop e files k f removed
    = (k + length (List.filter (fun p => negb (locked e p))
                               (map FileDoc.file_path files)),
       f + length (List.filter (locked e) (map FileDoc.file_path files)),
       removed ++ List.filter (fun p => negb (locked e p))
                              (map FileDoc.file_path files)).
Proof.
  induction files as [|g files IH]; intros k f removed; simpl.
  - now rewrite !Nat.add_0_r, app_nil_r.
  - destruct (locked e (FileDoc.file_path g)); simpl; rewrite IH.
    + f_equal. f_equal. lia.
    + rewrite <- app_assoc. simpl. f_equal. f_equal. lia.
Qed.

(** X19. Deleting all files empties the collection of files and leaves the
    runs alone; the paths removed are the stored paths whose removal
    succeeds, [deleted_files] counts them, [failed_files] the others, and
    the two add up to the number of records deleted. *)
Theorem X19_deleteAllFiles_counts (e : env) (d : Server.db) :
  let paths := map FileDoc.file_path (Server.files d) in
  let removed := List.filter (fun p => negb (locked e p)) paths in
  exists failed,
    deleteAllFiles e d
    = (DeletedAll (length removed) failed (length (Server.files d)),
       withFiles d [], removed)
    /\ failed = length (List.filter (locked e) paths)
    /\ length removed + failed = length (Server.files d).
Proof.
  intros paths removed. unfold deleteAllFiles.
  rewrite removeLoop_spec. simpl. eexists. split; [reflexivity|].
  split; [reflexivity|]. subst removed paths.
  rewrite <- (length_map FileDoc.file_path (Server.files d)).
  induction (map FileDoc.file_path (Server.files d)) as [|p ps IH]; [reflexivity|].
  simpl. destruct (locked e p); simpl; lia.
Qed.

Lemma upload_cases (e : env) file student_name student_id (d : Server.db) :
  snd (fst (upload e file student_name student_id d)) = d
  \/ (length (Server.files d) < 300
      /\ exists doc,
           snd (fst (upload e file student_name student_id d))
           = withFiles d (Server.files d ++ [doc])
           /\ FileDoc.upload_order doc
              = Some (Z.of_nat (length (Server.files d) + 1))).
Proof.
  unfold upload. destruct file as [file|]; [|now left].
  destruct (_ || _); [now left|].
  destruct (300 <=? _) eqn:E.
  { destruct (locked e _); now left. }
  apply Nat.leb_gt in E.
  destruct (refused e _); [now left|].
  right. split; [exact E|]. eexists. split; reflexivity.
Qed.

Lemma bulkUpload_cases (e : env) files (d : Server.db) :
  snd (fst (bulkUpload e files d)) = d
  \/ exists docs,
       snd (fst (bulkUpload e files d)) = withFiles d (Server.files d ++ docs)
       /\ length (Server.files d) + length docs <= 300
       /\ map FileDoc.upload_order docs
          = orders (length (Server.files d) + 1) (length docs).
Proof.
  destruct files as [|f files]; [now left|].
  destruct (le_gt_dec (length (Server.files d) + length (f :: files)) 300) as [H|H].
  - right.
    unfold bulkUpload. simpl (length (f :: files) =? 0).
    destruct (300 <? _) eqn:E; [apply Nat.ltb_lt in E; lia|].
    destruct (bulkLoop_spec e (length (Server.files d)) (f :: files) 0 [] [] d [])
      as (up & failed & docs & removed & -> & Hlen & Hid & Hord & _).
    exists docs. simpl. split; [reflexivity|].
    assert (Hl : length docs = length up).
    { rewrite <- (length_map FileDoc.id docs), Hid. apply length_map. }
    rewrite Hl. split; [lia|]. simpl in Hord. now rewrite Nat.add_0_r in Hord.
  - left. unfold bulkUpload. simpl (length (f :: files) =? 0).
    destruct (300 <? _) eqn:E; [reflexivity|]. apply Nat.ltb_ge in E. lia.
Qed.

Lemma deleteOne_sublist (fileId : JsString.t) (files : list FileDoc.t) :
  deleteOne fileId files `sublist_of` files.
Proof.
  induction files as [|g files IH]; simpl; [constructor|].
  destruct (eqb _ _); [now apply sublist_cons | now apply sublist_skip].
Qed.

(** What the routes keep true of the collection of files. *)
Lemma handle_within (e : env) (r : request) (d : Server.db) :
  length (Server.files d) <= 300 ->
  Forall (orderWithin 1 300) (Server.files d) ->
  length (Server.files (handle e r d)) <= 300
  /\ Forall (orderWithin 1 300) (Server.files (handle e r d)).
Proof.
  intros Hlen Hord. destruct r as [file sn si|files| |fileId| |e' t]; simpl.
  - destruct (upload_cases e file sn si d) as [->|(Hlt & doc & -> & Ho)]; [auto|].
    simpl. rewrite length_app. simpl. split; [lia|].
    apply List.Forall_app. split; [exact Hord|].
    constructor; [|constructor]. eexists. split; [exact Ho | lia].
  - destruct (bulkUpload_cases e files d) as [->|(docs & -> & Hfit & Ho)]; [auto|].
    simpl. rewrite length_app. split; [lia|].
    apply List.Forall_app. split; [exact Hord|].
    apply List.Forall_forall. intros doc Hin.
    apply (in_map FileDoc.upload_order) in Hin. rewrite Ho in Hin.
    unfold orders in Hin. apply in_map_iff in Hin as (k & Hk & Hin).
    apply in_seq in Hin. exists (Z.of_nat k). split; [now symmetry | lia].
  - auto.
  - unfold deleteFile. destruct (List.find _ _); [|auto]. simpl.
    pose proof (deleteOne_sublist fileId (Server.files d)) as Hs. split.
    + apply sublist_length in Hs. lia.
    + apply List.Forall_forall. intros f Hf.
      apply list_elem_of_In, (sublist_subseteq _ _ Hs), list_elem_of_In in Hf.
      revert f Hf. now apply List.Forall_forall.
  - unfold deleteAllFiles. destruct (removeLoop _ _ _ _ _) as [[? ?] ?]. simpl.
    split; [lia | constructor].
  - rewrite analyze_spec. destruct (_ <? 2); simpl; auto.
Qed.

(** X20. Whatever requests are served in turn, each answered before the
    next is taken up, starting with no stored file, the collection never
    holds more than 300 files, and every stored document has an upload order
    between 1 and 300. *)
Theorem X20_file_limit (rs : list (env * request)) :
  length (Server.files (serveInTurn rs empty)) <= 300
  /\ Forall (orderWithin 1 300) (Server.files (serveInTurn rs empty)).
Proof.
  unfold serveInTurn.
  assert (H : length (Server.files empty) <= 300
              /\ Forall (orderWithin 1 300) (Server.files empty)).
  { simpl. split; [lia | constructor]. }
  revert H. generalize empty.
  induction rs as [|[e r] rs IH]; intros d [H1 H2]; [now split|].
  simpl. apply IH. now apply handle_within.
Qed.

Lemma orders_app (first n m : nat) :
  orders first n ++ orders (first + n) m = orders first (n + m).
Proof. unfold orders. now rewrite <- map_app, <- seq_app. Qed.

Lemma handle_orders (e : env) (r : request) (d : Server.db) :
  keepsOrder r ->
  map FileDoc.upload_order (Server.files d) = orders 1 (length (Server.files d)) ->
  map FileDoc.upload_order (Server.files (handle e r d))
  = orders 1 (length (Server.files (handle e r d))).
Proof.
  intros Hk Hord. destruct r as [file sn si|files| |fileId| |e' t]; simpl.
  - destruct (upload_cases e file sn si d) as [->|(Hlt & doc & -> & Ho)]; [auto|].
    simpl. rewrite map_app, length_app, Hord, <- orders_app. simpl.
    rewrite Ho. unfold orders. simpl. do 3 f_equal. lia.
  - destruct (bulkUpload_cases e files d) as [->|(docs & -> & Hfit & Ho)]; [auto|].
    simpl. rewrite map_app, length_app, Hord, Ho, <- orders_app.
    do 2 f_equal. lia.
  - auto.
  - destruct Hk.
  - unfold deleteAllFiles. destruct (removeLoop _ _ _ _ _) as [[? ?] ?]. reflexivity.
  - rewrite analyze_spec. destruct (_ <? 2); simpl; auto.
Qed.

(** X21. When the requests are served in turn, each answered before the
    next is taken up, and no single file is deleted, the stored documents
    carry the upload orders 1, 2, 3, ... in the order in which they were
    stored. *)
Theorem X21_orders_consecutive (rs : list (env * request)) :
  Forall keepsOrder (map snd rs) ->
  map FileDoc.upload_order (Server.files (serveInTurn rs empty))
  = orders 1 (length (Server.files (serveInTurn rs empty))).
Proof.
  unfold serveInTurn.
  assert (H : map FileDoc.upload_order (Server.files empty)
              = orders 1 (length (Server.files empty))) by reflexivity.
  revert H. generalize empty.
  induction rs as [|[e r] rs IH]; intros d H Hk; [exact H|].
  simpl in Hk. inversion Hk; subst. simpl. apply IH; [|assumption].
  now apply handle_orders.
Qed.

End FileRoutes.

Lemma X16_bulkUpload_outcome_witness :
  exists up failed docs removed,
    Routes.bulkUpload Traffic.picky
      [Traffic.file "alice"; Traffic.file "bob"; Traffic.file "carol"]
      Traffic.empty
    = (Routes.BulkUploaded up failed (length up) (length failed),
       Traffic.withFiles Traffic.empty (Server.files Traffic.empty ++ docs),
       removed)
    /\ length up + length failed = 3
    /\ map FileDoc.id docs = map UploadEntry.file_id up
    /\ map FileDoc.upload_order docs
       = Traffic.orders (length (Server.files Traffic.empty) + 1) (length up)
    /\ Forall Traffic.extracted docs.
Proof.
  apply (X16_bulkUpload_outcome Traffic.picky
           [Traffic.file "alice"; Traffic.file "bob"; Traffic.file "carol"]
           Traffic.empty).
  - discriminate.
  - simpl. lia.
Defined.

Lemma X17_bulkUpload_rejected_witness :
  exists detail,
    Routes.bulkUpload Traffic.quiet [Traffic.file "alice"]
      (Traffic.withFiles Traffic.empty (repeat (Requests.doc "a") 300))
    = (Routes.Status 400 detail,
       Traffic.withFiles Traffic.empty (repeat (Requests.doc "a") 300),
       List.filter (fun p => negb (Routes.locked Traffic.quiet p))
                   (map UploadedFile.path [Traffic.file "alice"])).
Proof.
  apply (X17_bulkUpload_rejected Traffic.quiet [Traffic.file "alice"]
           (Traffic.withFiles Traffic.empty (repeat (Requests.doc "a") 300))).
  right. simpl. lia.
Defined.

Lemma X21_orders_consecutive_witness :
  let rs :=
    [(Traffic.quiet,
      Traffic.Upload (Some (Traffic.file "dave")) (Some (str "Dave")) (Some (str "d4")));
     (Traffic.picky,
      Traffic.BulkUpload [Traffic.file "alice"; Traffic.file "bob"; Traffic.file "carol"]);
     (Traffic.quiet, Traffic.FilesCount)] in
  map FileDoc.upload_order (Server.files (Traffic.serveInTurn rs Traffic.empty))
  = Traffic.orders 1 (length (Server.files (Traffic.serveInTurn rs Traffic.empty))).
Proof.
  apply (X21_orders_consecutive
           [(Traffic.quiet,
             Traffic.Upload (Some (Traffic.file "dave")) (Some (str "Dave")) (Some (str "d4")));
            (Traffic.picky,
             Traffic.BulkUpload [Traffic.file "alice"; Traffic.file "bob"; Traffic.file "carol"]);
            (Traffic.quiet, Traffic.FilesCount)]).
  simpl. repeat constructor.
Defined.

(** ** Runs and their summaries *)

Section RunSummaries.

Local Open Scope Q_scope.
Import PlagiarismDetector Routes.

(** X22. The analysis compares the first 100 stored files and no others:
    with two or more files stored it answers with the run of the detector on
    them, which counts at most 100 files and 4950 matches; with fewer it
    answers 400. The stored files are never changed. *)
Theorem X22_analyze_window (e : Server.env) (threshold : option Q) (d : Server.db) :
  Server.files (snd (Server.analyze e threshold d)) = Server.files d
  /\ match fst (Server.analyze e threshold d) with
     | Server.Json run =>
         (2 <= length (Server.files d))%nat
         /\ AnalysisResult.total_files run
            = Nat.min 100 (length (Server.files d))
         /\ AnalysisResult.total_matches run = length (AnalysisResult.results run)
         /\ (AnalysisResult.total_matches run <= 4950)%nat
         /\ AnalysisResult.results run
            = detectPlagiarism (PlagiarismDetector.mk (default 0.5 threshold) true)
                (Server.fs e)
                (map Server.toFileData (firstn 100 (Server.files d)))
     | Server.Status status _ =>
         status = 400%nat /\ (length (Server.files d) < 2)%nat
     end.
Proof.
  rewrite analyze_spec. destruct (length (Server.files d) <? 2)%nat eqn:E; simpl.
  { apply Nat.ltb_lt in E. auto. }
  apply Nat.ltb_ge in E. rewrite firstn_firstn, length_firstn.
  change (Nat.min 100 300) with 100%nat.
  split; [reflexivity|]. split; [exact E|]. split; [reflexivity|].
  split; [reflexivity|]. split; [|reflexivity].
  set (filesData := map Server.toFileData (firstn 100 (Server.files d))).
  set (self := PlagiarismDetector.mk (default 0.5 threshold) true).
  assert (Hn : (length filesData <= 100)%nat).
  { unfold filesData. rewrite length_map, length_firstn. lia. }
  rewrite detectPlagiarism_spec, (Permutation_length (sort_perm _)).
  pose proof (discovered_length self (Server.fs e) filesData) as Hd.
  pose proof (pairs_length (processFiles self (Server.fs e) filesData [])) as Hp.
  pose proof (processFiles_length self (Server.fs e) filesData) as Hl.
  nia.
Qed.

Lemma maxOf_fold (xs : list Q) :
  forall x,
    let m := fold_left (fun m y => if Qle_bool m y then y else m) xs x in
    (m = x \/ In m xs) /\ x <= m /\ forall y, In y xs -> y <= m.
Proof.
  induction xs as [|z xs IH]; intros x; simpl.
  - split; [now left|]. split; [lra | tauto].
  - destruct (Qle_bool x z) eqn:E.
    + apply Qle_bool_iff in E.
      destruct (IH z) as (Hin & Hle & Hall).
      split; [right; destruct Hin as [->|Hin]; auto|].
      split; [lra|]. intros y [<-|Hy]; auto.
    + assert (Hzx : z <= x).
      { destruct (Qlt_le_dec x z) as [H|H]; [|exact H].
        apply Qlt_le_weak, Qle_bool_iff in H. congruence. }
      destruct (IH x) as (Hin & Hle & Hall).
      split; [destruct Hin as [->|Hin]; auto|].
      split; [exact Hle|]. intros y [<-|Hy]; [lra | auto].
Qed.

Lemma maxOf_spec (x : Q) (xs : list Q) :
  In (maxOf (x :: xs)) (x :: xs) /\ forall y, In y (x :: xs) -> y <= maxOf (x :: xs).
Proof.
  destruct (maxOf_fold xs x) as (Hin & Hle & Hall). simpl maxOf. split.
  - destruct Hin as [->|Hin]; [now left | now right].
  - intros y [<-|Hy]; auto.
Qed.

Lemma orZero_eq (s : Q) : (if Qeq_bool s 0 then 0 else s) == s.
Proof.
  destruct (Qeq_bool s 0) eqn:E; [|reflexivity].
  apply Qeq_bool_iff in E. now symmetry.
Qed.

Lemma geb_orZero (s c : Q) :
  Js.geb (if Qeq_bool s 0 then 0 else s) c = Js.geb s c.
Proof.
  unfold Js.geb. pose proof (orZero_eq s) as H.
  set (z := if Qeq_bool s 0 then 0 else s) in *.
  destruct (Qle_bool c z) eqn:Ez, (Qle_bool c s) eqn:Es; try reflexivity.
  - apply Qle_bool_iff in Ez. assert (H' : c <= s) by lra.
    apply Qle_bool_iff in H'. congruence.
  - apply Qle_bool_iff in Es. assert (H' : c <= z) by lra.
    apply Qle_bool_iff in H'. congruence.
Qed.

Lemma risk_partition (xs : list Q) :
  (count (fun s => Js.geb s 70) xs
   + count (fun s => Js.geb s 40 && Js.gtb 70 s) xs
   + count (fun s => Js.gtb 40 s) xs = length xs)%nat.
Proof.
  unfold count. induction xs as [|x xs IH]; [reflexivity|]. simpl.
  unfold Js.gtb, Js.geb in *.
  destruct (Qle_bool 70 x) eqn:E70, (Qle_bool 40 x) eqn:E40; simpl; try lia.
  apply Qle_bool_iff in E70.
  assert (H : 40 <= x) by lra. apply Qle_bool_iff in H. congruence.
Qed.

Lemma maxOf_map (rs : list Result.t) :
  let similarities :=
    map (fun r => if Qeq_bool (Result.similarity r) 0 then 0
                  else Result.similarity r) rs in
  rs <> [] ->
  (forall r, In r rs -> Result.similarity r <= maxOf similarities)
  /\ exists r, In r rs /\ Result.similarity r == maxOf similarities.
Proof.
  intros similarities Hne. destruct rs as [|r0 rest]; [congruence|].
  subst similarities. rewrite map_cons.
  set (f := fun r => if Qeq_bool (Result.similarity r) 0 then 0
                     else Result.similarity r).
  destruct (maxOf_spec (f r0) (map f rest)) as [Hin Hall].
  set (m := maxOf (f r0 :: map f rest)) in *.
  change (In m (map f (r0 :: rest))) in Hin. split.
  - intros r Hr. specialize (Hall (f r) (in_map f (r0 :: rest) r Hr)).
    pose proof (orZero_eq (Result.similarity r)) as He.
    change (f r == Result.similarity r) in He.
    change (Result.similarity r <= m). lra.
  - apply in_map_iff in Hin as (r & Hr & Hin). exists r. split; [exact Hin|].
    change (Result.similarity r == m).
    rewrite <- Hr. symmetry. apply orZero_eq.
Qed.

(** X23. The history statistics of a run: the high, medium and low risk
    counts add up to the number of entries; no entry has a similarity above
    [max_similarity], and a run with entries has an entry of that
    similarity. *)
Theorem X23_summarize_counts (result : AnalysisResult.t) :
  let s := summarize result in
  let results := AnalysisResult.results result in
  (Summary.high_risk_count s + Summary.medium_risk_count s
   + Summary.low_risk_count s = length results)%nat
  /\ (forall r, In r results -> Result.similarity r <= Summary.max_similarity s)
  /\ (results = []
      \/ exists r, In r results /\ Result.similarity r == Summary.max_similarity s).
Proof.
  intros s results. subst s. unfold summarize. fold results.
  destruct results as [|r0 rest] eqn:Er.
  { simpl. split; [reflexivity|]. split; [tauto | now left]. }
  change (0 <? length (r0 :: rest))%nat with true. cbv iota.
  cbn [Summary.high_risk_count Summary.medium_risk_count
       Summary.low_risk_count Summary.max_similarity].
  assert (Hne : r0 :: rest <> []) by discriminate.
  destruct (maxOf_map (r0 :: rest) Hne) as [Hall Hex].
  split; [|split].
  - rewrite risk_partition. apply length_map.
  - exact Hall.
  - right. exact Hex.
Qed.

Lemma entry_lines_high self fs filesData r :
  In r (detectPlagiarism self fs filesData) ->
  Result.matching_lines r <> [] -> 70 <= Result.similarity r.
Proof.
  intros (a & b & _ & Hr)%detectPlagiarism_In Hlines.
  unfold comparePair in Hr. destruct (Js.geb _ _); [|destruct Hr].
  destruct Hr as [<-|[]]. simpl in *.
  pose proof (pairSimilarity_range a b) as [H0 H1].
  set (s := pairSimilarity a b) in *.
  destruct (Js.gtb s 0.7) eqn:E; [|congruence].
  apply gtb_spec in E.
  destruct (round_bounds (s * 100 * 100) 7000 10000) as [Hr7 _];
    [change (inject_Z 7000) with 7000; lra
    | change (inject_Z 10000) with 10000; lra|].
  change (inject_Z 7000) with 7000 in Hr7.
  unfold Qdiv. change (/ 100) with (1 # 100). lra.
Qed.

Lemma high_risk_lines (rs : list Result.t) :
  Forall (fun r => Result.matching_lines r <> [] -> 70 <= Result.similarity r) rs ->
  (length (List.filter (fun r => 0 <? length (Result.matching_lines r))%nat rs)
   <= count (fun s => Js.geb s 70%Q)
        (map (fun r => if Qeq_bool (Result.similarity r) 0%Q then 0%Q
                       else Result.similarity r) rs))%nat.
Proof.
  unfold count. induction 1 as [|r rs Hr _ IH]; simpl; [lia|].
  rewrite geb_orZero.
  destruct (0 <? length (Result.matching_lines r))%nat eqn:E; simpl.
  - assert (H70 : 70 <= Result.similarity r).
    { apply Hr. intros Hnil. rewrite Hnil in E. discriminate. }
    apply Qle_bool_iff in H70.
    change (Js.geb (Result.similarity r) 70) with (Qle_bool 70 (Result.similarity r)).
    rewrite H70. simpl. lia.
  - destruct (Js.geb _ _); simpl; lia.
Qed.

(** X24. The history statistics of a run the analysis saved:
    [max_similarity] is the similarity of the first entry of the run, and
    every entry that lists matching lines is counted as high risk. *)
Theorem X24_history_of_run
        (e : Server.env) (threshold : option Q) (d : Server.db)
        (run : AnalysisResult.t) :
  fst (Server.analyze e threshold d) = Server.Json run ->
  let s := summarize run in
  (forall r0 rest,
      AnalysisResult.results run = r0 :: rest ->
      Summary.max_similarity s == Result.similarity r0)
  /\ (length (List.filter (fun r => 0 <? length (Result.matching_lines r))%nat
                          (AnalysisResult.results run))
      <= Summary.high_risk_count s)%nat.
Proof.
  rewrite analyze_spec. destruct (_ <? 2)%nat; [discriminate|].
  simpl fst. intros [= <-]. intros s. subst s. unfold summarize.
  cbn [AnalysisResult.results].
  set (rs := detectPlagiarism _ _ _).
  assert (Hsorted : StronglySorted descending rs).
  { unfold rs. rewrite detectPlagiarism_spec. apply sort_sorted. }
  assert (Hlines : Forall (fun r => Result.matching_lines r <> []
                                    -> 70 <= Result.similarity r) rs).
  { apply List.Forall_forall. intros r Hr. eapply entry_lines_high. exact Hr. }
  destruct rs as [|r0 rest] eqn:Ers.
  { simpl. split; [discriminate | lia]. }
  change (0 <? length (r0 :: rest))%nat with true. cbv iota.
  cbn [Summary.high_risk_count Summary.max_similarity]. split.
  - intros r0' rest' [= <- <-].
    assert (Hne : r0 :: rest <> []) by discriminate.
    destruct (maxOf_map (r0 :: rest) Hne) as [Hall (r & Hr & Hmax)].
    specialize (Hall r0 (or_introl eq_refl)).
    assert (Hle : Result.similarity r <= Result.similarity r0).
    { destruct Hr as [<-|Hr]; [lra|].
      apply StronglySorted_inv in Hsorted as [_ Hd].
      rewrite List.Forall_forall in Hd. apply (Hd r Hr). }
    lra.
  - apply high_risk_lines. exact Hlines.
Qed.

End RunSummaries.

Lemma X24_history_of_run_witness :
  let run :=
    {| AnalysisResult.id := Server.uuidv4 Requests.env;
       AnalysisResult.analysis_timestamp := Server.now Requests.env;
       AnalysisResult.threshold := 0.5%Q;
       AnalysisResult.results :=
         PlagiarismDetector.detectPlagiarism
           (PlagiarismDetector.mk 0.5%Q true) (Server.fs Requests.env)
           (map Server.toFileData (Server.files Requests.stored));
       AnalysisResult.total_files := 3;
       AnalysisResult.total_matches := 1 |} in
  let s := Routes.summarize run in
  (forall r0 rest,
      AnalysisResult.results run = r0 :: rest ->
      (Summary.max_similarity s == Result.similarity r0)%Q)
  /\ length (List.filter (fun r => 0 <? length (Result.matching_lines r))
                         (AnalysisResult.results run))
     <= Summary.high_risk_count s.
Proof.
  apply (X24_history_of_run Requests.env None Requests.stored).
  vm_compute. reflexivity.
Defined.

(** ** File names with a dash *)

Section DashPatterns.

Import Utils.








Lemma includes_nil (a : ascii) (sep' : JsString.t) : includes (a :: sep') [] = false.
Proof. reflexivity. Qed.




End DashPatterns.


(** * The score in binary64 *)

(** ** Rounding to the nearest double *)

Section Rounding.

Local Open Scope Q_scope.
Import Binary64.

Lemma pow2_pos (e : Z) : 0 < pow2 e.
Proof. apply Qpower_0_lt. reflexivity. Qed.

Lemma pow2_plus (a b : Z) : pow2 (a + b) == pow2 a * pow2 b.
Proof. apply Qpower_plus. discriminate. Qed.

Lemma pow2_Z (n : Z) : (0 <= n)%Z -> pow2 n == inject_Z (2 ^ n).
Proof. intros H. unfold pow2. now rewrite Zpower_Qpower. Qed.

Lemma nearestEven_error (y : Q) :
  y - (1 # 2) <= inject_Z (nearestEven y) <= y + (1 # 2).
Proof.
  unfold nearestEven. pose proof (Qfloor_le y) as Hlo.
  pose proof (Qlt_floor y) as Hhi. rewrite inject_Z_plus in Hhi.
  change (inject_Z 1) with 1 in Hhi.
  destruct (Qcompare_spec (y - inject_Z (Qfloor y)) (1 # 2)) as [H|H|H].
  - destruct (Z.even _); [|rewrite inject_Z_plus; change (inject_Z 1) with 1]; lra.
  - lra.
  - rewrite inject_Z_plus. change (inject_Z 1) with 1. lra.
Qed.

Lemma Qabs_quot (x : Q) :
  Qabs x * inject_Z (Zpos (Qden x)) == inject_Z (Z.abs (Qnum x)).
Proof. destruct x as [n d]. unfold Qabs, Qeq, Qmult, inject_Z. simpl. lia. Qed.

Lemma Qnum_nonzero (x : Q) : ~ x == 0 -> (0 < Z.abs (Qnum x))%Z.
Proof.
  intros Hx. assert (Hn : Qnum x <> 0%Z); [|lia].
  intros Hn. apply Hx. destruct x as [n d]. simpl in Hn. now subst.
Qed.

(** The exponent is the integer part of the binary logarithm. *)
Lemma exponent_spec (x : Q) :
  ~ x == 0 -> pow2 (exponent x) <= Qabs x < pow2 (exponent x + 1).
Proof.
  intros Hx. unfold exponent.
  set (a := Z.abs (Qnum x)). set (d := Zpos (Qden x)).
  assert (Ha : (0 < a)%Z) by now apply Qnum_nonzero.
  assert (Hd : (0 < d)%Z) by (unfold d; lia).
  pose proof (Z.log2_spec a Ha) as [Hla Hla'].
  pose proof (Z.log2_spec d Hd) as [Hld Hld'].
  pose proof (Z.log2_nonneg a) as Hna. pose proof (Z.log2_nonneg d) as Hnd.
  pose proof (Qabs_quot x) as Hq. fold a d in Hq.
  assert (Hdpos : 0 < inject_Z d) by (rewrite <- (Zlt_Qlt 0); lia).
  destruct (Qle_bool _ _) eqn:E.
  - apply Qle_bool_iff in E. split; [exact E|].
    (* a < 2^(la+1) and 2^ld <= d *)
    assert (H1 : pow2 (Z.log2 a - Z.log2 d + 1) * pow2 (Z.log2 d)
                 == pow2 (Z.succ (Z.log2 a))).
    { rewrite <- pow2_plus. f_equiv. lia. }
    rewrite (pow2_Z (Z.log2 d)), (pow2_Z (Z.succ (Z.log2 a))) in H1 by lia.
    pose proof (pow2_pos (Z.log2 a - Z.log2 d + 1)) as Hp.
    set (p := pow2 (Z.log2 a - Z.log2 d + 1)) in *.
    assert (Hdq : inject_Z (2 ^ Z.log2 d) <= inject_Z d) by (rewrite <- Zle_Qle; lia).
    assert (Haq : inject_Z a < inject_Z (2 ^ Z.succ (Z.log2 a)))
      by (rewrite <- Zlt_Qlt; lia).
    assert (H2 : Qabs x * inject_Z d < p * inject_Z d) by nra.
    nra.
  - replace (Z.log2 a - Z.log2 d - 1 + 1)%Z with (Z.log2 a - Z.log2 d)%Z by lia.
    split.
    + assert (H1 : pow2 (Z.log2 a - Z.log2 d - 1) * pow2 (Z.succ (Z.log2 d))
                   == pow2 (Z.log2 a)).
      { rewrite <- pow2_plus. f_equiv. lia. }
      rewrite (pow2_Z (Z.succ (Z.log2 d))), (pow2_Z (Z.log2 a)) in H1 by lia.
      pose proof (pow2_pos (Z.log2 a - Z.log2 d - 1)) as Hp.
      set (p := pow2 (Z.log2 a - Z.log2 d - 1)) in *.
      assert (Hdq : inject_Z d <= inject_Z (2 ^ Z.succ (Z.log2 d)))
        by (rewrite <- Zle_Qle; lia).
      assert (Haq : inject_Z (2 ^ Z.log2 a) <= inject_Z a) by (rewrite <- Zle_Qle; lia).
      assert (H2 : p * inject_Z d <= Qabs x * inject_Z d) by nra.
      nra.
    + destruct (Qlt_le_dec (Qabs x) (pow2 (Z.log2 a - Z.log2 d))) as [H|H];
        [exact H|].
      apply Qle_bool_iff in H. congruence.
Qed.

(** The double nearest to [x] is off by half a unit of the last place: by
    [|x| 2^-53] at most above 2^-1022, and by 2^-1075 at most below. *)
Lemma fl_error (x : Q) :
  x - (Qabs x * pow2 (-53) + pow2 (-1075)) <= fl x
  <= x + (Qabs x * pow2 (-53) + pow2 (-1075)).
Proof.
  unfold fl. destruct (Qeq_bool x 0) eqn:E0.
  { apply Qeq_bool_iff in E0. pose proof (Qabs_nonneg x).
    pose proof (pow2_pos (-53)). pose proof (pow2_pos (-1075)). nra. }
  assert (Hx : ~ x == 0).
  { intros H. apply Qeq_bool_iff in H. congruence. }
  cbv zeta. rewrite Qred_correct.
  set (e := Z.max (exponent x - 52) (-1074)).
  pose proof (nearestEven_error (x / pow2 e)) as [Hlo Hhi].
  pose proof (pow2_pos e) as He.
  set (m := inject_Z (nearestEven (x / pow2 e))) in *.
  assert (Hxe : x / pow2 e * pow2 e == x) by (field; lra).
  assert (Hhalf : pow2 (e - 1) * 2 == pow2 e).
  { replace e with ((e - 1) + 1)%Z at 2 by lia. rewrite pow2_plus. reflexivity. }
  assert (Hbound : pow2 (e - 1) <= Qabs x * pow2 (-53) + pow2 (-1075)).
  { pose proof (Qabs_nonneg x). pose proof (pow2_pos (-53)).
    pose proof (pow2_pos (-1075)).
    destruct (Z.max_spec (exponent x - 52) (-1074)) as [[_ Hm]|[_ Hm]]; fold e in Hm.
    - rewrite Hm. change (-1074 - 1)%Z with (-1075)%Z. nra.
    - rewrite Hm. replace (exponent x - 52 - 1)%Z with (exponent x + -53)%Z by lia.
      rewrite pow2_plus. pose proof (exponent_spec x Hx) as [Hex _]. nra. }
  set (y := x / pow2 e) in *. set (h := pow2 (e - 1)) in *. set (P := pow2 e) in *.
  split; nra.
Qed.

Lemma fl_nonneg (x : Q) : 0 <= x -> 0 <= fl x.
Proof.
  intros Hx. unfold fl. destruct (Qeq_bool x 0); [lra|]. cbv zeta.
  rewrite Qred_correct. set (e := Z.max _ _).
  pose proof (pow2_pos e) as He.
  assert (Hy : 0 <= x / pow2 e).
  { apply Qle_shift_div_l; [exact He | lra]. }
  assert (Hn : (0 <= nearestEven (x / pow2 e))%Z).
  { unfold nearestEven. apply Qfloor_resp_le in Hy. change (Qfloor 0) with 0%Z in Hy.
    destruct (Qcompare _ _); [destruct (Z.even _)|..]; lia. }
  assert (0 <= inject_Z (nearestEven (x / pow2 e))) by (rewrite <- (Zle_Qle 0); lia).
  nra.
Qed.

(** The result has a mantissa of 53 bits at most and an exponent of -1074
    at least. *)
Lemma fl_format (x : Q) :
  exists (m e : Z),
    fl x == inject_Z m * pow2 e
    /\ (Z.abs m <= 2 ^ 53)%Z /\ (-1074 <= e)%Z.
Proof.
  unfold fl. destruct (Qeq_bool x 0) eqn:E0.
  { exists 0%Z, 0%Z. split; [reflexivity | lia]. }
  assert (Hx : ~ x == 0).
  { intros H. apply Qeq_bool_iff in H. congruence. }
  cbv zeta. set (e := Z.max (exponent x - 52) (-1074)).
  exists (nearestEven (x / pow2 e)), e.
  split; [apply Qred_correct|]. split; [|lia].
  pose proof (nearestEven_error (x / pow2 e)) as [Hlo Hhi].
  pose proof (pow2_pos e) as He.
  pose proof (exponent_spec x Hx) as [_ Hup].
  assert (Hy : Qabs (x / pow2 e) <= inject_Z (2 ^ 53)).
  { assert (Hle : pow2 (exponent x + 1) <= inject_Z (2 ^ 53) * pow2 e).
    { rewrite <- (pow2_Z 53) by lia. rewrite <- pow2_plus.
      destruct (Z.max_spec (exponent x - 52) (-1074)) as [[Hlt Hm]|[Hlt Hm]];
        fold e in Hm; rewrite Hm.
      - assert (Hmono : forall a b, (a <= b)%Z -> pow2 a <= pow2 b).
        { intros a b Hab. replace b with (a + (b - a))%Z by lia.
          rewrite pow2_plus. rewrite (pow2_Z (b - a)) by lia.
          assert (1 <= inject_Z (2 ^ (b - a))).
          { rewrite <- (Zle_Qle 1). apply (Z.pow_le_mono_r 2 0 (b - a)); lia. }
          pose proof (pow2_pos a). nra. }
        apply Hmono. lia.
      - replace (53 + (exponent x - 52))%Z with (exponent x + 1)%Z by lia. lra. }
    unfold Qdiv. rewrite Qabs_Qmult.
    rewrite (Qabs_pos (/ pow2 e)) by (apply Qlt_le_weak, Qinv_lt_0_compat, He).
    apply Qle_shift_div_r; [exact He|]. lra. }
  apply Qabs_Qle_condition in Hy as [Hy1 Hy2].
  set (y := x / pow2 e) in *. set (n := nearestEven y) in *.
  assert (H1 : inject_Z n <= inject_Z (2 ^ 53) + (1 # 2)) by lra.
  assert (H2 : - inject_Z (2 ^ 53) - (1 # 2) <= inject_Z n) by lra.
  assert (H3 : inject_Z n < inject_Z (2 ^ 53 + 1)).
  { rewrite inject_Z_plus. change (inject_Z 1) with 1. lra. }
  assert (H4 : inject_Z (- 2 ^ 53 - 1) < inject_Z n).
  { unfold Z.sub. rewrite inject_Z_plus, inject_Z_opp.
    change (inject_Z (- (1))) with (- (1)). lra. }
  rewrite <- Zlt_Qlt in H3, H4. lia.
Qed.

(** The doubles of some decimal literals, and the sum [0.1 + 0.2]. *)
Lemma fl_known_values :
  fl 0.1 = 3602879701896397 # 36028797018963968
  /\ fl 0.3 = 5404319552844595 # 18014398509481984
  /\ add (fl 0.1) (fl 0.2) = 1351079888211149 # 4503599627370496
  /\ add (fl 0.1) (fl 0.2) <> fl 0.3
  /\ fl 1 = 1 /\ fl 100 = 100 /\ fl 0 = 0
  /\ fl 9007199254740993 = 9007199254740992.
Proof. vm_compute. repeat split; congruence. Qed.

(** The signals 7/10, 2/5 and 1/3 blend to 1/2 exactly and to the double
    below 1/2 in the program. *)
Lemma blend_below_half :
  0.4 * (7 # 10) + 0.3 * (2 # 5) + 0.3 * (1 # 3) == 1 # 2
  /\ add (add (mul (div 7 10) (fl 0.4)) (mul (div 2 5) (fl 0.3)))
         (mul (div 1 3) (fl 0.3))
     = 9007199254740991 # 18014398509481984.
Proof. split; reflexivity. Qed.

(** The error of one rounding, for an argument between [-B] and [B]. *)
Lemma fl_close (x B : Q) :
  - B <= x <= B ->
  x - (B * (1 # 9007199254740992) + (1 # 1267650600228229401496703205376))
  <= fl x
  <= x + (B * (1 # 9007199254740992) + (1 # 1267650600228229401496703205376)).
Proof.
  intros [Hlo Hhi]. pose proof (fl_error x) as [H1 H2].
  assert (Hu : pow2 (-53) == 1 # 9007199254740992) by reflexivity.
  assert (Ht : pow2 (-1075) <= 1 # 1267650600228229401496703205376).
  { apply Qle_bool_iff. vm_compute. reflexivity. }
  assert (Ha : Qabs x <= B) by (apply Qabs_Qle_condition; lra).
  pose proof (Qabs_nonneg x). rewrite Hu in H1, H2. nra.
Qed.

End Rounding.

(** ** The blend as the program computes it *)

Section ScoreInBinary64.

Local Open Scope Q_scope.
Import Binary64 PlagiarismDetector64.

Lemma compareTwoStrings_fl (a b : JsString.t) :
  StringSimilarity64.compareTwoStrings a b
  = fl (StringSimilarity.compareTwoStrings a b).
Proof.
  unfold StringSimilarity64.compareTwoStrings, StringSimilarity.compareTwoStrings.
  destruct (eqb _ _); [reflexivity|]. destruct (_ || _); reflexivity.
Qed.

Lemma nonBlank_existsb (l : JsString.t) :
  truthy (trim l) = existsb (fun c => negb (isSpace c)) l.
Proof.
  destruct (existsb _ l) eqn:E.
  - apply existsb_exists in E as (c & Hc & Hs). apply negb_true_iff in Hs.
    pose proof (trim_keeps l c Hc Hs) as Hin. now destruct (trim l).
  - destruct (trim_tight l) as [->|Ht]; [reflexivity|]. exfalso.
    destruct Ht as [Hh _]. destruct (trim l) as [|c r] eqn:Et; [discriminate|].
    simpl in Hh. assert (Hc : In c l) by (apply trim_In; rewrite Et; now left).
    assert (Hex : existsb (fun c => negb (isSpace c)) l = true).
    { apply existsb_exists. exists c. now rewrite Hh. }
    congruence.
Qed.

Lemma lines_nonBlankLines (text : JsString.t) :
  Blend.lines text = PlagiarismDetector.nonBlankLines text.
Proof.
  unfold Blend.lines, PlagiarismDetector.nonBlankLines.
  apply filter_ext. intros l. symmetry. apply nonBlank_existsb.
Qed.

Lemma lineHasMatch_covers (line : JsString.t) (b : JsString.t) :
  lineHasMatch line (PlagiarismDetector.nonBlankLines b) = Blend.covered b line.
Proof.
  unfold Blend.covered. rewrite lines_nonBlankLines.
  induction (PlagiarismDetector.nonBlankLines b) as [|l ls IH]; simpl; [reflexivity|].
  destruct (Js.gtb _ _); [reflexivity | exact IH].
Qed.

Lemma countMatchingLines_covers (lines1 : list JsString.t) (b : JsString.t) (n : nat) :
  countMatchingLines lines1 (PlagiarismDetector.nonBlankLines b) n
  = (n + length (List.filter (Blend.covered b) lines1))%nat.
Proof.
  revert n. induction lines1 as [|l ls IH]; intros n; simpl; [lia|].
  rewrite IH, lineHasMatch_covers. destruct (Blend.covered b l); simpl; lia.
Qed.

(** The code computes the blend of the three signals of the claim, every
    operation rounded. *)
Lemma calculateSimilarity_computed (a b : JsString.t) :
  truthy a = true -> truthy b = true ->
  calculateSimilarity a b = Blend.computed a b.
Proof.
  intros Ha Hb. unfold calculateSimilarity. rewrite Ha, Hb. simpl negb. cbv iota.
  cbv zeta. rewrite compareTwoStrings_fl.
  rewrite intersection_size, union_size, countMatchingLines_covers.
  unfold Blend.computed, Blend.coverage, Spec.jaccard, Spec.tokenSet, Spec.dice.
  rewrite !lines_nonBlankLines.
  destruct (size (_ ∪ _)) as [|n]; destruct (Nat.max _ _) as [|m]; reflexivity.
Qed.

Lemma ratio_le_1 (n d : nat) : (n <= d)%nat -> Js.ofNat n / Js.ofNat (S d) <= 1.
Proof.
  intros H. pose proof (ofNat_pos (S d) ltac:(lia)) as Hd.
  apply Qle_shift_div_r; [exact Hd|]. unfold Js.ofNat.
  rewrite Qmult_1_l, <- Zle_Qle. lia.
Qed.

Lemma dice_range (a b : JsString.t) : 0 <= Spec.dice a b <= 1.
Proof.
  unfold Spec.dice. split;
    [apply compareTwoStrings_nonneg | apply compareTwoStrings_le_1].
Qed.

Lemma jaccard_range (a b : JsString.t) : 0 <= Spec.jaccard a b <= 1.
Proof.
  split; [apply jaccard_nonneg|]. unfold Spec.jaccard.
  destruct (size (Spec.tokenSet a ∪ Spec.tokenSet b)) as [|n] eqn:E; [lra|].
  assert (H : (size (Spec.tokenSet a ∩ Spec.tokenSet b) <= S n)%nat).
  { rewrite <- E. apply subseteq_size.
    etransitivity; [apply intersection_subseteq_l | apply union_subseteq_l]. }
  pose proof (ofNat_pos (S n) ltac:(lia)) as Hd.
  apply Qle_shift_div_r; [exact Hd|]. unfold Js.ofNat.
  rewrite Qmult_1_l, <- Zle_Qle. lia.
Qed.

Lemma coverage_range (a b : JsString.t) : 0 <= Blend.coverage a b <= 1.
Proof.
  unfold Blend.coverage.
  destruct (Nat.max _ _) as [|n] eqn:E; [lra|].
  split; [apply ratio_nonneg|].
  pose proof (filter_length_le (Blend.covered b) (Blend.lines a)) as Hf.
  pose proof (ofNat_pos (S n) ltac:(lia)) as Hd.
  apply Qle_shift_div_r; [exact Hd|]. unfold Js.ofNat.
  rewrite Qmult_1_l, <- Zle_Qle. lia.
Qed.

Lemma exact_range (a b : JsString.t) : 0 <= Blend.exact a b <= 1.
Proof.
  pose proof (dice_range a b). pose proof (jaccard_range a b).
  pose proof (coverage_range a b). unfold Blend.exact. lra.
Qed.

Lemma clamp01_id (x : Q) : 0 <= x <= 1 -> Spec.clamp01 x = x.
Proof.
  intros [H0 H1]. unfold Spec.clamp01.
  destruct (Qlt_le_dec x 0); [lra|]. destruct (Qlt_le_dec 1 x); [lra | reflexivity].
Qed.

(** The rounding of the doubles moves the blend by less than 10^-15. *)
Lemma computed_close (a b : JsString.t) :
  Blend.exact a b - Blend.tolerance <= Blend.computed a b
  <= Blend.exact a b + Blend.tolerance
  /\ 0 <= Blend.computed a b <= 1.
Proof.
  pose proof (dice_range a b) as [HD0 HD1].
  pose proof (jaccard_range a b) as [HJ0 HJ1].
  pose proof (coverage_range a b) as [HL0 HL1].
  unfold Blend.computed, Blend.exact, Blend.tolerance, add, mul.
  set (D := Spec.dice a b) in *. set (J := Spec.jaccard a b) in *.
  set (L := Blend.coverage a b) in *.
  assert (Hc4 : fl 0.4 = 3602879701896397 # 9007199254740992)
    by (vm_compute; reflexivity).
  assert (Hc3 : fl 0.3 = 5404319552844595 # 18014398509481984)
    by (vm_compute; reflexivity).
  rewrite Hc4, Hc3.
  pose proof (fl_close D 1 ltac:(lra)) as [HD2 HD3].
  pose proof (fl_nonneg D HD0) as HD4. set (D' := fl D) in *.
  pose proof (fl_close J 1 ltac:(lra)) as [HJ2 HJ3].
  pose proof (fl_nonneg J HJ0) as HJ4. set (J' := fl J) in *.
  pose proof (fl_close L 1 ltac:(lra)) as [HL2 HL3].
  pose proof (fl_nonneg L HL0) as HL4. set (L' := fl L) in *.
  pose proof (fl_close (D' * (3602879701896397 # 9007199254740992)) (1 # 2)
                ltac:(lra)) as [Hp1 Hp1'].
  pose proof (fl_nonneg (D' * (3602879701896397 # 9007199254740992)) ltac:(lra))
    as Hp1''.
  set (p1 := fl (D' * _)) in *.
  pose proof (fl_close (J' * (5404319552844595 # 18014398509481984)) (1 # 2)
                ltac:(lra)) as [Hp2 Hp2'].
  pose proof (fl_nonneg (J' * (5404319552844595 # 18014398509481984)) ltac:(lra))
    as Hp2''.
  set (p2 := fl (J' * _)) in *.
  pose proof (fl_close (L' * (5404319552844595 # 18014398509481984)) (1 # 2)
                ltac:(lra)) as [Hp3 Hp3'].
  pose proof (fl_nonneg (L' * (5404319552844595 # 18014398509481984)) ltac:(lra))
    as Hp3''.
  set (p3 := fl (L' * _)) in *.
  pose proof (fl_close (p1 + p2) 1 ltac:(lra)) as [Hs1 Hs1'].
  pose proof (fl_nonneg (p1 + p2) ltac:(lra)) as Hs1''.
  set (s1 := fl (p1 + p2)) in *.
  pose proof (fl_close (s1 + p3) 2 ltac:(lra)) as [Hs2 Hs2'].
  pose proof (fl_nonneg (s1 + p3) ltac:(lra)) as Hs2''.
  set (s2 := fl (s1 + p3)) in *.
  unfold Js.min. destruct (Qle_bool s2 1) eqn:E.
  - apply Qle_bool_iff in E. lra.
  - apply not_true_iff_false in E. rewrite Qle_bool_iff in E. lra.
Qed.

(** The rounding of a score to a percentage of two decimals. *)
Lemma reported_close (x s : Q) :
  0 <= s <= 1 ->
  x - Blend.tolerance <= s <= x + Blend.tolerance ->
  Blend.reports x (div (Js.round (mul (mul s 100) 100)) 100).
Proof.
  intros [Hs0 Hs1] [Hx0 Hx1]. unfold Blend.tolerance in *. unfold div, mul.
  pose proof (fl_close (s * 100) 100 ltac:(lra)) as [Hy1 Hy1'].
  set (y1 := fl (s * 100)) in *.
  pose proof (fl_close (y1 * 100) 10001 ltac:(lra)) as [Hy2 Hy2'].
  set (y2 := fl (y1 * 100)) in *.
  destruct (round_spec y2) as (k & -> & Hk0 & Hk1).
  split; [now exists k|].
  set (q := inject_Z k / 100).
  assert (Hq : q == inject_Z k * (1 # 100)) by reflexivity.
  pose proof (fl_close q 101 ltac:(lra)) as [Hr Hr'].
  set (r := fl q) in *. lra.
Qed.

Lemma innerLoop_flat self fileA behind results :
  innerLoop self fileA behind results
  = results ++ flat_map (comparePair self fileA) behind.
Proof.
  revert results. induction behind as [|b l IH]; intros results; simpl.
  - now rewrite app_nil_r.
  - rewrite IH. now rewrite <- app_assoc.
Qed.

Lemma outerLoop_flat self files results :
  outerLoop self files results
  = results ++ flat_map (fun p => comparePair self (fst p) (snd p)) (pairs files).
Proof.
  revert results. induction files as [|a l IH]; intros results; simpl.
  - now rewrite app_nil_r.
  - rewrite IH, innerLoop_flat, flat_map_app, <- app_assoc. do 2 f_equal.
    clear. induction l as [|b l IH]; simpl; [reflexivity | now rewrite IH].
Qed.

Lemma insertSorted_In {A} (compare : A -> A -> Q) (x y : A) (l : list A) :
  In y (Js.insertSorted compare x l) <-> y = x \/ In y l.
Proof.
  induction l as [|z l IH]; simpl.
  - split; [intros [->|[]]; now left | intros [->|[]]; now left].
  - destruct (Qle_bool _ _); simpl.
    + split; [intros [->|H]; auto | intros [->|H]; auto].
    + rewrite IH. split; [intros [->|[->|H]]; auto | intros [->|[->|H]]; auto].
Qed.

Lemma sort_In {A} (compare : A -> A -> Q) (y : A) (l : list A) :
  In y (Js.sort compare l) <-> In y l.
Proof.
  induction l as [|x l IH]; simpl; [tauto|].
  rewrite insertSorted_In, IH. split; [intros [->|H]; auto | intros [->|H]; auto].
Qed.

(** Every entry a pair contributes is in the run. *)
Lemma comparePair_in_run self fs filesData fileA fileB r :
  In (fileA, fileB) (pairs (PlagiarismDetector.processFiles self fs filesData [])) ->
  In r (comparePair self fileA fileB) ->
  In r (detectPlagiarism self fs filesData).
Proof.
  intros Hp Hr. unfold detectPlagiarism.
  pose proof (processFiles_length self fs filesData) as Hlen.
  destruct (length filesData <? 2)%nat eqn:E1.
  { apply Nat.ltb_lt in E1. rewrite pairs_short in Hp by lia. destruct Hp. }
  destruct (length (PlagiarismDetector.processFiles self fs filesData []) <? 2)%nat
    eqn:E2.
  { apply Nat.ltb_lt in E2. rewrite pairs_short in Hp by lia. destruct Hp. }
  apply sort_In. rewrite outerLoop_flat. apply in_flat_map.
  exists (fileA, fileB). auto.
Qed.

(** C1, as the code has it. For two processed submissions with different
    fingerprints the score is the blend 0.4 Dice + 0.3 Jaccard + 0.3
    coverage computed in doubles: each signal, weight, product and sum is
    the nearest double, and the result is cut at 1. The Jaccard signal is
    |intersection| / |union| of the lower-case token sets, 0 for an empty
    union. The score is within 10^-15 of the exact blend; the pair is kept
    exactly when the score reaches the threshold, and its entry, which is
    part of the run, reports the double nearest to a whole number of
    hundredths that is off the exact percentage by half a hundredth and
    10^-9 at most. *)
Theorem C1_weighted_blend
        (self : PlagiarismDetector.t) (fs : NotebookParser.fileSystem)
        (filesData : list FileData.t) (fileA fileB : ProcessedFile.t) :
  In (fileA, fileB) (pairs (PlagiarismDetector.processFiles self fs filesData [])) ->
  ProcessedFile.code_hash fileA <> ProcessedFile.code_hash fileB ->
  let a := ProcessedFile.normalized_code fileA in
  let b := ProcessedFile.normalized_code fileB in
  let blend := Spec.clamp01 (Blend.exact a b) in
  let score := pairSimilarity fileA fileB in
  score = Blend.computed a b
  /\ blend - Blend.tolerance <= score <= blend + Blend.tolerance
  /\ (PlagiarismDetector.threshold self <= score ->
      exists r, comparePair self fileA fileB = [r])
  /\ (score < PlagiarismDetector.threshold self -> comparePair self fileA fileB = [])
  /\ forall r, In r (comparePair self fileA fileB) ->
               In r (detectPlagiarism self fs filesData)
               /\ Blend.reports blend (Result.similarity r).
Proof.
  intros Hp Hh a b blend score.
  assert (Hs : score = Blend.computed a b).
  { destruct (pairs_In_l _ _ _ Hp) as [HA HB].
    apply processFiles_In in HA as (fa & _ & HA).
    apply processFiles_In in HB as (fb & _ & HB).
    unfold score, pairSimilarity, eqb. rewrite bool_decide_eq_false_2 by exact Hh.
    apply calculateSimilarity_computed; eapply processFile_truthy; eassumption. }
  pose proof (computed_close a b) as [Hclose Hrange].
  assert (Hb : blend = Blend.exact a b) by (apply clamp01_id, exact_range).
  rewrite <- Hs in Hclose, Hrange. rewrite <- Hb in Hclose.
  clearbody score blend.
  split; [exact Hs|]. split; [exact Hclose|].
  assert (Hcases : forall r, In r (comparePair self fileA fileB) ->
                     PlagiarismDetector.threshold self <= pairSimilarity fileA fileB
                     /\ Result.similarity r
                        = div (Js.round (mul (mul (pairSimilarity fileA fileB) 100) 100))
                              100).
  { intros r. unfold comparePair.
    destruct (Js.geb _ _) eqn:E; [|intros []]. apply geb_spec in E.
    intros [<-|[]]. split; [exact E | reflexivity]. }
  assert (Hscore : pairSimilarity fileA fileB = score).
  { subst a b. rewrite Hs. clear - Hp Hh.
    destruct (pairs_In_l _ _ _ Hp) as [HA HB].
    apply processFiles_In in HA as (fa & _ & HA).
    apply processFiles_In in HB as (fb & _ & HB).
    unfold pairSimilarity, eqb. rewrite bool_decide_eq_false_2 by exact Hh.
    apply calculateSimilarity_computed; eapply processFile_truthy; eassumption. }
  rewrite Hscore in Hcases.
  split; [|split].
  - intros Ht. apply geb_spec in Ht. unfold comparePair. rewrite Hscore, Ht. eauto.
  - intros Ht. unfold comparePair. rewrite Hscore.
    destruct (Js.geb _ _) eqn:E; [|reflexivity]. apply geb_spec in E. lra.
  - intros r Hr. split; [eapply comparePair_in_run; eassumption|].
    destruct (Hcases r Hr) as [_ ->]. now apply reported_close.
Qed.

End ScoreInBinary64.

Lemma C1_weighted_blend_witness :
  let fileA := Examples.processed "a" in
  let fileB := Examples.processed "c" in
  let self := Examples.detector 0.1 in
  let a := ProcessedFile.normalized_code fileA in
  let b := ProcessedFile.normalized_code fileB in
  let blend := Spec.clamp01 (Blend.exact a b) in
  let score := PlagiarismDetector64.pairSimilarity fileA fileB in
  score = Blend.computed a b
  /\ (blend - Blend.tolerance <= score <= blend + Blend.tolerance)%Q
  /\ ((PlagiarismDetector.threshold self <= score)%Q ->
      exists r, PlagiarismDetector64.comparePair self fileA fileB = [r])
  /\ ((score < PlagiarismDetector.threshold self)%Q ->
      PlagiarismDetector64.comparePair self fileA fileB = [])
  /\ forall r, In r (PlagiarismDetector64.comparePair self fileA fileB) ->
               In r (PlagiarismDetector64.detectPlagiarism self Examples.disk
                       Examples.batch)
               /\ Blend.reports blend (Result.similarity r).
Proof.
  apply (C1_weighted_blend (Examples.detector 0.1) Examples.disk Examples.batch
           (Examples.processed "a") (Examples.processed "c")).
  - vm_compute. right. left. reflexivity.
  - vm_compute. discriminate.
Defined.

(** The two lists of numbers have Dice 3/10, Jaccard 1/16 and no covered
    line, so the blend is 0.13875, which is 13.88 as a percentage of two
    decimals, ties away from the lower hundredth or to the even one; the
    program reports the double nearest to 13.87. *)
Lemma C1_counterexample :
  let self := Examples.detector 0.1 in
  exists fileA fileB r,
    PlagiarismDetector.processFiles self Blend.disk Blend.batch [] = [fileA; fileB]
    /\ ProcessedFile.normalized_code fileA = Blend.listing
    /\ ProcessedFile.normalized_code fileB = Blend.shortListing
    /\ ProcessedFile.code_hash fileA <> ProcessedFile.code_hash fileB
    /\ (Spec.clamp01 (Blend.exact Blend.listing Blend.shortListing) == 111 # 800)%Q
    /\ (Js.round ((111 # 800) * 100 * 100) / 100 == 1388 # 100)%Q
    /\ PlagiarismDetector64.detectPlagiarism self Blend.disk Blend.batch = [r]
    /\ Result.similarity r = Binary64.fl (1387 # 100)
    /\ (Result.similarity r < 1387 # 100)%Q.
Proof.
  cbv zeta. eexists _, _, _. split; [vm_compute; reflexivity|].
  split; [reflexivity|]. split; [reflexivity|].
  split; [vm_compute; discriminate|].
  split; [vm_compute; reflexivity|]. split; [vm_compute; reflexivity|].
  split; [vm_compute; reflexivity|].
  split; [vm_compute; reflexivity|]. vm_compute. reflexivity.
Qed.
